(** * Sound reflexion and diffraction simulation: the acoustic model and the
      wave-field renderer, embedded over binary64 numbers.

    TypeScript's [number] is an IEEE 754 binary64 value; it is modelled by
    Rocq's primitive [float], whose operations are specified by the
    [spec_float] functions of the Standard Library.  Comparisons with [NaN],
    signed zeros, overflow to [Infinity] and rounding are therefore the ones
    the program really sees. *)

From Stdlib Require Import ZArith Reals Floats Bool String List Lia Lra Psatz.
Import ListNotations.
Local Open Scope string_scope.
Local Open Scope list_scope.

Set Warnings "-inexact-float".
Local Open Scope float_scope.

(** ** ECMAScript number operations that are not binary64 primitives *)

(** [Math.max(x, y)]: [NaN] if either argument is, and [+0] is larger than [-0]. *)
Definition Math_max (x y : float) : float :=
  if is_nan x || is_nan y then nan
  else if x <? y then y
  else if y <? x then x
  else if get_sign x then y else x.

(** [Math.min(x, y)]: [NaN] if either argument is, and [-0] is smaller than [+0]. *)
Definition Math_min (x y : float) : float :=
  if is_nan x || is_nan y then nan
  else if x <? y then x
  else if y <? x then y
  else if get_sign x then x else y.

(** [n % d] on numbers: the exact remainder of the truncated division, with
    the sign of the dividend; it is computed on the integer mantissas. *)
Definition SFrem (x y : spec_float) : spec_float :=
  match x, y with
  | S754_nan, _ | _, S754_nan => S754_nan
  | S754_infinity _, _ => S754_nan
  | _, S754_zero _ => S754_nan
  | _, S754_infinity _ => x
  | S754_zero _, _ => x
  | S754_finite sx mx ex, S754_finite _ my ey =>
      let e := Z.min ex ey in
      let n := (Zpos mx * 2 ^ (ex - e))%Z in
      let d := (Zpos my * 2 ^ (ey - e))%Z in
      binary_normalize prec emax (cond_Zopp sx (Z.rem n d)) e sx
  end.

Definition Number_remainder (n d : float) : float :=
  SF2Prim (SFrem (Prim2SF n) (Prim2SF d)).

Notation "n 'mod' d" := (Number_remainder n d)
  (at level 40, no associativity) : float_scope.

(** [Math.hypot(x, y)]: infinite as soon as one argument is; the square root
    of the sum of squares otherwise. *)
Definition Math_hypot (x y : float) : float :=
  if is_infinity x || is_infinity y then infinity
  else sqrt (x * x + y * y).

Definition Math_PI : float := 0x1.921fb54442d18p+1.

(** The number a DOM integer attribute (a [long]) reads as. *)
Definition number_of_Z (z : Z) : float :=
  SF2Prim (binary_normalize prec emax z 0 false).

(** [Object.is] on numbers, the comparison React applies to dependencies:
    [NaN] is itself and the two zeros differ. *)
Definition Object_is (x y : float) : bool := Leibniz.eqb x y.

(** ** types.ts *)

Inductive Behavior : Set := REFLECTING | DIFFRACTING | TRANSITIONAL.

Record SimulationParams : Set := {
  frequency : float;    (* in Hertz *)
  obstacleSize : float; (* in Meters (height of the wall) *)
  temperature : float   (* in Celsius (affects speed of sound) *)
}.

Record AcousticMetrics : Set := {
  wavelength : float;   (* in Meters *)
  speedOfSound : float; (* in m/s *)
  ratio : float;        (* Obstacle Size / Wavelength *)
  behavior : Behavior
}.

(** ** utils/physics.ts *)

Definition calculateSpeedOfSound (tempCelsius : float) : float :=
  331.4 + 0.6 * tempCelsius.

Definition calculateMetrics (params : SimulationParams) : AcousticMetrics :=
  let speed := calculateSpeedOfSound (temperature params) in
  let wavelength := speed / frequency params in
  let ratio := obstacleSize params / wavelength in
  let behavior :=
    if 1.0 <? ratio then REFLECTING
    else if ratio <? 0.5 then DIFFRACTING
    else TRANSITIONAL in
  {| speedOfSound := speed;
     wavelength := wavelength;
     ratio := ratio;
     behavior := behavior |}.

(** ** The 2D drawing context, as the sequence of calls made on it *)

(** A colour string: a literal, or the template [rgba(r, g, b, ${a})]. *)
Inductive Style : Set :=
| Hex (s : string)
| Rgba (r g b : Z) (a : float).

Inductive CanvasOp : Set :=
| fillStyle (s : Style)
| strokeStyle (s : Style)
| shadowColor (s : Style)
| lineWidth (w : float)
| shadowBlur (b : float)
| font (f : string)
| fillRect (x y w h : float)
| beginPath
| closePath
| stroke
| fill
| save
| restore
| moveTo (x y : float)
| lineTo (x y : float)
| arc (x y r startAngle endAngle : float)
| fillText (t : string) (x y : float).

(** What running a piece of the frame comes to: it returns after the calls
    [ops]; or a call throws after [ops]; or a loop has not finished when the
    fuel runs out. *)
Inductive Run : Set :=
| Returned (ops : list CanvasOp)
| Threw (ops : list CanvasOp)
| OutOfFuel.

Definition seq (a b : Run) : Run :=
  match a with
  | Returned o1 =>
      match b with
      | Returned o2 => Returned (o1 ++ o2)
      | Threw o2 => Threw (o1 ++ o2)
      | OutOfFuel => OutOfFuel
      end
  | Threw o1 => Threw o1
  | OutOfFuel => OutOfFuel
  end.

Notation "a ;; b" := (seq a b) (at level 61, right associativity).

Definition call (o : CanvasOp) : Run := Returned [o].

(** [ctx.arc]: the call returns at once when an argument is not finite, and
    throws an IndexSizeError when the radius is negative. *)
Definition ctx_arc (x y r startAngle endAngle : float) : Run :=
  if is_finite x && is_finite y && is_finite r
     && is_finite startAngle && is_finite endAngle && (r <? 0)
  then Threw [arc x y r startAngle endAngle]
  else Returned [arc x y r startAngle endAngle].

(** ** components/WaveCanvas.tsx: one frame *)

(** [for (let x = 0; x < width; x += PIXELS_PER_METER)] *)
Fixpoint gridColumns (fuel : nat) (x width height PIXELS_PER_METER : float) : Run :=
  match fuel with
  | O => OutOfFuel
  | S fuel' =>
      if x <? width then
        call (moveTo x 0) ;; call (lineTo x height) ;;
        gridColumns fuel' (x + PIXELS_PER_METER) width height PIXELS_PER_METER
      else Returned []
  end.

(** [for (let y = 0; y < height; y += PIXELS_PER_METER)] *)
Fixpoint gridRows (fuel : nat) (y width height PIXELS_PER_METER : float) : Run :=
  match fuel with
  | O => OutOfFuel
  | S fuel' =>
      if y <? height then
        call (moveTo 0 y) ;; call (lineTo width y) ;;
        gridRows fuel' (y + PIXELS_PER_METER) width height PIXELS_PER_METER
      else Returned []
  end.

Definition diffractionFactor (ratio : float) : float :=
  Math_max 0 (Math_min 1 (1.5 - ratio)).

(** 1. Draw Incident Waves:
    [for (let r = phaseOffset; r < maxRadius; r += wavelengthPx)] *)
Fixpoint incidentWaves (fuel : nat) (r maxRadius wavelengthPx sourceX centerY : float) : Run :=
  match fuel with
  | O => OutOfFuel
  | S fuel' =>
      if r <? maxRadius then
        let intensity := Math_max 0 (1 - r / (maxRadius * 0.8)) in
        call (strokeStyle (Rgba 56 189 248 intensity)) ;;
        call beginPath ;;
        ctx_arc sourceX centerY r 0 (Math_PI * 2) ;;
        call stroke ;;
        incidentWaves fuel' (r + wavelengthPx) maxRadius wavelengthPx sourceX centerY
      else Returned []
  end.

(** 2. Draw Shadow Zone *)
Definition shadowZone (width obstacleX obsTop obsBottom diffractionFactor : float) : Run :=
  call (fillStyle (Rgba 9 9 11 (1 - diffractionFactor))) ;;
  call beginPath ;;
  call (moveTo obstacleX obsTop) ;;
  call (lineTo width (obsTop - (width - obstacleX) * 0.3)) ;;
  call (lineTo width (obsBottom + (width - obstacleX) * 0.3)) ;;
  call (lineTo obstacleX obsBottom) ;;
  call closePath ;;
  call fill.

Definition reflectionOpacity (ratio : float) : float :=
  Math_min 1 (ratio - 0.6).

(** 3. Draw Reflected Waves, the loop under [if (metrics.ratio > 0.8)] *)
Fixpoint reflectedWaves (fuel : nat)
    (r maxRadius wavelengthPx width sourceX obstacleX centerY reflectionOpacity : float) : Run :=
  match fuel with
  | O => OutOfFuel
  | S fuel' =>
      if r <? maxRadius then
        let distToObs := obstacleX - sourceX in
        (if distToObs <? r then
           let reflectedRadius := r - distToObs in
           if 0 <? reflectedRadius then
             let intensity :=
               Math_max 0 ((1 - reflectedRadius / (width * 0.5)) * reflectionOpacity * 0.6) in
             call (strokeStyle (Rgba 248 113 113 intensity)) ;;
             call beginPath ;;
             ctx_arc obstacleX centerY reflectedRadius (Math_PI * 0.5) (Math_PI * 1.5) ;;
             call stroke
           else Returned []
         else Returned []) ;;
        reflectedWaves fuel' (r + wavelengthPx) maxRadius wavelengthPx width sourceX obstacleX
          centerY reflectionOpacity
      else Returned []
  end.

Definition obstacleColor (b : Behavior) : Style :=
  match b with
  | REFLECTING => Hex "#f87171"
  | TRANSITIONAL => Hex "#fbbf24"
  | DIFFRACTING => Hex "#4ade80"
  end.

(** The body of [render] between the resize and [time++]: everything it
    draws on a surface of [width] x [height] at tick [time]. *)
Definition drawFrame (fuel : nat) (width height obstacleSize : float)
    (metrics : AcousticMetrics) (time : float) : Run :=
  let PIXELS_PER_METER := Math_min 60 (height / 6) in
  let centerX := width / 2 in
  let centerY := height / 2 in
  let sourceX := width * 0.15 in
  let obstacleX := centerX in
  let wavelengthPx := wavelength metrics * PIXELS_PER_METER in
  let obstacleHeightPx := obstacleSize * PIXELS_PER_METER in
  let obstacleWidthPx := 15 in
  let diffractionFactor := diffractionFactor (ratio metrics) in
  let maxRadius := Math_hypot width height in
  let waveSpeedPx := 2 in
  let phaseOffset := (time * waveSpeedPx) mod wavelengthPx in
  let obsTop := centerY - obstacleHeightPx / 2 in
  let obsBottom := centerY + obstacleHeightPx / 2 in
  (* Clear *)
  call (fillStyle (Hex "#09090b")) ;;
  call (fillRect 0 0 width height) ;;
  (* Draw Grid (1m grid) *)
  call (strokeStyle (Hex "#18181b")) ;;
  call (lineWidth 1) ;;
  call beginPath ;;
  gridColumns fuel 0 width height PIXELS_PER_METER ;;
  gridRows fuel 0 width height PIXELS_PER_METER ;;
  call stroke ;;
  (* Draw Waves *)
  call (lineWidth 2) ;;
  call save ;;
  incidentWaves fuel phaseOffset maxRadius wavelengthPx sourceX centerY ;;
  shadowZone width obstacleX obsTop obsBottom diffractionFactor ;;
  (if 0.8 <? ratio metrics then
     reflectedWaves fuel phaseOffset maxRadius wavelengthPx width sourceX obstacleX centerY
       (reflectionOpacity (ratio metrics))
   else Returned []) ;;
  (* Draw Obstacle *)
  call (fillStyle (obstacleColor (behavior metrics))) ;;
  call (shadowColor (obstacleColor (behavior metrics))) ;;
  call (shadowBlur 15) ;;
  call (fillRect obstacleX obsTop obstacleWidthPx obstacleHeightPx) ;;
  call (shadowBlur 0) ;;
  (* Draw Source *)
  call (fillStyle (Hex "#38bdf8")) ;;
  call beginPath ;;
  ctx_arc sourceX centerY 5 0 (Math_PI * 2) ;;
  call fill ;;
  (* Labels *)
  call (fillStyle (Hex "#a1a1aa")) ;;
  call (font "10px sans-serif") ;;
  call (fillText "Schallquelle" (sourceX - 25) (centerY - 12)) ;;
  call (fillText "Hindernis" (obstacleX - 20) (obsTop - 8)) ;;
  call restore.

(** ** The host: objects, React's effect life cycle, animation frames *)

(** A JavaScript object as React sees it in a dependency array: its
    identity [ref] and its contents. *)
Record Obj (A : Type) : Type := { ref : nat; val : A }.
Arguments ref {A} _.
Arguments val {A} _.

Module WaveCanvasProps.
Record t : Set := {
  frequency : float;
  obstacleSize : float;
  metrics : Obj AcousticMetrics
}.
End WaveCanvasProps.

(** The dependency array [[frequency, obstacleSize, metrics]] of the effect,
    compared entry by entry with [Object.is]. *)
Definition depsChanged (prev next : WaveCanvasProps.t) : bool :=
  negb (Object_is (WaveCanvasProps.frequency prev) (WaveCanvasProps.frequency next)
        && Object_is (WaveCanvasProps.obstacleSize prev) (WaveCanvasProps.obstacleSize next)
        && Nat.eqb (ref (WaveCanvasProps.metrics prev)) (ref (WaveCanvasProps.metrics next))).

(** The variables one run of the effect closes over: the constants [canvas],
    [container] and [ctx] (here: whether each is non-null), the props of the
    component render the effect belongs to, and the two [let] variables. *)
Record Closure : Set := {
  canvas : bool;
  container : bool;
  ctx : bool;
  props : WaveCanvasProps.t;
  time : float;
  animationFrameId : option nat
}.

Record World : Set := {
  canvasRef : bool;          (* canvasRef.current is an element *)
  containerRef : bool;       (* containerRef.current is an element *)
  context2d : bool;          (* canvas.getContext('2d') gives a context *)
  clientWidth : Z;           (* container.clientWidth *)
  clientHeight : Z;          (* container.clientHeight *)
  canvas_width : Z;          (* canvas.width *)
  canvas_height : Z;         (* canvas.height *)
  closures : list Closure;   (* one per run of the effect, in order *)
  callbacks : list (nat * nat); (* pending animation frame callbacks:
                                   handle, and the closure whose [render] it is *)
  nextHandle : nat;
  mounted : option WaveCanvasProps.t; (* the props of the last component render *)
  cleanup : option nat;      (* the closure whose cleanup React holds *)
  frames : list (nat * list CanvasOp); (* every frame drawn: by which closure, and its calls *)
  hung : bool                (* a loop never returned: nothing runs any more *)
}.

Definition set_canvas_size (cw ch : Z) (w : World) : World :=
  {| canvasRef := canvasRef w; containerRef := containerRef w; context2d := context2d w;
     clientWidth := clientWidth w; clientHeight := clientHeight w;
     canvas_width := cw; canvas_height := ch;
     closures := closures w; callbacks := callbacks w; nextHandle := nextHandle w;
     mounted := mounted w; cleanup := cleanup w; frames := frames w; hung := hung w |}.

Definition set_closures (cs : list Closure) (w : World) : World :=
  {| canvasRef := canvasRef w; containerRef := containerRef w; context2d := context2d w;
     clientWidth := clientWidth w; clientHeight := clientHeight w;
     canvas_width := canvas_width w; canvas_height := canvas_height w;
     closures := cs; callbacks := callbacks w; nextHandle := nextHandle w;
     mounted := mounted w; cleanup := cleanup w; frames := frames w; hung := hung w |}.

Definition set_callbacks (cbs : list (nat * nat)) (w : World) : World :=
  {| canvasRef := canvasRef w; containerRef := containerRef w; context2d := context2d w;
     clientWidth := clientWidth w; clientHeight := clientHeight w;
     canvas_width := canvas_width w; canvas_height := canvas_height w;
     closures := closures w; callbacks := cbs; nextHandle := nextHandle w;
     mounted := mounted w; cleanup := cleanup w; frames := frames w; hung := hung w |}.

Definition set_nextHandle (h : nat) (w : World) : World :=
  {| canvasRef := canvasRef w; containerRef := containerRef w; context2d := context2d w;
     clientWidth := clientWidth w; clientHeight := clientHeight w;
     canvas_width := canvas_width w; canvas_height := canvas_height w;
     closures := closures w; callbacks := callbacks w; nextHandle := h;
     mounted := mounted w; cleanup := cleanup w; frames := frames w; hung := hung w |}.

Definition set_mounted (m : option WaveCanvasProps.t) (w : World) : World :=
  {| canvasRef := canvasRef w; containerRef := containerRef w; context2d := context2d w;
     clientWidth := clientWidth w; clientHeight := clientHeight w;
     canvas_width := canvas_width w; canvas_height := canvas_height w;
     closures := closures w; callbacks := callbacks w; nextHandle := nextHandle w;
     mounted := m; cleanup := cleanup w; frames := frames w; hung := hung w |}.

Definition set_cleanup (c : option nat) (w : World) : World :=
  {| canvasRef := canvasRef w; containerRef := containerRef w; context2d := context2d w;
     clientWidth := clientWidth w; clientHeight := clientHeight w;
     canvas_width := canvas_width w; canvas_height := canvas_height w;
     closures := closures w; callbacks := callbacks w; nextHandle := nextHandle w;
     mounted := mounted w; cleanup := c; frames := frames w; hung := hung w |}.

Definition add_frame (id : nat) (ops : list CanvasOp) (w : World) : World :=
  {| canvasRef := canvasRef w; containerRef := containerRef w; context2d := context2d w;
     clientWidth := clientWidth w; clientHeight := clientHeight w;
     canvas_width := canvas_width w; canvas_height := canvas_height w;
     closures := closures w; callbacks := callbacks w; nextHandle := nextHandle w;
     mounted := mounted w; cleanup := cleanup w; frames := frames w ++ [(id, ops)];
     hung := hung w |}.

Definition set_hung (w : World) : World :=
  {| canvasRef := canvasRef w; containerRef := containerRef w; context2d := context2d w;
     clientWidth := clientWidth w; clientHeight := clientHeight w;
     canvas_width := canvas_width w; canvas_height := canvas_height w;
     closures := closures w; callbacks := callbacks w; nextHandle := nextHandle w;
     mounted := mounted w; cleanup := cleanup w; frames := frames w; hung := true |}.

Definition set_surface (cv ct c2 : bool) (cw ch : Z) (w : World) : World :=
  {| canvasRef := cv; containerRef := ct; context2d := c2;
     clientWidth := cw; clientHeight := ch;
     canvas_width := canvas_width w; canvas_height := canvas_height w;
     closures := closures w; callbacks := callbacks w; nextHandle := nextHandle w;
     mounted := mounted w; cleanup := cleanup w; frames := frames w; hung := hung w |}.

Fixpoint update_nth {A : Type} (n : nat) (x : A) (l : list A) : list A :=
  match l, n with
  | [], _ => []
  | _ :: t, O => x :: t
  | h :: t, S n' => h :: update_nth n' x t
  end.

(** [requestAnimationFrame(render)] called by closure [id]: a fresh handle. *)
Definition requestAnimationFrame (id : nat) (w : World) : nat * World :=
  (nextHandle w,
   set_nextHandle (S (nextHandle w)) (set_callbacks (callbacks w ++ [(nextHandle w, id)]) w)).

(** [cancelAnimationFrame(h)]; [cancelAnimationFrame(undefined)] removes nothing. *)
Definition cancelAnimationFrame (h : option nat) (w : World) : World :=
  match h with
  | Some h => set_callbacks (filter (fun cb => negb (Nat.eqb (fst cb) h)) (callbacks w)) w
  | None => w
  end.

(** How a call of [render] ends. *)
Inductive Completion : Set := Normal | Abrupt.

(** [render], as closure [id] runs it. *)
Definition render (fuel : nat) (id : nat) (w : World) : World * Completion :=
  match nth_error (closures w) id with
  | None => (w, Normal)
  | Some c =>
      if negb (canvas c) || negb (container c) || negb (ctx c) then (w, Normal)
      else
        let width := clientWidth w in
        let height := clientHeight w in
        let w :=
          if negb (Z.eqb (canvas_width w) width) || negb (Z.eqb (canvas_height w) height)
          then set_canvas_size width height w else w in
        match drawFrame fuel (number_of_Z width) (number_of_Z height)
                (WaveCanvasProps.obstacleSize (props c))
                (val (WaveCanvasProps.metrics (props c))) (time c) with
        | OutOfFuel => (set_hung w, Abrupt)
        | Threw ops => (add_frame id ops w, Abrupt)
        | Returned ops =>
            let w := add_frame id ops w in
            let time' := time c + 1 in
            let (h, w) := requestAnimationFrame id w in
            (set_closures
               (update_nth id
                  {| canvas := canvas c; container := container c; ctx := ctx c;
                     props := props c; time := time'; animationFrameId := Some h |}
                  (closures w)) w,
             Normal)
        end
  end.

(** The function the effect returns, for closure [id]. *)
Definition runCleanup (id : nat) (w : World) : World :=
  match nth_error (closures w) id with
  | Some c => cancelAnimationFrame (animationFrameId c) w
  | None => w
  end.

(** React runs the cleanup it holds, if any, and forgets it. *)
Definition stop (w : World) : World :=
  match cleanup w with
  | Some id => set_cleanup None (runCleanup id w)
  | None => w
  end.

(** The body of [useEffect], run for a component render with props [p]. *)
Definition effect (fuel : nat) (p : WaveCanvasProps.t) (w : World) : World :=
  if negb (canvasRef w) || negb (containerRef w) then w
  else if negb (context2d w) then w
  else
    let id := length (closures w) in
    let w :=
      set_closures
        (closures w ++
         [{| canvas := true; container := true; ctx := true; props := p;
             time := 0; animationFrameId := None |}]) w in
    match render fuel id w with
    | (w, Normal) => set_cleanup (Some id) w
    | (w, Abrupt) => set_mounted None w   (* the error unmounts the tree *)
    end.

(** The browser runs the animation frame callbacks: those pending when the
    frame starts, each unless it has been cancelled meanwhile. *)
Definition runCallback (fuel : nat) (w : World) (h : nat) : World :=
  if hung w then w
  else
    match find (fun cb => Nat.eqb (fst cb) h) (callbacks w) with
    | Some (_, id) => fst (render fuel id (cancelAnimationFrame (Some h) w))
    | None => w
    end.

Definition animationFrame (fuel : nat) (w : World) : World :=
  fold_left (runCallback fuel) (map fst (callbacks w)) w.

Inductive Event : Set :=
| Mount (p : WaveCanvasProps.t)   (* React mounts the component and commits *)
| Update (p : WaveCanvasProps.t)  (* the parent renders it again, with props [p] *)
| Unmount                         (* React removes it: the surface is torn down *)
| AnimationFrame                  (* the browser runs the frame callbacks *)
| Surface (cv ct c2 : bool) (cw ch : Z). (* the elements, the context or the layout change *)

Definition step (fuel : nat) (w : World) (e : Event) : World :=
  if hung w then w
  else
    match e with
    | Mount p =>
        match mounted w with
        | Some _ => w
        | None => effect fuel p (set_mounted (Some p) w)
        end
    | Update p =>
        match mounted w with
        | None => w
        | Some prev =>
            if depsChanged prev p
            then effect fuel p (stop (set_mounted (Some p) w))
            else set_mounted (Some p) w
        end
    | Unmount =>
        match mounted w with
        | None => w
        | Some _ => set_mounted None (stop w)
        end
    | AnimationFrame => animationFrame fuel w
    | Surface cv ct c2 cw ch => set_surface cv ct c2 cw ch w
    end.

Definition run (fuel : nat) (w : World) (es : list Event) : World :=
  fold_left (step fuel) es w.

(** A page before the component is mounted; the canvas has the default
    300 x 150 backing store. *)
Definition initial (cv ct c2 : bool) (cw ch : Z) : World :=
  {| canvasRef := cv; containerRef := ct; context2d := c2;
     clientWidth := cw; clientHeight := ch;
     canvas_width := 300; canvas_height := 150;
     closures := []; callbacks := []; nextHandle := 1;
     mounted := None; cleanup := None; frames := []; hung := false |}.

(** The tick counter the running renderer uses: the [time] of the closure
    whose cleanup React holds. *)
Definition clock (w : World) : option float :=
  match cleanup w with
  | Some id => option_map time (nth_error (closures w) id)
  | None => None
  end.

(** The frames closure [id] has drawn. *)
Definition framesOf (id : nat) (w : World) : list (list CanvasOp) :=
  map snd (filter (fun f => Nat.eqb (fst f) id) (frames w)).

(** The pending callbacks that would run [render] of closure [id]. *)
Definition pendingOf (id : nat) (w : World) : list (nat * nat) :=
  filter (fun cb => Nat.eqb (snd cb) id) (callbacks w).

(** ** App.tsx: the state, the memoised metrics and the slider handlers *)

Record AppState : Set := {
  params : Obj SimulationParams;
  metricsMemo : Obj AcousticMetrics; (* useMemo(() => calculateMetrics(params), [params]) *)
  nextRef : nat
}.

Definition App_initial : AppState :=
  let p := {| frequency := 343; obstacleSize := 1.0; temperature := 20 |} in
  {| params := {| ref := 0; val := p |};
     metricsMemo := {| ref := 1; val := calculateMetrics p |};
     nextRef := 2 |}.

(** [setParams(prev => f(prev))] with [f] building a new object: the state
    is a new object, so the memo's dependency changed and the metrics are
    computed again, into a new object. *)
Definition setParams (f : SimulationParams -> SimulationParams) (a : AppState) : AppState :=
  let p := f (val (params a)) in
  {| params := {| ref := nextRef a; val := p |};
     metricsMemo := {| ref := S (nextRef a); val := calculateMetrics p |};
     nextRef := S (S (nextRef a)) |}.

Definition handleFreqChange (value : float) : AppState -> AppState :=
  setParams (fun prev =>
    {| frequency := value; obstacleSize := obstacleSize prev;
       temperature := temperature prev |}).

Definition handleSizeChange (value : float) : AppState -> AppState :=
  setParams (fun prev =>
    {| frequency := frequency prev; obstacleSize := value;
       temperature := temperature prev |}).

(** The props [App] passes to [<WaveCanvas>]. *)
Definition App_props (a : AppState) : WaveCanvasProps.t :=
  {| WaveCanvasProps.frequency := frequency (val (params a));
     WaveCanvasProps.obstacleSize := obstacleSize (val (params a));
     WaveCanvasProps.metrics := metricsMemo a |}.

(** ** Inputs used as examples *)

(** Parameters at 20 degrees whose frequency is the speed of sound, so that
    the wavelength is 1 and the ratio is the obstacle size. *)
Definition unit_wavelength (size : float) : SimulationParams :=
  {| frequency := calculateSpeedOfSound 20; obstacleSize := size; temperature := 20 |}.


(** ** Invariant of the host model *)

(** Every pending callback belongs to the closure whose cleanup React
    holds, under the handle that closure remembers; an unmounted component
    holds no cleanup. *)
Definition Inv (w : World) : Prop :=
  (forall h id, In (h, id) (callbacks w) ->
     cleanup w = Some id /\
     exists c, nth_error (closures w) id = Some c /\ animationFrameId c = Some h)
  /\ (mounted w = None -> cleanup w = None)
  /\ (forall id, cleanup w = Some id -> (id < List.length (closures w))%nat).

(** Closure [id] exists and its cleanup has run (or it never had one). *)
Definition Dead (id : nat) (w : World) : Prop :=
  (id < List.length (closures w))%nat /\ cleanup w <> Some id.

(** Handling [e] in world [w] makes React call the cleanup: the component is
    unmounted, or rendered again with a changed dependency. *)
Definition runsCleanup (w : World) (e : Event) : bool :=
  negb (hung w) &&
  match e, mounted w with
  | Unmount, Some _ => true
  | Update p, Some prev => depsChanged prev p
  | _, _ => false
  end.

(** The props [App] passes at first, and after the frequency slider moved. *)
Definition props0 : WaveCanvasProps.t := App_props App_initial.
Definition props1 : WaveCanvasProps.t := App_props (handleFreqChange 353 App_initial).

(** The App's object identities are allocated below [nextRef]. *)
Definition AppInv (a : AppState) : Prop :=
  (ref (params a) < nextRef a)%nat /\ (ref (metricsMemo a) < nextRef a)%nat.

(** The page 800 x 480 with the component mounted and two animation frames
    run: three frames drawn. *)
Definition world3 : World :=
  run 100 (initial true true true 800 480) [Mount props0; AnimationFrame; AnimationFrame].

(** ** Binary64 values: sign, order, and what rounding computes *)

Definition SFis_nan (x : spec_float) : bool :=
  match x with S754_nan => true | _ => false end.

(** The sign bit, as [get_sign] reads it. *)
Definition SFsign (x : spec_float) : bool :=
  match x with
  | S754_zero s | S754_infinity s | S754_finite s _ _ => s
  | S754_nan => false
  end.

(** [Math.max] and [Math.min] on specification floats. *)
Definition SFmax (x y : spec_float) : spec_float :=
  match SFcompare x y with
  | None => S754_nan
  | Some Lt => y
  | Some Gt => x
  | Some Eq => if SFsign x then y else x
  end.

Definition SFmin (x y : spec_float) : spec_float :=
  match SFcompare x y with
  | None => S754_nan
  | Some Lt => x
  | Some Gt => y
  | Some Eq => if SFsign x then x else y
  end.

(** [clamp(x, lo, hi)], as it is commonly written. *)
Definition clamp (x lo hi : float) : float := Math_min (Math_max x lo) hi.

(** The canonical exponent of binary64. *)
Abbreviation fexp64 := (fexp prec emax).

Section Binary64.
Local Open Scope Z_scope.

Definition pow2 (e : Z) : R := powerRZ 2 e.

(** [w] lies in [[m, m+1)], at the place the two bits say: on [m], strictly
    between [m] and the middle, on the middle, or above it. *)
Definition located (m : Z) (r s : bool) (w : R) : Prop :=
  match r, s with
  | false, false => w = IZR m
  | false, true => (IZR m < w < IZR m + / 2)%R
  | true, false => w = (IZR m + / 2)%R
  | true, true => (IZR m + / 2 < w < IZR m + 1)%R
  end.

Definition located_rec (mrs : shr_record) (w : R) : Prop :=
  0 <= shr_m mrs /\ located (shr_m mrs) (shr_r mrs) (shr_s mrs) w.

Definition NE (w : R) (m : Z) : Prop :=
  (IZR m - / 2 < w < IZR m + / 2)%R
  \/ ((w = IZR m - / 2 \/ w = IZR m + / 2)%R /\ Z.even m = true).

(** [g] is the magnitude of [v]: [2^(g-1) <= v < 2^g]. *)
Definition mag (v : R) (g : Z) : Prop := (pow2 (g - 1) <= v < pow2 g)%R.

(** The float with sign [s] that mantissa [m] (at most [2^53]) makes at
    exponent [e]: an all-ones mantissa that rounded up moves to the next
    exponent, and an exponent above the largest one overflows. *)
Definition float_of (s : bool) (m e : Z) : spec_float :=
  match m with
  | Z0 => S754_zero s
  | Zpos p =>
      if m =? 2 ^ 53 then
        if e + 1 <=? 971 then S754_finite s (2 ^ 52) (e + 1) else S754_infinity s
      else if e <=? 971 then S754_finite s p e else S754_infinity s
  | Zneg _ => S754_nan
  end.

(** [z] is the positive real [v] rounded to nearest-even, with sign [s]. *)
Definition Rnd (s : bool) (v : R) (z : spec_float) : Prop :=
  exists g m, mag v g /\ NE (v / pow2 (fexp64 g)) m /\ z = float_of s m (fexp64 g).

Definition B2R (x : spec_float) : R :=
  match x with
  | S754_finite s m e =>
      if s then (- (IZR (Zpos m) * pow2 e))%R else (IZR (Zpos m) * pow2 e)%R
  | _ => 0%R
  end.

(** A real rounded to nearest-even, of either sign. *)
Definition RND (v : R) (z : spec_float) : Prop :=
  (v = 0%R /\ z = S754_zero false)
  \/ ((0 < v)%R /\ Rnd false v z)
  \/ ((v < 0)%R /\ Rnd true (- v) z).

Definition SFfinite (x : spec_float) : bool :=
  match x with
  | S754_zero _ | S754_finite _ _ _ => true
  | _ => false
  end.

End Binary64.

(** ** Names for what the claims about a frame speak of *)

Definition clampR (x : R) : R := Rmax 0 (Rmin 1 x).
Definition value (x : float) : R := B2R (Prim2SF x).
Definition sf_zero : spec_float := S754_zero false.
Definition sf_one : spec_float := S754_finite false 4503599627370496 (-52).
Definition sf_1_5 : spec_float := S754_finite false 6755399441055744 (-52).

(** [diffractionFactor] on specification floats. *)
Definition SFdf (x : spec_float) : spec_float :=
  SFmax sf_zero (SFmin sf_one (SF64sub sf_1_5 x)).

(** The real value the factor has on each number that is not [NaN]. *)
Definition factorR (x : spec_float) : R :=
  match x with
  | S754_infinity false => 0%R
  | S754_infinity true => 1%R
  | _ => clampR (3 / 2 - B2R x)
  end.

(** An arc of a reflected wavefront: the half circle from [PI/2] to [3 PI/2]. *)
Definition reflectedArc (o : CanvasOp) : bool :=
  match o with
  | arc _ _ _ a0 a1 => Leibniz.eqb a0 (Math_PI * 0.5) && Leibniz.eqb a1 (Math_PI * 1.5)
  | _ => false
  end.

(** The locals of [render], as functions of what they are computed from. *)
Definition PIXELS_PER_METER (height : float) : float := Math_min 60 (height / 6).
Definition wavelengthPx (metrics : AcousticMetrics) (height : float) : float :=
  wavelength metrics * PIXELS_PER_METER height.
Definition phaseOffset (time : float) (metrics : AcousticMetrics) (height : float) : float :=
  (time * 2) mod wavelengthPx metrics height.

(** The calls of the shadow zone, of opacity [1 - factor]. *)
Definition shadowOps (width height obstacleSize factor : float) : list CanvasOp :=
  let obstacleHeightPx := obstacleSize * PIXELS_PER_METER height in
  let obsTop := height / 2 - obstacleHeightPx / 2 in
  let obsBottom := height / 2 + obstacleHeightPx / 2 in
  [fillStyle (Rgba 9 9 11 (1 - factor)); beginPath;
   moveTo (width / 2) obsTop;
   lineTo width (obsTop - (width - width / 2) * 0.3);
   lineTo width (obsBottom + (width - width / 2) * 0.3);
   lineTo (width / 2) obsBottom;
   closePath; fill].

(** The reflected pass of a frame: the loop, when the guard lets it run. *)
Definition reflectedPass (fuel : nat) (width height : float) (metrics : AcousticMetrics)
    (time : float) (opacity : float) : Run :=
  if 0.8 <? ratio metrics then
    reflectedWaves fuel (phaseOffset time metrics height) (Math_hypot width height)
      (wavelengthPx metrics height) width (width * 0.15) (width / 2) (height / 2) opacity
  else Returned [].

Definition sf_0_8 : spec_float := S754_finite false 7205759403792794 (-53).

(** The metrics of the App's initial parameters, and the first frame they
    give on a surface of 800 x 480. *)
Definition metrics0 : AcousticMetrics :=
  calculateMetrics {| frequency := 343; obstacleSize := 1.0; temperature := 20 |}.

Definition frame0 : list CanvasOp :=
  match drawFrame 100 800 480 1.0 metrics0 0 with
  | Returned ops => ops
  | _ => []
  end.

(** A call of [ctx.arc]. *)
Definition isArc (o : CanvasOp) : bool :=
  match o with arc _ _ _ _ _ => true | _ => false end.

(** The metrics of a frequency of 0, and the frame of tick 3 they give on a
    surface of 800 x 480. *)
Definition metricsZ : AcousticMetrics :=
  calculateMetrics {| frequency := 0; obstacleSize := 1.0; temperature := 20 |}.

Definition frameZ : list CanvasOp :=
  match drawFrame 100 800 480 1.0 metricsZ 3 with
  | Returned ops => ops
  | _ => []
  end.

(** The calls of a frame on a surface of 0 x 0. *)
Definition emptyFrame (obstacleSize : float) (metrics : AcousticMetrics) : list CanvasOp :=
  let obsTop := 0 - obstacleSize * 0 / 2 in
  let obsBottom := 0 + obstacleSize * 0 / 2 in
  [fillStyle (Hex "#09090b"); fillRect 0 0 0 0;
   strokeStyle (Hex "#18181b"); lineWidth 1; beginPath; stroke;
   lineWidth 2; save;
   fillStyle (Rgba 9 9 11 (1 - diffractionFactor (ratio metrics))); beginPath;
   moveTo 0 obsTop; lineTo 0 (obsTop - 0 * 0.3); lineTo 0 (obsBottom + 0 * 0.3);
   lineTo 0 obsBottom; closePath; fill;
   fillStyle (obstacleColor (behavior metrics));
   shadowColor (obstacleColor (behavior metrics)); shadowBlur 15;
   fillRect 0 obsTop 15 (obstacleSize * 0); shadowBlur 0;
   fillStyle (Hex "#38bdf8"); beginPath; arc 0 0 5 0 (Math_PI * 2); fill;
   fillStyle (Hex "#a1a1aa"); font "10px sans-serif";
   fillText "Schallquelle" (0 - 25) (0 - 12);
   fillText "Hindernis" (0 - 20) (obsTop - 8); restore].

(** The page with a surface of 0 x 0 after [k] frames: closure 0 at tick
    [tm], its callback pending under handle [k]. *)
Definition emptyWorld (cv ct c2 : bool) (p : WaveCanvasProps.t) (k : nat) (tm : float) : World :=
  {| canvasRef := cv; containerRef := ct; context2d := c2;
     clientWidth := 0; clientHeight := 0;
     canvas_width := 0; canvas_height := 0;
     closures := [{| canvas := true; container := true; ctx := true; props := p;
                     time := tm; animationFrameId := Some k |}];
     callbacks := [(k, 0%nat)]; nextHandle := S k;
     mounted := Some p; cleanup := Some 0%nat;
     frames := repeat (0%nat, emptyFrame (WaveCanvasProps.obstacleSize p)
                                (val (WaveCanvasProps.metrics p))) k;
     hung := false |}.

(** The three-way classification as the source writes it: the predicates in
    their order. *)
Definition classify (r : float) : Behavior :=
  if 1.0 <? r then REFLECTING
  else if r <? 0.5 then DIFFRACTING
  else TRANSITIONAL.


(** * Further definitions: what the properties beyond the claims speak of *)

(** [z] is the real [v] rounded to nearest-even; a zero result has either
    sign. *)
Definition RNDz (v : R) (z : spec_float) : Prop :=
  (v = 0%R /\ exists s, z = S754_zero s)
  \/ ((0 < v)%R /\ Rnd false v z)
  \/ ((v < 0)%R /\ Rnd true (- v) z).

(** The number [x] is the real [v] rounded. *)
Definition rounds (v : R) (x : float) : Prop := RNDz v (Prim2SF x).

(** The place of a number that is not [NaN] on the real line, the infinities
    put beyond every finite number. *)
Definition xval (x : float) : R :=
  match Prim2SF x with
  | S754_infinity false => pow2 1024
  | S754_infinity true => (- pow2 1024)%R
  | z => B2R z
  end.

(** How far towards reflection a behaviour is. *)
Definition rank (b : Behavior) : nat :=
  match b with
  | DIFFRACTING => 0
  | TRANSITIONAL => 1
  | REFLECTING => 2
  end.

(** A run that did not throw: it returned, or is still running. *)
Definition noThrow (r : Run) : Prop :=
  match r with Threw _ => False | _ => True end.

(** A run that returned. *)
Definition finishes (r : Run) : Prop := exists ops, r = Returned ops.




(** What the frame draws before the waves, and after them. *)
Definition framePrologue (width height : float) : list CanvasOp :=
  [fillStyle (Hex "#09090b"); fillRect 0 0 width height;
   strokeStyle (Hex "#18181b"); lineWidth 1; beginPath].

Definition frameEpilogue (width height obstacleSize : float) (metrics : AcousticMetrics)
    : list CanvasOp :=
  let obstacleHeightPx := obstacleSize * PIXELS_PER_METER height in
  let obsTop := height / 2 - obstacleHeightPx / 2 in
  [fillStyle (obstacleColor (behavior metrics));
   shadowColor (obstacleColor (behavior metrics));
   shadowBlur 15;
   fillRect (width / 2) obsTop 15 obstacleHeightPx;
   shadowBlur 0;
   fillStyle (Hex "#38bdf8"); beginPath;
   arc (width * 0.15) (height / 2) 5 0 (Math_PI * 2); fill;
   fillStyle (Hex "#a1a1aa"); font "10px sans-serif";
   fillText "Schallquelle" (width * 0.15 - 25) (height / 2 - 12);
   fillText "Hindernis" (width / 2 - 20) (obsTop - 8);
   restore].


(** The two calls of a grid line, vertical at [x] and horizontal at [y]. *)
Definition columnLine (height : float) (k : nat) : list CanvasOp :=
  [moveTo (number_of_Z (60 * Z.of_nat k)) 0; lineTo (number_of_Z (60 * Z.of_nat k)) height].

Definition rowLine (width : float) (k : nat) : list CanvasOp :=
  [moveTo 0 (number_of_Z (60 * Z.of_nat k)); lineTo width (number_of_Z (60 * Z.of_nat k))].

(** The number of multiples of 60 below [n]. *)
Definition linesBelow (n : Z) : nat := Z.to_nat ((n + 59) / 60).

(** A colour whose opacity, if it has one, is a number from 0 to 1. *)
Definition alphaOK (o : CanvasOp) : bool :=
  match o with
  | fillStyle (Rgba _ _ _ a) | strokeStyle (Rgba _ _ _ a) | shadowColor (Rgba _ _ _ a) =>
      (0 <=? a) && (a <=? 1)
  | _ => true
  end.

(** The page while the loop of the first run of the effect is going: the
    surface of [cw] x [ch] the canvas was last sized to, closure 0 at tick
    [tm] with its callback pending under handle [k], and the frames drawn so
    far. *)
Definition runningWorld (cv ct c2 : bool) (cw ch : Z) (p : WaveCanvasProps.t)
    (k : nat) (tm : float) (fs : list (nat * list CanvasOp)) : World :=
  {| canvasRef := cv; containerRef := ct; context2d := c2;
     clientWidth := cw; clientHeight := ch;
     canvas_width := cw; canvas_height := ch;
     closures := [{| canvas := true; container := true; ctx := true; props := p;
                     time := tm; animationFrameId := Some k |}];
     callbacks := [(k, 0%nat)]; nextHandle := S k;
     mounted := Some p; cleanup := Some 0%nat;
     frames := fs;
     hung := false |}.

(** The frame the initial page draws at tick [k] on 800 x 480. *)
Definition frameAt (k : nat) : list CanvasOp :=
  match drawFrame 100 (number_of_Z 800) (number_of_Z 480)
          (WaveCanvasProps.obstacleSize props0) (val (WaveCanvasProps.metrics props0))
          (number_of_Z (Z.of_nat k)) with
  | Returned o => o
  | _ => []
  end.

(** A change event of one of the two range inputs, with the number its value
    reads as. *)
Inductive AppEvent : Set :=
| FreqChange (value : float)
| SizeChange (value : float).

Definition App_step (a : AppState) (e : AppEvent) : AppState :=
  match e with
  | FreqChange v => handleFreqChange v a
  | SizeChange v => handleSizeChange v a
  end.

Definition App_run (a : AppState) (es : list AppEvent) : AppState :=
  fold_left App_step es a.

(** The values the frequency slider, and the size slider, reported. *)
Definition freqValues (es : list AppEvent) : list float :=
  flat_map (fun e => match e with FreqChange v => [v] | SizeChange _ => [] end) es.

Definition sizeValues (es : list AppEvent) : list float :=
  flat_map (fun e => match e with SizeChange v => [v] | FreqChange _ => [] end) es.

(** The class of the ratio's figure:
    [metrics.ratio > 1 ? 'text-red-400' : 'text-green-400']. *)
Definition ratioClass (metrics : AcousticMetrics) : string :=
  if 1 <? ratio metrics then "text-red-400" else "text-green-400".

(** The classes of the feedback banner, chosen by [metrics.behavior]. *)
Definition bannerClass (metrics : AcousticMetrics) : string :=
  match behavior metrics with
  | REFLECTING => "bg-red-900/10 border-red-800/30 text-red-200"
  | DIFFRACTING => "bg-green-900/10 border-green-800/30 text-green-200"
  | TRANSITIONAL => "bg-yellow-900/10 border-yellow-800/30 text-yellow-200"
  end.

(** A value a range input with the slider's [min] and [max] can report. *)
Definition inRange (e : AppEvent) : bool :=
  match e with
  | FreqChange v => (50 <=? v) && (v <=? 2000)
  | SizeChange v => (0.1 <=? v) && (v <=? 5)
  end.

(** ** components/GeminiAssistant.tsx: the analysis button *)

Module GeminiAssistant.

(** The three [useState] cells. *)
Record State : Set := {
  explanation : option string;
  loading : bool;
  error : option string
}.

Definition initialState : State :=
  {| explanation := None; loading := false; error := None |}.

(** What [handleAnalyze] does to the world beside its state: the request to
    the service, the line on the console, and, where it awaits, the render
    React commits with the state updates made so far. *)
Inductive Effect : Set :=
| Request (apiKey model contents : string)
| ConsoleError (label message : string)
| Commit (s : State).

Record Store : Set := { state : State; trace : list Effect }.

(** A statement completes normally or throws an [Error] with a message. *)
Inductive Completion (A : Type) : Type :=
| Normal (a : A)
| Throw (message : string).
Arguments Normal {A} a.
Arguments Throw {A} message.

Definition M (A : Type) : Type := Store -> Store * Completion A.

Definition ret {A} (a : A) : M A := fun s => (s, Normal a).

Definition bind {A B} (m : M A) (f : A -> M B) : M B :=
  fun s =>
    match m s with
    | (s1, Normal a) => f a s1
    | (s1, Throw e) => (s1, Throw e)
    end.

Definition throw {A} (message : string) : M A := fun s => (s, Throw message).

(** [try { body } catch (err) { handler } finally { final }]: [final] runs
    however the rest completes, and a throw of the handler survives a
    [final] that completes normally. *)
Definition try_catch_finally (body : M unit) (handler : string -> M unit)
    (final : M unit) : M unit :=
  fun s =>
    match body s with
    | (s1, Normal _) => final s1
    | (s1, Throw e) =>
        match handler e s1 with
        | (s2, Normal _) => final s2
        | (s2, Throw e') =>
            match final s2 with
            | (s3, Normal _) => (s3, Throw e')
            | (s3, Throw e'') => (s3, Throw e'')
            end
        end
    end.

Definition effect (e : Effect) : M unit :=
  fun s => ({| state := state s; trace := trace s ++ [e] |}, Normal tt).

Definition modify (f : State -> State) : M unit :=
  fun s => ({| state := f (state s); trace := trace s |}, Normal tt).

Definition setExplanation (v : option string) : M unit :=
  modify (fun st => {| explanation := v; loading := loading st; error := error st |}).

Definition setLoading (v : bool) : M unit :=
  modify (fun st => {| explanation := explanation st; loading := v; error := error st |}).

Definition setError (v : option string) : M unit :=
  modify (fun st => {| explanation := explanation st; loading := loading st; error := v |}).

(** A string, [null] or [undefined] as a condition: false when absent or
    empty. *)
Definition truthy (v : option string) : bool :=
  match v with
  | Some s => negb (String.eqb s "")
  | None => false
  end.

(** [v || d] *)
Definition or_else (v : option string) (d : string) : string :=
  match v with
  | Some s => if String.eqb s "" then d else s
  | None => d
  end.

(** How the promise of [ai.models.generateContent] settles: with a response,
    whose [text] may be undefined, or with a rejection. *)
Inductive Settled : Set :=
| Fulfilled (text : option string)
| Rejected (reason : string).

(** [await ai.models.generateContent({ model, contents })]: the request
    leaves, the handler yields and React renders the updates made so far;
    the function resumes with the response or with the rejection thrown. *)
Definition generateContent (apiKey model contents : string) (settled : Settled)
    : M (option string) :=
  bind (effect (Request apiKey model contents)) (fun _ =>
  bind (fun s => effect (Commit (state s)) s) (fun _ =>
  match settled with
  | Fulfilled text => ret text
  | Rejected reason => throw reason
  end)).

Definition handleAnalyze (API_KEY : option string) (prompt : string) (settled : Settled)
    : M unit :=
  bind (setLoading true) (fun _ =>
  bind (setError None) (fun _ =>
  try_catch_finally
    (bind (if negb (truthy API_KEY) then throw "API Key fehlt." else ret tt) (fun _ =>
     bind (generateContent (or_else API_KEY "") "gemini-2.5-flash" prompt settled)
       (fun text =>
     setExplanation (Some (or_else text "Keine Antwort erhalten.")))))
    (fun err =>
       bind (effect (ConsoleError "Gemini Error:" err)) (fun _ =>
       setError (Some "Dienst nicht verfügbar.")))
    (setLoading false))).

(** One use of the button: the environment's key, the prompt built from the
    props and how the service answers. *)
Record Click : Set := { API_KEY : option string; prompt : string; settled : Settled }.

(** [onClick={handleAnalyze}] on a button that is [disabled={loading}]. *)
Definition onClick (st : State) (c : Click) : State :=
  if loading st then st
  else state (fst (handleAnalyze (API_KEY c) (prompt c) (settled c)
                     {| state := st; trace := [] |})).

Definition session (cs : list Click) : State := fold_left onClick cs initialState.

(** [{explanation ? "Neu laden" : "Analysieren"}] *)
Definition buttonLabel (st : State) : string :=
  if truthy (explanation st) then "Neu laden" else "Analysieren".

End GeminiAssistant.

(** ** Reflected wavefronts, call by call *)





(** The largest finite number, [Number.MAX_VALUE]. *)
Definition MAX_VALUE : float := 0x1.fffffffffffffp+1023.

(** * Properties *)

(** ** Binary64 comparisons, read off [SFcompare] *)

Ltac sfred := cbv beta iota delta [SFltb SFleb SFeqb SFcompare].

Lemma SFcompare_refl x : x <> S754_nan -> SFcompare x x = Some Eq.
Proof.
  destruct x as [[|]|[|]| |[|] m e]; sfred; intros H; try reflexivity; try congruence.
  - rewrite Z.compare_refl, Pos.compare_cont_refl. reflexivity.
  - rewrite Z.compare_refl, Pos.compare_cont_refl. reflexivity.
Qed.

Lemma is_nan_spec x : is_nan x = SFis_nan (Prim2SF x).
Proof.
  unfold is_nan, SFis_nan. rewrite FloatAxioms.eqb_spec. unfold SFeqb.
  destruct (Prim2SF x) eqn:E; try (rewrite SFcompare_refl by discriminate; reflexivity).
  reflexivity.
Qed.

Lemma Prim2SF_0 : Prim2SF 0 = S754_zero false.
Proof. vm_compute; reflexivity. Qed.

Lemma Prim2SF_1 : Prim2SF 1 = S754_finite false 4503599627370496 (-52).
Proof. vm_compute; reflexivity. Qed.

Lemma get_sign_spec x : get_sign x = SFsign (Prim2SF x).
Proof.
  unfold get_sign, is_zero, zero, one. rewrite FloatAxioms.eqb_spec, Prim2SF_0.
  destruct (Prim2SF x) as [[|]|[|]| |[|] m e] eqn:E; sfred;
    rewrite ltb_spec, ?div_spec, ?Prim2SF_1, Prim2SF_0, E; reflexivity.
Qed.

Lemma compare_cont_Eq_antisym m m' :
  Pos.compare_cont Eq m' m = CompOpp (Pos.compare_cont Eq m m').
Proof. symmetry. apply (Pos.compare_cont_antisym m m' Eq). Qed.

Lemma SFcompare_antisym x y :
  SFcompare y x = option_map CompOpp (SFcompare x y).
Proof.
  destruct x as [[|]|[|]| |[|] m e], y as [[|]|[|]| |[|] m' e']; sfred; try reflexivity;
    rewrite (Z.compare_antisym e e'), (compare_cont_Eq_antisym m m');
    destruct (e ?= e')%Z; cbn; try reflexivity;
    destruct (Pos.compare_cont Eq m m'); reflexivity.
Qed.

Lemma SFcompare_Eq x y :
  SFcompare x y = Some Eq ->
  x = y \/ (exists s s', x = S754_zero s /\ y = S754_zero s').
Proof.
  destruct x as [[|]|[|]| |[|] m e], y as [[|]|[|]| |[|] m' e']; sfred;
    intros H; try discriminate; try (left; reflexivity); try (right; eauto; fail);
    destruct (Z.compare_spec e e'); try discriminate; subst;
    destruct (Pos.compare_cont Eq m m') eqn:C; try discriminate;
    left; f_equal; apply Pos.compare_eq; exact C.
Qed.

Lemma Prim2SF_nan : Prim2SF nan = S754_nan.
Proof. vm_compute; reflexivity. Qed.

Lemma SFcompare_None x y :
  SFcompare x y = None <-> x = S754_nan \/ y = S754_nan.
Proof.
  destruct x as [[|]|[|]| |[|] m e], y as [[|]|[|]| |[|] m' e']; sfred;
    split; intros H; try discriminate; auto; destruct H; discriminate.
Qed.

Lemma SFcompare_Some_not_nan x y c :
  SFcompare x y = Some c -> SFis_nan x = false /\ SFis_nan y = false.
Proof.
  intros C. destruct x, y; try discriminate; split; reflexivity.
Qed.

Lemma Math_max_spec x y : Prim2SF (Math_max x y) = SFmax (Prim2SF x) (Prim2SF y).
Proof.
  unfold Math_max, SFmax.
  rewrite !is_nan_spec, !ltb_spec, get_sign_spec. unfold SFltb.
  rewrite (SFcompare_antisym (Prim2SF x) (Prim2SF y)).
  destruct (SFcompare (Prim2SF x) (Prim2SF y)) as [c|] eqn:C.
  - destruct (SFcompare_Some_not_nan _ _ _ C) as (-> & ->).
    destruct c; cbn; try reflexivity.
    destruct (SFsign (Prim2SF x)); reflexivity.
  - apply SFcompare_None in C.
    destruct C as [C|C]; rewrite C; cbn; rewrite ?orb_true_r; apply Prim2SF_nan.
Qed.

Lemma Math_min_spec x y : Prim2SF (Math_min x y) = SFmin (Prim2SF x) (Prim2SF y).
Proof.
  unfold Math_min, SFmin.
  rewrite !is_nan_spec, !ltb_spec, get_sign_spec. unfold SFltb.
  rewrite (SFcompare_antisym (Prim2SF x) (Prim2SF y)).
  destruct (SFcompare (Prim2SF x) (Prim2SF y)) as [c|] eqn:C.
  - destruct (SFcompare_Some_not_nan _ _ _ C) as (-> & ->).
    destruct c; cbn; try reflexivity.
    destruct (SFsign (Prim2SF x)); reflexivity.
  - apply SFcompare_None in C.
    destruct C as [C|C]; rewrite C; cbn; rewrite ?orb_true_r; apply Prim2SF_nan.
Qed.

Lemma SFcompare_one_zero : SFcompare (Prim2SF 1) (Prim2SF 0) = Some Gt.
Proof. rewrite Prim2SF_0, Prim2SF_1. reflexivity. Qed.

(** [Math.max(0, Math.min(1, x))] is [clamp(x, 0, 1)], for every number. *)
Lemma max_min_is_clamp x : Math_max 0 (Math_min 1 x) = clamp x 0 1.
Proof.
  unfold clamp. apply Prim2SF_inj.
  rewrite !Math_max_spec, !Math_min_spec, !Math_max_spec.
  rewrite Prim2SF_0, Prim2SF_1.
  set (one := S754_finite false 4503599627370496 (-52)).
  unfold SFmax at 2, SFmin at 1.
  rewrite (SFcompare_antisym (Prim2SF x) one).
  assert (Z0 : SFcompare (S754_zero false) one = Some Lt) by reflexivity.
  assert (Z1 : SFcompare one (S754_zero false) = Some Gt) by reflexivity.
  destruct (Prim2SF x) as [[|]|[|]| |[|] m e] eqn:E; try reflexivity.
  - (* positive finite *)
    assert (P0 : SFcompare (S754_finite false m e) (S754_zero false) = Some Gt) by reflexivity.
    assert (P1 : SFcompare (S754_zero false) (S754_finite false m e) = Some Lt) by reflexivity.
    rewrite P0. cbn [SFsign].
    destruct (SFcompare (S754_finite false m e) one) as [[| |]|] eqn:C; cbn [option_map CompOpp].
    + destruct (SFcompare_Eq _ _ C) as [->|(s & s' & H & _)]; [|discriminate].
      reflexivity.
    + unfold SFmax, SFmin. rewrite P1, C. reflexivity.
    + unfold SFmax, SFmin. rewrite Z0, C. reflexivity.
    + unfold SFmax, SFmin. rewrite C. reflexivity.
Qed.

Section Binary64_facts.
Local Open Scope Z_scope.

(** * Binary64 arithmetic: what the rounding functions of [SpecFloat] compute *)

Lemma pow2_pos e : (0 < pow2 e)%R.
Proof. apply powerRZ_lt. lra. Qed.

Lemma pow2_add a b : pow2 (a + b) = (pow2 a * pow2 b)%R.
Proof. apply powerRZ_add. lra. Qed.

Lemma pow2_0 : pow2 0 = 1%R.
Proof. reflexivity. Qed.

Lemma pow2_1 : pow2 1 = 2%R.
Proof. unfold pow2. simpl. lra. Qed.

Lemma pow2_opp e : pow2 (- e) = (/ pow2 e)%R.
Proof. apply powerRZ_neg'. Qed.

Lemma pow2_succ e : pow2 (e + 1) = (2 * pow2 e)%R.
Proof. rewrite pow2_add, pow2_1. lra. Qed.

Lemma pow2_sub a b : pow2 (a - b) = (pow2 a / pow2 b)%R.
Proof. unfold Z.sub. rewrite pow2_add, pow2_opp. reflexivity. Qed.

Lemma pow2_le a b : a <= b -> (pow2 a <= pow2 b)%R.
Proof.
  intros H. replace b with (a + (b - a)) by lia.
  rewrite pow2_add.
  assert (1 <= pow2 (b - a))%R.
  { assert (Hn : 0 <= b - a) by lia. revert Hn. generalize (b - a). intros n Hn.
    pattern n. apply natlike_ind; [rewrite pow2_0; lra | | exact Hn].
    intros x Hx IH. unfold Z.succ. rewrite pow2_succ. lra. }
  pose proof (pow2_pos a). nra.
Qed.

Lemma pow2_lt a b : a < b -> (pow2 a < pow2 b)%R.
Proof.
  intros H. assert (pow2 (a + 1) <= pow2 b)%R by (apply pow2_le; lia).
  rewrite pow2_succ in H0. pose proof (pow2_pos a). lra.
Qed.

Lemma pow2_lt_inv a b : (pow2 a < pow2 b)%R -> a < b.
Proof.
  intros H. destruct (Z_lt_le_dec a b) as [|Hle]; [assumption|].
  apply pow2_le in Hle. lra.
Qed.

Lemma pow2_IZR n : 0 <= n -> pow2 n = IZR (2 ^ n).
Proof.
  intros Hn. pattern n. apply natlike_ind; [reflexivity | | exact Hn].
  intros x Hx IH. unfold Z.succ. rewrite pow2_succ, IH, Z.pow_add_r, mult_IZR by lia.
  change (2 ^ 1) with 2. lra.
Qed.

(** ** Number of binary digits *)

Lemma digits2_size p : digits2_pos p = Pos.size p.
Proof. induction p; simpl; congruence. Qed.

Lemma digits2_bounds p :
  2 ^ (Zpos (digits2_pos p) - 1) <= Zpos p < 2 ^ Zpos (digits2_pos p).
Proof.
  rewrite digits2_size. split.
  - pose proof (Pos.size_le p) as H.
    assert (Hz : (2 ^ Zpos (Pos.size p) <= 2 * Zpos p)) .
    { change (2 * Zpos p) with (Zpos p~0). rewrite <- Pos2Z.inj_pow. apply Pos2Z.pos_le_pos. exact H. }
    replace (Zpos (Pos.size p)) with ((Zpos (Pos.size p) - 1) + 1) in Hz by lia.
    rewrite Z.pow_add_r in Hz by lia. change (2 ^ 1) with 2 in Hz. lia.
  - pose proof (Pos.size_gt p) as H.
    rewrite <- Pos2Z.inj_pow. apply Pos2Z.pos_lt_pos. exact H.
Qed.

Lemma digits2_unique p d :
  2 ^ (d - 1) <= Zpos p < 2 ^ d -> Zpos (digits2_pos p) = d.
Proof.
  intros (H1 & H2). pose proof (digits2_bounds p) as (B1 & B2).
  assert (0 < d).
  { destruct (Z_lt_le_dec 0 d) as [|Hd]; auto. exfalso.
    destruct (Z.eq_dec d 0) as [->|]; [simpl in H2; lia|].
    rewrite Z.pow_neg_r in H2 by lia. lia. }
  set (d' := Zpos (digits2_pos p)) in *.
  assert (0 < d') by (subst d'; lia).
  destruct (Z.lt_trichotomy d' d) as [L|[E|G]]; [|exact E|].
  - assert (2 ^ d' <= 2 ^ (d - 1)) by (apply Z.pow_le_mono_r; lia). lia.
  - assert (2 ^ d <= 2 ^ (d' - 1)) by (apply Z.pow_le_mono_r; lia). lia.
Qed.

(** ** Shifting right with a round bit and a sticky bit *)

Lemma located_bounds m r s w : located m r s w -> (IZR m <= w < IZR m + 1)%R.
Proof. destruct r, s; simpl; intros; lra. Qed.

Lemma shr_1_located mrs w : located_rec mrs w -> located_rec (shr_1 mrs) (w / 2).
Proof.
  destruct mrs as [m r s]. unfold located_rec. cbn [shr_m shr_r shr_s].
  intros (Hm & H).
  destruct m as [|p|p]; [| |lia].
  - destruct r, s; cbn [located shr_1 shr_m shr_r shr_s orb] in *; split; try lia; lra.
  - destruct p as [p|p|].
    + assert (E : IZR (Zpos p~1) = (2 * IZR (Zpos p) + 1)%R).
      { rewrite Pos2Z.inj_xI, plus_IZR, mult_IZR. reflexivity. }
      destruct r, s; cbn [located shr_1 shr_m shr_r shr_s orb] in *; rewrite E in H;
        split; try lia; lra.
    + assert (E : IZR (Zpos p~0) = (2 * IZR (Zpos p))%R).
      { rewrite Pos2Z.inj_xO, mult_IZR. reflexivity. }
      destruct r, s; cbn [located shr_1 shr_m shr_r shr_s orb] in *; rewrite E in H;
        split; try lia; lra.
    + destruct r, s; cbn [located shr_1 shr_m shr_r shr_s orb] in *; split; try lia; lra.
Qed.

Lemma iter_pos_nat {A} (f : A -> A) p : forall x,
  iter_pos f p x = Nat.iter (Pos.to_nat p) f x.
Proof.
  induction p as [p IH|p IH|]; intros x; simpl iter_pos.
  - rewrite !IH. rewrite Pos2Nat.inj_xI.
    rewrite <- Nat.iter_add, <- Nat.iter_succ_r. f_equal. lia.
  - rewrite !IH. rewrite Pos2Nat.inj_xO.
    rewrite <- Nat.iter_add. f_equal. lia.
  - reflexivity.
Qed.

Lemma shr_iter_located n : forall mrs w,
  located_rec mrs w ->
  located_rec (Nat.iter n shr_1 mrs) (w / pow2 (Z.of_nat n)).
Proof.
  induction n as [|n IH]; intros mrs w H.
  - cbn [Nat.iter nat_rect]. change (Z.of_nat 0) with 0. rewrite pow2_0.
    replace (w / 1)%R with w by field. exact H.
  - rewrite Nat2Z.inj_succ. unfold Z.succ. rewrite pow2_succ. simpl Nat.iter.
    replace (w / (2 * pow2 (Z.of_nat n)))%R with (w / pow2 (Z.of_nat n) / 2)%R.
    + apply shr_1_located. apply IH. exact H.
    + pose proof (pow2_pos (Z.of_nat n)). field. lra.
Qed.

Lemma shr_located mrs e n w :
  located_rec mrs w ->
  snd (shr mrs e n) = e + Z.max n 0
  /\ located_rec (fst (shr mrs e n)) (w / pow2 (Z.max n 0)).
Proof.
  intros H. unfold shr. destruct n as [|p|p]; cbn [fst snd].
  - split; [lia|]. change (Z.max 0 0) with 0. rewrite pow2_0.
    replace (w / 1)%R with w by field. exact H.
  - split; [lia|]. rewrite iter_pos_nat.
    replace (Z.max (Zpos p) 0) with (Z.of_nat (Pos.to_nat p)) by lia.
    apply shr_iter_located. exact H.
  - split; [lia|]. replace (Z.max (Zneg p) 0) with 0 by lia.
    rewrite pow2_0. replace (w / 1)%R with w by field. exact H.
Qed.

Lemma located_of_loc m l :
  shr_m (shr_record_of_loc m l) = m.
Proof. destruct l as [|[| |]]; reflexivity. Qed.

(** ** Rounding to nearest, ties to even *)

Lemma round_nearest_even_NE mrs w :
  located_rec mrs w ->
  let m := round_nearest_even (shr_m mrs) (loc_of_shr_record mrs) in
  NE w m /\ shr_m mrs <= m <= shr_m mrs + 1.
Proof.
  destruct mrs as [m r s]. unfold located_rec. cbn [shr_m shr_r shr_s].
  intros (Hm & H). cbv zeta.
  destruct r, s; cbn [loc_of_shr_record round_nearest_even located] in *.
  - split; [|lia]. left. rewrite plus_IZR. lra.
  - destruct (Z.even m) eqn:E.
    + split; [|lia]. right. split; [right; exact H | exact E].
    + split; [|lia]. right. rewrite plus_IZR. split; [left; lra|].
      rewrite Z.even_add, E. reflexivity.
  - split; [|lia]. left. lra.
  - split; [|lia]. left. lra.
Qed.

Lemma NE_monotone w1 w2 m1 m2 :
  (w1 <= w2)%R -> NE w1 m1 -> NE w2 m2 -> m1 <= m2.
Proof.
  intros Hw H1 H2.
  destruct (Z_le_gt_dec m1 m2) as [|Hgt]; [assumption|exfalso].
  assert (Hge : (IZR m2 + 1 <= IZR m1)%R).
  { rewrite <- plus_IZR. apply IZR_le. lia. }
  destruct H1 as [H1|[[H1|H1] E1]], H2 as [H2|[[H2|H2] E2]]; try lra.
  assert (IZR m1 = IZR m2 + 1)%R by lra.
  assert (m1 = m2 + 1). { apply eq_IZR. rewrite plus_IZR. lra. }
  subst m1. rewrite Z.even_add, E2 in E1. discriminate.
Qed.

Lemma NE_integer k m : NE (IZR k) m -> m = k.
Proof.
  intros [H|[[H|H] _]].
  - destruct H as (H1 & H2).
    assert (IZR (m - 1) < IZR k)%R by (rewrite minus_IZR; lra).
    assert (IZR k < IZR (m + 1))%R by (rewrite plus_IZR; lra).
    apply lt_IZR in H, H0. lia.
  - exfalso. assert (IZR (2 * k) = IZR (2 * m - 1))%R.
    { rewrite minus_IZR, !mult_IZR. lra. }
    apply eq_IZR in H0. lia.
  - exfalso. assert (IZR (2 * k) = IZR (2 * m + 1))%R.
    { rewrite plus_IZR, !mult_IZR. lra. }
    apply eq_IZR in H0. lia.
Qed.

(** ** The format: canonical exponent and the float a rounded mantissa makes *)

Lemma fexp64_eq g : fexp64 g = Z.max (g - 53) (-1074).
Proof. reflexivity. Qed.

Lemma fexp64_mono g g' : g <= g' -> fexp64 g <= fexp64 g'.
Proof. rewrite !fexp64_eq. lia. Qed.

Lemma mag_unique v g g' : mag v g -> mag v g' -> g = g'.
Proof.
  intros (A1 & A2) (B1 & B2).
  assert (g - 1 < g') by (apply pow2_lt_inv; lra).
  assert (g' - 1 < g) by (apply pow2_lt_inv; lra).
  lia.
Qed.

Lemma mag_le v v' g g' : (v <= v')%R -> mag v g -> mag v' g' -> g <= g'.
Proof.
  intros Hv (A1 & A2) (B1 & B2).
  assert (g - 1 < g') by (apply pow2_lt_inv; lra). lia.
Qed.

Lemma Zdigits2_mag mx w :
  0 < mx -> (IZR mx <= w < IZR mx + 1)%R -> mag w (Zdigits2 mx).
Proof.
  intros Hm (H1 & H2). destruct mx as [|p|p]; try lia. cbn [Zdigits2].
  pose proof (digits2_bounds p) as (B1 & B2).
  set (d := Zpos (digits2_pos p)) in *.
  assert (0 < d) by (subst d; lia).
  unfold mag. rewrite !pow2_IZR by lia. split.
  - apply IZR_le in B1. lra.
  - assert (Zpos p + 1 <= 2 ^ d) by lia. apply IZR_le in H0. rewrite plus_IZR in H0. lra.
Qed.

Lemma mag_scale v g e : mag v g -> mag (v / pow2 e) (g - e).
Proof.
  intros (H1 & H2). unfold mag.
  replace (g - e - 1) with ((g - 1) - e) by lia.
  rewrite (pow2_sub (g - 1) e), (pow2_sub g e). pose proof (pow2_pos e) as He.
  split.
  - apply Rmult_le_compat_r; [left; apply Rinv_0_lt_compat; exact He | exact H1].
  - apply Rmult_lt_compat_r; [apply Rinv_0_lt_compat; exact He | exact H2].
Qed.

Lemma shr_noop mrs e n : n <= 0 -> shr mrs e n = (mrs, e).
Proof. destruct n; try reflexivity. lia. Qed.

Lemma binary_round_aux_Rnd s mx ex lx v g :
  0 <= mx -> mag v g ->
  located_rec (shr_record_of_loc mx lx) (v / pow2 ex) ->
  ex <= fexp64 g ->
  Rnd s v (binary_round_aux prec emax s mx ex lx).
Proof.
  intros Hmx Hg Hloc Hex.
  set (w := (v / pow2 ex)%R) in *.
  assert (Hw : (IZR mx <= w < IZR mx + 1)%R).
  { destruct Hloc as (_ & Hl). rewrite located_of_loc in Hl.
    apply located_bounds in Hl. exact Hl. }
  assert (Hgw : mag w (g - ex)) by (apply mag_scale; exact Hg).
  (* the first shift brings the exponent to [fexp64 g] *)
  assert (Hn : fexp64 (Zdigits2 mx + ex) = fexp64 g).
  { destruct (Z.eq_dec mx 0) as [->|Hnz].
    - cbn [Zdigits2 Z.add]. destruct Hgw as (G1 & G2).
      assert (g - ex - 1 < 0).
      { apply pow2_lt_inv. rewrite pow2_0. lra. }
      rewrite fexp64_eq in Hex. rewrite !fexp64_eq. lia.
    - assert (Hd : mag w (Zdigits2 mx)) by (apply Zdigits2_mag; [lia | exact Hw]).
      rewrite (mag_unique _ _ _ Hd Hgw). f_equal. lia. }
  unfold binary_round_aux, shr_fexp. rewrite Hn.
  set (e1 := fexp64 g) in *.
  destruct (shr_located (shr_record_of_loc mx lx) ex (e1 - ex) w Hloc) as (S1 & S2).
  destruct (shr (shr_record_of_loc mx lx) ex (e1 - ex)) as [mrs1 e1'] eqn:E1.
  cbn [fst snd] in S1, S2.
  assert (He1' : e1' = e1) by lia. clear S1. subst e1'.
  replace (Z.max (e1 - ex) 0) with (e1 - ex) in S2 by lia.
  assert (Hw1 : (w / pow2 (e1 - ex) = v / pow2 e1)%R).
  { subst w. rewrite pow2_sub. pose proof (pow2_pos e1). pose proof (pow2_pos ex).
    field. split; lra. }
  rewrite Hw1 in S2.
  destruct (round_nearest_even_NE mrs1 _ S2) as (HNE & Hm2).
  set (m2 := round_nearest_even (shr_m mrs1) (loc_of_shr_record mrs1)) in *.
  destruct S2 as (Hm1 & Hl1). apply located_bounds in Hl1.
  assert (Hg1 : mag (v / pow2 e1) (g - e1)) by (apply mag_scale; exact Hg).
  assert (He1 : g - 53 <= e1 /\ -1074 <= e1) by (subst e1; rewrite fexp64_eq; lia).
  assert (Hm2' : 0 <= m2 <= 2 ^ 53).
  { split; [lia|]. destruct Hg1 as (_ & G2).
    assert (P53 : (pow2 (g - e1) <= pow2 53)%R) by (apply pow2_le; lia).
    rewrite (pow2_IZR 53) in P53 by lia.
    assert (Hlt : (IZR (shr_m mrs1) < IZR (2 ^ 53))%R) by lra.
    apply lt_IZR in Hlt. lia. }
  exists g, m2. split; [exact Hg|]. split; [exact HNE|].
  fold e1.
  destruct m2 as [|p|p] eqn:Em2; [| |lia].
  - (* the mantissa rounded to zero *)
    cbn [Zdigits2 Z.add]. rewrite shr_noop by (rewrite fexp64_eq; lia).
    reflexivity.
  - destruct (Z.eqb_spec (Zpos p) (2 ^ 53)) as [E|NE53].
    + (* rounded up to 2^53: one more shift *)
      inversion E; subst p.
      unfold float_of. rewrite Z.eqb_refl.
      replace (fexp64 (Zdigits2 (Zpos 9007199254740992) + e1) - e1) with 1
        by (cbn [Zdigits2]; rewrite fexp64_eq; change (Zpos (digits2_pos 9007199254740992)) with 54; lia).
      reflexivity.
    + assert (Hd2 : Zpos (digits2_pos p) <= 53).
      { pose proof (digits2_bounds p) as (B1 & _).
        destruct (Z_le_gt_dec (Zpos (digits2_pos p)) 53); [assumption|exfalso].
        assert (2 ^ 53 <= 2 ^ (Zpos (digits2_pos p) - 1)) by (apply Z.pow_le_mono_r; lia).
        lia. }
      cbn [Zdigits2]. rewrite shr_noop by (rewrite fexp64_eq; lia).
      unfold float_of. destruct (Z.eqb_spec (Zpos p) (2 ^ 53)); [contradiction|].
      reflexivity.
Qed.

(** ** Order of the floats of one sign *)

Lemma SFleb_finite_pos p1 e1 p2 e2 :
  SFleb (S754_finite false p1 e1) (S754_finite false p2 e2) = true
  <-> (e1 < e2 \/ (e1 = e2 /\ Zpos p1 <= Zpos p2)).
Proof.
  cbv beta iota delta [SFleb SFcompare].
  destruct (Z.compare_spec e1 e2) as [E|L|G].
  - subst. change (Pos.compare_cont Eq p1 p2) with (Pos.compare p1 p2).
    destruct (Pos.compare_spec p1 p2) as [E|L|G]; split; intros H; try lia; try discriminate;
      try reflexivity.
  - split; intros; [lia | reflexivity].
  - split; intros H; [discriminate | lia].
Qed.

Lemma SFleb_finite_neg p1 e1 p2 e2 :
  SFleb (S754_finite true p2 e2) (S754_finite true p1 e1) = true
  <-> (e1 < e2 \/ (e1 = e2 /\ Zpos p1 <= Zpos p2)).
Proof.
  cbv beta iota delta [SFleb SFcompare].
  destruct (Z.compare_spec e2 e1) as [E|L|G].
  - subst. change (Pos.compare_cont Eq p2 p1) with (Pos.compare p2 p1).
    destruct (Pos.compare_spec p2 p1) as [E|L|G]; cbn [CompOpp]; split; intros H;
      try lia; try discriminate; try reflexivity.
  - split; intros H; [discriminate | lia].
  - split; intros; [lia | reflexivity].
Qed.

Lemma float_of_le (s : bool) m1 e1 m2 e2 :
  0 <= m1 <= 2 ^ 53 -> 0 <= m2 <= 2 ^ 53 ->
  (e1 = e2 /\ m1 <= m2) \/ (e1 < e2 /\ 2 ^ 52 <= m2) ->
  (if s then SFleb (float_of s m2 e2) (float_of s m1 e1)
   else SFleb (float_of s m1 e1) (float_of s m2 e2)) = true.
Proof.
  intros H1 H2 H.
  assert (P52 : (2 ^ 52 = 4503599627370496)) by reflexivity.
  assert (P53 : (2 ^ 53 = 9007199254740992)) by reflexivity.
  unfold float_of.
  destruct m1 as [|p1|p1]; [| |lia]; (destruct m2 as [|p2|p2]; [| |lia]).
  - destruct s; reflexivity.
  - destruct s;
      destruct (Zpos p2 =? 2 ^ 53); destruct (e2 + 1 <=? 971); destruct (e2 <=? 971);
      reflexivity.
  - exfalso. lia.
  - destruct (Z.eqb_spec (Zpos p1) (2 ^ 53)) as [E1|N1];
      destruct (Z.eqb_spec (Zpos p2) (2 ^ 53)) as [E2|N2];
      destruct (Z.leb_spec (e1 + 1) 971); destruct (Z.leb_spec e1 971);
      destruct (Z.leb_spec (e2 + 1) 971); destruct (Z.leb_spec e2 971);
      try lia; destruct s; try reflexivity;
      try (apply SFleb_finite_pos; change (Zpos (2 ^ 52)) with (2 ^ 52); lia);
      try (apply SFleb_finite_neg; change (Zpos (2 ^ 52)) with (2 ^ 52); lia).
Qed.

(** What a rounded mantissa can be. *)
Lemma Rnd_mantissa v g m :
  (0 < v)%R -> mag v g -> NE (v / pow2 (fexp64 g)) m ->
  0 <= m <= 2 ^ 53 /\ (-1074 < fexp64 g -> 2 ^ 52 <= m).
Proof.
  intros Hv Hg HNE.
  pose proof (mag_scale v g (fexp64 g) Hg) as (G1 & G2).
  set (w := (v / pow2 (fexp64 g))%R) in *.
  assert (Hw : (0 < w)%R).
  { subst w. apply Rmult_lt_0_compat; [exact Hv | apply Rinv_0_lt_compat, pow2_pos]. }
  assert (P53 : (pow2 (g - fexp64 g) <= pow2 53)%R) by (apply pow2_le; rewrite fexp64_eq; lia).
  rewrite (pow2_IZR 53) in P53 by lia.
  assert (Hlo : (IZR m - / 2 <= w <= IZR m + / 2)%R).
  { destruct HNE as [H|[[H|H] _]]; lra. }
  split; [split|].
  - assert (IZR (-1) < IZR m)%R by (simpl; lra). apply lt_IZR in H. lia.
  - assert (IZR m < IZR (2 ^ 53 + 1))%R by (rewrite plus_IZR; lra).
    apply lt_IZR in H. lia.
  - intros He. rewrite fexp64_eq in He.
    assert (E : g - fexp64 g - 1 = 52) by (rewrite fexp64_eq; lia).
    rewrite E, (pow2_IZR 52) in G1 by lia.
    assert (IZR (2 ^ 52 - 1) < IZR m)%R by (rewrite minus_IZR; lra).
    apply lt_IZR in H. lia.
Qed.

(** Rounding is monotone. *)
Lemma Rnd_monotone (s : bool) v1 v2 z1 z2 :
  (0 < v1 <= v2)%R -> Rnd s v1 z1 -> Rnd s v2 z2 ->
  (if s then SFleb z2 z1 else SFleb z1 z2) = true.
Proof.
  intros (Hv1 & Hv) (g1 & m1 & G1 & N1 & ->) (g2 & m2 & G2 & N2 & ->).
  assert (Hv2 : (0 < v2)%R) by lra.
  destruct (Rnd_mantissa v1 g1 m1 Hv1 G1 N1) as (M1 & M1').
  destruct (Rnd_mantissa v2 g2 m2 Hv2 G2 N2) as (M2 & M2').
  pose proof (mag_le _ _ _ _ Hv G1 G2) as Hg.
  pose proof (fexp64_mono _ _ Hg) as He.
  apply (float_of_le s m1 (fexp64 g1) m2 (fexp64 g2)); try assumption.
  destruct (Z.eq_dec (fexp64 g1) (fexp64 g2)) as [E|NE'].
  all: try (left; split; [exact E|]; rewrite E in N1;
    apply (NE_monotone (v1 / pow2 (fexp64 g2)) (v2 / pow2 (fexp64 g2))); try assumption;
    apply Rmult_le_compat_r; [left; apply Rinv_0_lt_compat, pow2_pos | exact Hv]).
  all: right; split; [lia|]; apply M2'; rewrite (fexp64_eq g1) in *; lia.
Qed.

(** ** The real number a finite float stands for *)

Lemma mag_shift w g k : mag w g -> mag (w * pow2 k) (g + k).
Proof.
  intros (H1 & H2). unfold mag.
  replace (g + k - 1) with ((g - 1) + k) by lia.
  rewrite (pow2_add (g - 1) k), (pow2_add g k). pose proof (pow2_pos k) as Hk.
  split.
  - apply Rmult_le_compat_r; [lra | exact H1].
  - apply Rmult_lt_compat_r; [exact Hk | exact H2].
Qed.

Lemma mag_mantissa m e :
  mag (IZR (Zpos m) * pow2 e) (Zpos (digits2_pos m) + e).
Proof.
  apply mag_shift. apply (Zdigits2_mag (Zpos m)); [lia|]. lra.
Qed.

(** The mantissa and exponent of a valid float are canonical. *)
Lemma bounded_canonical m e :
  bounded prec emax m e = true ->
  fexp64 (Zpos (digits2_pos m) + e) = e /\ -1074 <= e <= 971
  /\ Zpos m < 2 ^ 53 /\ (-1074 < e -> 2 ^ 52 <= Zpos m).
Proof.
  unfold bounded, canonical_mantissa. rewrite andb_true_iff.
  intros (H1 & H2). apply Z.eqb_eq in H1. apply Z.leb_le in H2.
  change (emax - prec) with 971 in H2.
  pose proof (digits2_bounds m) as (B1 & B2).
  set (d := Zpos (digits2_pos m)) in *.
  rewrite fexp64_eq in H1.
  split; [rewrite fexp64_eq; exact H1|]. split; [lia|]. split.
  - assert (d <= 53) by lia.
    assert (2 ^ d <= 2 ^ 53) by (apply Z.pow_le_mono_r; lia). lia.
  - intros He. assert (d = 53) by lia. rewrite H in B1. exact B1.
Qed.

(** ** Aligning mantissas and rounding an exact value *)

Lemma Pos_iter_xO m d : Zpos (Pos.iter xO m d) = Zpos m * 2 ^ Zpos d.
Proof.
  induction d as [|d IH] using Pos.peano_ind.
  - simpl. lia.
  - rewrite Pos.iter_succ, Pos2Z.inj_xO, IH, Pos2Z.inj_succ.
    unfold Z.succ. rewrite Z.pow_add_r by lia. change (2 ^ 1) with 2. lia.
Qed.

Lemma shl_align_spec m e e' :
  let '(m', e'') := shl_align m e e' in
  e'' = Z.min e e' /\ Zpos m' = Zpos m * 2 ^ (e - e'').
Proof.
  unfold shl_align. destruct (e' - e) as [|d|d] eqn:E.
  - split; [lia|]. replace (e - e) with 0 by lia. simpl. lia.
  - split; [lia|]. replace (e - e) with 0 by lia. simpl. lia.
  - split; [lia|]. rewrite Pos_iter_xO. f_equal. f_equal. lia.
Qed.

Lemma IZR_shift m k : 0 <= k -> IZR (m * 2 ^ k) = (IZR m * pow2 k)%R.
Proof. intros Hk. rewrite mult_IZR, pow2_IZR by exact Hk. reflexivity. Qed.

Lemma binary_round_Rnd s m e :
  Rnd s (IZR (Zpos m) * pow2 e) (binary_round prec emax s m e).
Proof.
  unfold binary_round.
  pose proof (shl_align_spec m e (fexp64 (Zpos (digits2_pos m) + e))) as H.
  destruct (shl_align m e _) as [mz ez]. destruct H as (He & Hm).
  pose proof (mag_mantissa m e) as Hg.
  assert (Hv : (IZR (Zpos m) * pow2 e = IZR (Zpos mz) * pow2 ez)%R).
  { rewrite Hm, IZR_shift by lia. rewrite Rmult_assoc, <- pow2_add. f_equal. f_equal. lia. }
  apply binary_round_aux_Rnd with (g := Zpos (digits2_pos m) + e).
  - lia.
  - exact Hg.
  - split; [cbn; lia|]. cbn [shr_record_of_loc shr_m shr_r shr_s located].
    rewrite Hv. pose proof (pow2_pos ez). field. lra.
  - lia.
Qed.

Lemma binary_normalize_RND M e :
  RND (IZR M * pow2 e) (binary_normalize prec emax M e false).
Proof.
  pose proof (pow2_pos e) as He.
  destruct M as [|p|p]; cbn [binary_normalize].
  - left. split; [lra | reflexivity].
  - right; left. split.
    + apply Rmult_lt_0_compat; [apply IZR_lt; lia | exact He].
    + apply binary_round_Rnd.
  - right; right.
    assert (E : (- (IZR (Zneg p) * pow2 e) = IZR (Zpos p) * pow2 e)%R).
    { change (Zneg p) with (- Zpos p). rewrite opp_IZR. lra. }
    split.
    + assert (0 < IZR (Zpos p) * pow2 e)%R
        by (apply Rmult_lt_0_compat; [apply IZR_lt; lia | exact He]).
      lra.
    + rewrite E. apply binary_round_Rnd.
Qed.

Lemma aligned_value (s : bool) m e ez :
  ez <= e ->
  (IZR (cond_Zopp s (Zpos (fst (shl_align m e ez)))) * pow2 ez)%R
  = B2R (S754_finite s m e).
Proof.
  intros Hz. pose proof (shl_align_spec m e ez) as H.
  destruct (shl_align m e ez) as [m' e']. destruct H as (He & Hm). cbn [fst].
  assert (e' = ez) by lia. subst e'.
  assert (Hv : (IZR (Zpos m') * pow2 ez = IZR (Zpos m) * pow2 e)%R).
  { rewrite Hm, IZR_shift by lia. rewrite Rmult_assoc, <- pow2_add. f_equal. f_equal. lia. }
  destruct s; cbn [cond_Zopp B2R].
  - rewrite opp_IZR. lra.
  - exact Hv.
Qed.

Lemma SFsub_RND sx mx ex sy my ey :
  RND (B2R (S754_finite sx mx ex) - B2R (S754_finite sy my ey))
      (SF64sub (S754_finite sx mx ex) (S754_finite sy my ey)).
Proof.
  unfold SF64sub, SFsub.
  set (ez := Z.min ex ey).
  rewrite <- (aligned_value sx mx ex ez), <- (aligned_value sy my ey ez) by lia.
  rewrite <- Rmult_minus_distr_r, <- minus_IZR.
  apply binary_normalize_RND.
Qed.

Lemma SFadd_RND sx mx ex sy my ey :
  RND (B2R (S754_finite sx mx ex) + B2R (S754_finite sy my ey))
      (SF64add (S754_finite sx mx ex) (S754_finite sy my ey)).
Proof.
  unfold SF64add, SFadd.
  set (ez := Z.min ex ey).
  rewrite <- (aligned_value sx mx ex ez), <- (aligned_value sy my ey ez) by lia.
  rewrite <- Rmult_plus_distr_r, <- plus_IZR.
  apply binary_normalize_RND.
Qed.

(** ** Division *)

Lemma mag_ratio a b :
  exists g, mag (IZR (Zpos a) / IZR (Zpos b)) g
            /\ Zpos (digits2_pos a) - Zpos (digits2_pos b) <= g.
Proof.
  pose proof (digits2_bounds a) as (A1 & A2).
  pose proof (digits2_bounds b) as (B1 & B2).
  set (da := Zpos (digits2_pos a)) in *. set (db := Zpos (digits2_pos b)) in *.
  assert (0 < da /\ 0 < db) as (Hda & Hdb) by (subst da db; lia).
  apply IZR_le in A1, B1. apply IZR_lt in A2, B2.
  rewrite <- pow2_IZR in A1, A2, B1, B2 by lia.
  set (x := IZR (Zpos a)) in *. set (y := IZR (Zpos b)) in *.
  assert (Hy : (0 < y)%R) by (subst y; apply IZR_lt; lia).
  assert (Hx : (0 < x)%R) by (subst x; apply IZR_lt; lia).
  assert (Hq : forall k, (pow2 k * y <= x -> pow2 k <= x / y)%R).
  { intros k H. apply Rmult_le_reg_r with y; [exact Hy|].
    replace (x / y * y)%R with x by (field; lra). exact H. }
  assert (Hq' : forall k, (x < pow2 k * y -> x / y < pow2 k)%R).
  { intros k H. apply Rmult_lt_reg_r with y; [exact Hy|].
    replace (x / y * y)%R with x by (field; lra). exact H. }
  assert (P1 : (pow2 (da - db - 1) * pow2 db = pow2 (da - 1))%R)
    by (rewrite <- pow2_add; f_equal; lia).
  assert (P2 : (pow2 (da - db + 1) * pow2 (db - 1) = pow2 da)%R)
    by (rewrite <- pow2_add; f_equal; lia).
  pose proof (pow2_pos (da - db - 1)). pose proof (pow2_pos (da - db + 1)).
  destruct (Rlt_le_dec (x / y) (pow2 (da - db))) as [L|G].
  - exists (da - db). split; [|lia]. split; [|exact L].
    apply Hq. nra.
  - exists (da - db + 1). split; [|lia]. split.
    + replace (da - db + 1 - 1) with (da - db) by lia. exact G.
    + apply Hq'. nra.
Qed.

Lemma new_location_located q r my :
  0 < my -> 0 <= r < my -> 0 <= q ->
  located_rec (shr_record_of_loc q (new_location my r)) (IZR q + IZR r / IZR my).
Proof.
  intros Hmy Hr Hq.
  assert (Hy : (0 < IZR my)%R) by (apply IZR_lt; lia).
  set (t := (IZR r / IZR my)%R).
  assert (Ht : (t * IZR my = IZR r)%R) by (subst t; field; lra).
  split; [rewrite located_of_loc; exact Hq|].
  assert (Hexact : r = 0 -> located q false false (IZR q + t)).
  { intros E0. rewrite E0 in Ht. cbn [located]. nra. }
  assert (Hlt : r <> 0 -> 2 * r < my -> located q false true (IZR q + t)).
  { intros Hr0 L. assert (Hrp : (0 < IZR r)%R) by (apply IZR_lt; lia).
    apply IZR_lt in L. rewrite mult_IZR in L. cbn [located]. nra. }
  assert (Heq : 2 * r = my -> located q true false (IZR q + t)).
  { intros E. apply (f_equal IZR) in E. rewrite mult_IZR in E. cbn [located]. nra. }
  assert (Hgt : my < 2 * r -> located q true true (IZR q + t)).
  { intros G. assert (IZR r < IZR my)%R by (apply IZR_lt; lia).
    apply IZR_lt in G. rewrite mult_IZR in G. cbn [located]. nra. }
  unfold new_location.
  destruct (Z.even my) eqn:Ev.
  - unfold new_location_even. destruct (Z.eqb_spec r 0) as [E0|Hr0].
    + apply Hexact. exact E0.
    + destruct (Z.compare_spec (2 * r) my) as [E|L|G].
      * apply Heq. exact E.
      * apply Hlt; assumption.
      * apply Hgt. exact G.
  - assert (Hodd : Z.odd my = true) by (rewrite <- Z.negb_even, Ev; reflexivity).
    apply Z.odd_spec in Hodd. destruct Hodd as (a & Ha).
    unfold new_location_odd. destruct (Z.eqb_spec r 0) as [E0|Hr0].
    + apply Hexact. exact E0.
    + destruct (Z.compare_spec (2 * r + 1) my) as [E|L|G].
      * apply Hlt; [assumption | lia].
      * apply Hlt; [assumption | lia].
      * apply Hgt. lia.
Qed.

Lemma SFdiv_Rnd sx mx ex sy my ey :
  Rnd (xorb sx sy)
      ((IZR (Zpos mx) * pow2 ex) / (IZR (Zpos my) * pow2 ey))
      (SF64div (S754_finite sx mx ex) (S754_finite sy my ey)).
Proof.
  unfold SF64div, SFdiv, SFdiv_core_binary. cbn [Zdigits2].
  set (d1 := Zpos (digits2_pos mx)). set (d2 := Zpos (digits2_pos my)).
  set (e' := Z.min (fexp64 (d1 + ex - (d2 + ey))) (ex - ey)).
  set (s := ex - ey - e').
  assert (Hs : 0 <= s) by (subst s e'; lia).
  set (m' := match s with Zpos _ => Z.shiftl (Zpos mx) s | 0 => Zpos mx | Zneg _ => 0 end).
  assert (Hm' : m' = Zpos mx * 2 ^ s).
  { subst m'. destruct s as [|p|p] eqn:Es; [simpl; lia | | lia].
    rewrite Z.shiftl_mul_pow2 by lia. reflexivity. }
  pose proof (Z_div_mod m' (Zpos my) (eq_refl _)) as Hdiv.
  destruct (Z.div_eucl m' (Zpos my)) as [q r]. destruct Hdiv as (Hqr & Hr).
  assert (Hm'pos : 0 < m') by (rewrite Hm'; apply Z.mul_pos_pos; [lia | apply Z.pow_pos_nonneg; lia]).
  assert (Hq : 0 <= q) by nia.
  set (x := IZR (Zpos mx)). set (y := IZR (Zpos my)).
  assert (Hy : (0 < y)%R) by (subst y; apply IZR_lt; lia).
  assert (Hx : (0 < x)%R) by (subst x; apply IZR_lt; lia).
  pose proof (pow2_pos ex) as Pex. pose proof (pow2_pos ey) as Pey.
  pose proof (pow2_pos e') as Pe'.
  destruct (mag_ratio mx my) as (g0 & Hg0 & Hg0').
  fold x y d1 d2 in Hg0, Hg0'.
  assert (Hv : ((x * pow2 ex) / (y * pow2 ey) = x / y * pow2 (ex - ey))%R).
  { rewrite pow2_sub. field. split; lra. }
  rewrite Hv.
  apply binary_round_aux_Rnd with (g := g0 + (ex - ey)).
  - exact Hq.
  - apply mag_shift. exact Hg0.
  - replace (x / y * pow2 (ex - ey) / pow2 e')%R with (IZR q + IZR r / y)%R.
    + apply new_location_located; [lia | exact Hr | exact Hq].
    + assert (E1 : IZR m' = (x * pow2 s)%R) by (rewrite Hm'; apply IZR_shift; exact Hs).
      assert (E2 : IZR m' = (y * IZR q + IZR r)%R).
      { rewrite Hqr, plus_IZR, mult_IZR. reflexivity. }
      assert (E3 : (pow2 (ex - ey) = pow2 s * pow2 e')%R).
      { rewrite <- pow2_add. f_equal. subst s. lia. }
      rewrite E3. pose proof (pow2_pos s).
      replace (x / y * (pow2 s * pow2 e') / pow2 e')%R with ((x * pow2 s) / y)%R
        by (field; split; lra).
      rewrite <- E1, E2. field. lra.
  - subst e'. etransitivity; [apply Z.le_min_l|]. apply fexp64_mono. lia.
Qed.

(** ** The order of valid floats is the order of the reals they stand for *)

Lemma canonical_lt m1 e1 m2 e2 :
  bounded prec emax m1 e1 = true -> bounded prec emax m2 e2 = true ->
  e1 < e2 -> (IZR (Zpos m1) * pow2 e1 < IZR (Zpos m2) * pow2 e2)%R.
Proof.
  intros V1 V2 He.
  destruct (bounded_canonical _ _ V1) as (_ & E1 & M1 & _).
  destruct (bounded_canonical _ _ V2) as (_ & E2 & _ & M2).
  assert (H2 : 2 ^ 52 <= Zpos m2) by (apply M2; lia).
  apply IZR_lt in M1. apply IZR_le in H2.
  rewrite <- pow2_IZR in M1, H2 by lia.
  pose proof (pow2_pos e1). pose proof (pow2_pos e2).
  assert (P : (pow2 53 * pow2 e1 <= pow2 52 * pow2 e2)%R).
  { rewrite <- !pow2_add. apply pow2_le. lia. }
  nra.
Qed.

Lemma SFcompare_B2R x y :
  valid_binary x = true -> valid_binary y = true ->
  SFfinite x = true -> SFfinite y = true ->
  match SFcompare x y with
  | Some Lt => (B2R x < B2R y)%R
  | Some Eq => B2R x = B2R y
  | Some Gt => (B2R y < B2R x)%R
  | None => False
  end.
Proof.
  intros Vx Vy Fx Fy.
  destruct x as [sx|sx| |sx mx ex]; try discriminate;
    destruct y as [sy|sy| |sy my ey]; try discriminate;
    cbv beta iota delta [SFcompare B2R].
  - reflexivity.
  - pose proof (pow2_pos ey). assert (0 < IZR (Zpos my))%R by (apply IZR_lt; lia).
    destruct sy; nra.
  - pose proof (pow2_pos ex). assert (0 < IZR (Zpos mx))%R by (apply IZR_lt; lia).
    destruct sx; nra.
  - cbn [valid_binary] in Vx, Vy.
    pose proof (pow2_pos ex). pose proof (pow2_pos ey).
    assert (0 < IZR (Zpos mx))%R by (apply IZR_lt; lia).
    assert (0 < IZR (Zpos my))%R by (apply IZR_lt; lia).
    assert (Hm : forall c, Pos.compare_cont Eq mx my = c ->
              match c with
              | Lt => (IZR (Zpos mx) < IZR (Zpos my))%R
              | Eq => mx = my
              | Gt => (IZR (Zpos my) < IZR (Zpos mx))%R
              end).
    { intros c <-. change (Pos.compare_cont Eq mx my) with (Pos.compare mx my).
      destruct (Pos.compare_spec mx my); [assumption | apply IZR_lt; lia | apply IZR_lt; lia]. }
    destruct sx, sy; try nra.
    + destruct (Z.compare_spec ex ey) as [E|L|G].
      * subst ey. specialize (Hm _ eq_refl).
        destruct (Pos.compare_cont Eq mx my); cbn [CompOpp]; [subst; reflexivity | nra | nra].
      * pose proof (canonical_lt _ _ _ _ Vx Vy L). lra.
      * pose proof (canonical_lt _ _ _ _ Vy Vx G). lra.
    + destruct (Z.compare_spec ex ey) as [E|L|G].
      * subst ey. specialize (Hm _ eq_refl).
        destruct (Pos.compare_cont Eq mx my); [subst; reflexivity | nra | nra].
      * pose proof (canonical_lt _ _ _ _ Vx Vy L). lra.
      * pose proof (canonical_lt _ _ _ _ Vy Vx G). lra.
Qed.

Lemma SFleb_B2R x y :
  valid_binary x = true -> valid_binary y = true ->
  SFfinite x = true -> SFfinite y = true ->
  (SFleb x y = true <-> (B2R x <= B2R y)%R).
Proof.
  intros Vx Vy Fx Fy. pose proof (SFcompare_B2R x y Vx Vy Fx Fy) as H.
  unfold SFleb. destruct (SFcompare x y) as [[| |]|]; split; intros; try lra;
    try reflexivity; try discriminate; contradiction.
Qed.

Lemma SFltb_B2R x y :
  valid_binary x = true -> valid_binary y = true ->
  SFfinite x = true -> SFfinite y = true ->
  (SFltb x y = true <-> (B2R x < B2R y)%R).
Proof.
  intros Vx Vy Fx Fy. pose proof (SFcompare_B2R x y Vx Vy Fx Fy) as H.
  unfold SFltb. destruct (SFcompare x y) as [[| |]|]; split; intros; try lra;
    try reflexivity; try discriminate; contradiction.
Qed.

End Binary64_facts.

Lemma Prim2SF_infinity : Prim2SF infinity = S754_infinity false.
Proof. vm_compute; reflexivity. Qed.

Lemma is_finite_spec x : is_finite x = SFfinite (Prim2SF x).
Proof.
  unfold is_finite, is_infinity.
  rewrite is_nan_spec, FloatAxioms.eqb_spec, abs_spec, Prim2SF_infinity.
  destruct (Prim2SF x) as [[|]|[|]| |[|] m e]; reflexivity.
Qed.

(** The shapes of a number above zero. *)
Lemma positive_shape x :
  (0 <? x) = true ->
  Prim2SF x = S754_infinity false \/ exists m e, Prim2SF x = S754_finite false m e.
Proof.
  rewrite ltb_spec, Prim2SF_0.
  destruct (Prim2SF x) as [[|]|[|]| |[|] m e]; cbv beta iota delta [SFltb SFcompare];
    try discriminate; eauto.
Qed.

Lemma div_monotone s f1 f2 :
  (0 <? s) = true -> (0 <? f1) = true -> (f1 <? f2) = true -> is_finite f2 = true ->
  (s / f2 <=? s / f1) = true.
Proof.
  intros Hs H1 H12 Hf2.
  rewrite leb_spec, !div_spec.
  pose proof (Prim2SF_valid f1) as V1. pose proof (Prim2SF_valid f2) as V2.
  rewrite is_finite_spec in Hf2. rewrite ltb_spec in H12.
  destruct (positive_shape _ H1) as [E1|(m1 & e1 & E1)]; rewrite E1 in *.
  { destruct (Prim2SF f2) as [[|]|[|]| |[|] m e]; discriminate. }
  destruct (Prim2SF f2) as [[|]|[|]| |[|] m2 e2] eqn:E2; try discriminate.
  assert (Hlt : (B2R (S754_finite false m1 e1) < B2R (S754_finite false m2 e2))%R).
  { apply SFltb_B2R; auto. }
  cbn [B2R] in Hlt.
  destruct (positive_shape _ Hs) as [Es|(ms & es & Es)]; rewrite Es.
  - reflexivity.
  - pose proof (SFdiv_Rnd false ms es false m1 e1) as R1.
    pose proof (SFdiv_Rnd false ms es false m2 e2) as R2.
    cbn [xorb] in R1, R2.
    apply (Rnd_monotone false _ _ _ _) with (2 := R2) (3 := R1).
    pose proof (pow2_pos es). pose proof (pow2_pos e1). pose proof (pow2_pos e2).
    assert (0 < IZR (Zpos ms))%R by (apply IZR_lt; lia).
    assert (0 < IZR (Zpos m1))%R by (apply IZR_lt; lia).
    assert (0 < IZR (Zpos m2))%R by (apply IZR_lt; lia).
    set (S := (IZR (Zpos ms) * pow2 es)%R) in *.
    set (F1 := (IZR (Zpos m1) * pow2 e1)%R) in *.
    set (F2 := (IZR (Zpos m2) * pow2 e2)%R) in *.
    assert (0 < S)%R by (subst S; nra).
    assert (0 < F1)%R by (subst F1; nra).
    split.
    + apply Rdiv_lt_0_compat; lra.
    + unfold Rdiv. apply Rmult_le_compat_l; [lra|].
      apply Rinv_le_contravar; lra.
Qed.

(** ** The diffraction factor and the passes of a frame *)

Section Exact_factor.
Local Open Scope Z_scope.

Lemma pow2_neg n : 0 <= n -> pow2 (- n) = (/ IZR (2 ^ n))%R.
Proof. intros H. rewrite pow2_opp, pow2_IZR by exact H. reflexivity. Qed.

Lemma pow2_m52 : pow2 (-52) = (/ 4503599627370496)%R.
Proof. apply (pow2_neg 52). lia. Qed.

Lemma pow2_m53 : pow2 (-53) = (/ 9007199254740992)%R.
Proof. apply (pow2_neg 53). lia. Qed.

Lemma B2R_one : B2R sf_one = 1%R.
Proof. unfold sf_one, B2R. rewrite pow2_m52. lra. Qed.

Lemma B2R_1_5 : B2R sf_1_5 = 1.5%R.
Proof. unfold sf_1_5, B2R. rewrite pow2_m52. lra. Qed.

Lemma Rnd_one : Rnd false 1 sf_one.
Proof.
  exists 1, (2 ^ 52). split; [|split].
  - unfold mag. change (1 - 1) with 0. rewrite pow2_0, pow2_1. lra.
  - left. change (fexp64 1) with (-52). rewrite pow2_m52.
    change (2 ^ 52) with 4503599627370496.
    replace (1 / / 4503599627370496)%R with 4503599627370496%R by lra. lra.
  - reflexivity.
Qed.

Lemma Rnd_shape s v z :
  (0 < v)%R -> Rnd s v z ->
  z = S754_zero s \/ z = S754_infinity s \/ exists p e, z = S754_finite s p e.
Proof.
  intros Hv (g & m & Hg & HNE & ->).
  destruct (Rnd_mantissa v g m Hv Hg HNE) as ((M0 & _) & _).
  unfold float_of. destruct m as [|p|p]; [auto | | lia].
  destruct (Zpos p =? 2 ^ 53); destruct (_ <=? 971); eauto.
Qed.

(** A value on the grid of its own exponent is not changed by rounding. *)
Lemma Rnd_exact s v z k j :
  Rnd s v z -> 0 < k -> v = (IZR k * pow2 j)%R ->
  (forall g, mag v g -> fexp64 g <= j /\ fexp64 g < 971) ->
  exists p e, z = S754_finite s p e /\ (IZR (Zpos p) * pow2 e)%R = v.
Proof.
  intros (g & m & Hg & HNE & ->) Hk Hv Hj.
  destruct (Hj g Hg) as (J1 & J2).
  assert (Hvpos : (0 < v)%R).
  { rewrite Hv. apply Rmult_lt_0_compat; [apply IZR_lt; lia | apply pow2_pos]. }
  destruct (Rnd_mantissa v g m Hvpos Hg HNE) as ((M0 & M1) & _).
  set (e := fexp64 g) in *.
  assert (Hw : (v / pow2 e = IZR (k * 2 ^ (j - e)))%R).
  { rewrite Hv, IZR_shift by lia. unfold Rdiv. rewrite Rmult_assoc. f_equal.
    rewrite pow2_sub. reflexivity. }
  rewrite Hw in HNE. apply NE_integer in HNE.
  assert (Hm : 0 < m) by (rewrite HNE; apply Z.mul_pos_pos; [lia | apply Z.pow_pos_nonneg; lia]).
  assert (Hval : (IZR m * pow2 e = v)%R).
  { rewrite HNE, <- Hw. pose proof (pow2_pos e). field. lra. }
  unfold float_of. destruct m as [|p|p]; try lia.
  destruct (Z.eqb_spec (Zpos p) (2 ^ 53)) as [E|NE'].
  - destruct (Z.leb_spec (e + 1) 971); [|lia].
    exists (2 ^ 52)%positive, (e + 1). split; [reflexivity|].
    rewrite <- Hval, E, pow2_succ. change (Zpos (2 ^ 52)) with (2 ^ 52).
    change (2 ^ 53) with (2 * 2 ^ 52). rewrite mult_IZR. lra.
  - destruct (Z.leb_spec e 971); [|lia].
    exists p, e. split; [reflexivity | exact Hval].
Qed.

Lemma df_of_ge_one z :
  SFleb sf_one z = true -> SFmax sf_zero (SFmin sf_one z) = sf_one.
Proof.
  unfold SFleb. intros H. unfold SFmin at 1.
  destruct (SFcompare sf_one z) as [[| |]|] eqn:C; try discriminate.
  - destruct (SFcompare_Eq _ _ C) as [<-|(s & s' & E & _)]; [reflexivity | discriminate].
  - reflexivity.
Qed.

Lemma df_of_negative z :
  z = S754_zero true \/ z = S754_infinity true \/ (exists p e, z = S754_finite true p e) ->
  SFmax sf_zero (SFmin sf_one z) = sf_zero.
Proof. intros [->|[->|(p & e & ->)]]; reflexivity. Qed.

Lemma df_of_middle p e :
  SFcompare sf_one (S754_finite false p e) = Some Gt ->
  SFmax sf_zero (SFmin sf_one (S754_finite false p e)) = S754_finite false p e.
Proof. intros C. unfold SFmin. rewrite C. reflexivity. Qed.

Lemma clampR_high d : (1 <= d)%R -> clampR d = 1%R.
Proof. unfold clampR, Rmax, Rmin. intros; destruct (Rle_dec 1 d); destruct (Rle_dec 0 _); lra. Qed.

Lemma clampR_low d : (d <= 0)%R -> clampR d = 0%R.
Proof. unfold clampR, Rmax, Rmin. intros; destruct (Rle_dec 1 d); destruct (Rle_dec 0 _); lra. Qed.

Lemma clampR_middle d : (0 <= d <= 1)%R -> clampR d = d.
Proof. unfold clampR, Rmax, Rmin. intros; destruct (Rle_dec 1 d); destruct (Rle_dec 0 _); lra. Qed.

Lemma mid_range_grid mx ex :
  bounded prec emax mx ex = true ->
  (/ 2 < IZR (Zpos mx) * pow2 ex < 3 / 2)%R ->
  exists k, 0 < k /\ (3 / 2 - IZR (Zpos mx) * pow2 ex = IZR k * pow2 (-53))%R.
Proof.
  intros V (H1 & H2).
  destruct (bounded_canonical _ _ V) as (_ & E & M1 & M2).
  assert (Hm : (0 < IZR (Zpos mx))%R) by (apply IZR_lt; lia).
  apply IZR_lt in M1. change (2 ^ 53) with 9007199254740992 in M1.
  assert (Hlo : -53 <= ex).
  { destruct (Z_le_gt_dec (-53) ex) as [|G]; [assumption|exfalso].
    assert (P : (pow2 ex <= pow2 (-54))%R) by (apply pow2_le; lia).
    replace (-54) with (-53 - 1) in P by lia. rewrite pow2_sub, pow2_m53, pow2_1 in P.
    pose proof (pow2_pos ex). nra. }
  assert (M2' : 2 ^ 52 <= Zpos mx) by (apply M2; lia).
  apply IZR_le in M2'. change (2 ^ 52) with 4503599627370496 in M2'.
  assert (Hhi : ex <= -52).
  { destruct (Z_le_gt_dec ex (-52)) as [|G]; [assumption|exfalso].
    assert (P : (pow2 (-51) <= pow2 ex)%R) by (apply pow2_le; lia).
    replace (-51) with (-52 + 1) in P by lia. rewrite pow2_succ, pow2_m52 in P.
    nra. }
  assert (Hex : ex = -53 \/ ex = -52) by lia.
  destruct Hex as [-> | ->].
  - exists (6755399441055744 * 2 - Zpos mx). rewrite pow2_m53 in *. split.
    + apply lt_IZR. rewrite minus_IZR, mult_IZR. lra.
    + rewrite minus_IZR, mult_IZR. lra.
  - exists (6755399441055744 * 2 - 2 * Zpos mx). rewrite pow2_m52 in *. rewrite pow2_m53. split.
    + apply lt_IZR. rewrite minus_IZR, !mult_IZR. lra.
    + rewrite minus_IZR, !mult_IZR. lra.
Qed.

(** On a finite number the factor is a finite number, and exactly the real
    clamp of [1.5 - x]: no rounding error is made. *)
Lemma SFdf_exact x :
  valid_binary x = true -> SFfinite x = true ->
  SFfinite (SFdf x) = true /\ B2R (SFdf x) = clampR (3 / 2 - B2R x).
Proof.
  intros V F. unfold SFdf.
  destruct x as [s|s| |sx mx ex]; try discriminate.
  - (* zero *)
    assert (E : SFmax sf_zero (SFmin sf_one (SF64sub sf_1_5 (S754_zero s))) = sf_one)
      by (destruct s; reflexivity).
    rewrite E. split; [reflexivity|]. rewrite B2R_one. cbn [B2R].
    symmetry. apply clampR_high. lra.
  - pose proof (SFsub_RND false 6755399441055744 (-52) sx mx ex) as HR.
    fold sf_1_5 in HR. rewrite B2R_1_5 in HR.
    set (z := SF64sub sf_1_5 (S754_finite sx mx ex)) in *.
    set (d := (1.5 - B2R (S754_finite sx mx ex))%R) in *.
    replace (3 / 2 - B2R (S754_finite sx mx ex))%R with d by (subst d; lra).
    destruct HR as [(Hd & ->) | [(Hd & HR) | (Hd & HR)]].
    + split; [reflexivity|]. rewrite clampR_low by lra. reflexivity.
    + destruct (Rle_lt_dec 1 d) as [H1|H1].
      * assert (L : SFleb sf_one z = true).
        { apply (Rnd_monotone false 1 d sf_one z); [lra | apply Rnd_one | exact HR]. }
        rewrite (df_of_ge_one _ L). split; [reflexivity|]. rewrite B2R_one.
        symmetry. apply clampR_high. exact H1.
      * (* the difference is on the grid of 2^-53 *)
        assert (Hsx : sx = false).
        { destruct sx; [|reflexivity]. exfalso. subst d. cbn [B2R] in H1.
          pose proof (pow2_pos ex). assert (0 < IZR (Zpos mx))%R by (apply IZR_lt; lia). nra. }
        subst sx. cbn [B2R] in d. cbn [valid_binary] in V.
        destruct (mid_range_grid mx ex V) as (k & Hk & Hgrid); [subst d; lra|].
        destruct (Rnd_exact false d z k (-53) HR Hk) as (p & e & Ez & Hval).
        { subst d. lra. }
        { intros g (G1 & G2). assert (g - 1 < 0) by (apply pow2_lt_inv; rewrite pow2_0; lra).
          rewrite fexp64_eq. lia. }
        assert (L : SFleb z sf_one = true).
        { apply (Rnd_monotone false d 1 z sf_one); [lra | exact HR | apply Rnd_one]. }
        assert (C : SFcompare sf_one z = Some Gt).
        { rewrite SFcompare_antisym. unfold SFleb in L.
          destruct (SFcompare z sf_one) as [[| |]|] eqn:C; try discriminate; [|reflexivity].
          exfalso. destruct (SFcompare_Eq _ _ C) as [E|(s & s' & _ & E)]; [|discriminate].
          rewrite E in Ez. inversion Ez; subst p e. rewrite pow2_m52 in Hval. lra. }
        rewrite Ez in C |- *. rewrite (df_of_middle _ _ C).
        split; [reflexivity|]. cbn [B2R]. rewrite Hval.
        symmetry. apply clampR_middle. lra.
    + rewrite df_of_negative.
      * split; [reflexivity|]. rewrite clampR_low by lra. reflexivity.
      * apply (Rnd_shape true (- d)); [lra | exact HR].
Qed.

End Exact_factor.

Lemma Prim2SF_1_5 : Prim2SF 1.5 = sf_1_5.
Proof. vm_compute; reflexivity. Qed.

Lemma diffractionFactor_spec r : Prim2SF (diffractionFactor r) = SFdf (Prim2SF r).
Proof.
  unfold diffractionFactor, SFdf.
  rewrite Math_max_spec, Math_min_spec, sub_spec, Prim2SF_0, Prim2SF_1, Prim2SF_1_5.
  reflexivity.
Qed.

Lemma clampR_bounds d : (0 <= clampR d <= 1)%R.
Proof.
  unfold clampR, Rmax, Rmin. destruct (Rle_dec 1 d); destruct (Rle_dec 0 _); lra.
Qed.

Lemma clampR_monotone a b : (a <= b)%R -> (clampR a <= clampR b)%R.
Proof.
  unfold clampR, Rmax, Rmin. intros H.
  destruct (Rle_dec 1 a); destruct (Rle_dec 1 b);
    repeat match goal with |- context [Rle_dec ?x ?y] => destruct (Rle_dec x y) end; lra.
Qed.

Lemma SFdf_value x :
  valid_binary x = true -> SFis_nan x = false ->
  SFfinite (SFdf x) = true /\ B2R (SFdf x) = factorR x.
Proof.
  intros V N. destruct x as [s|[|]| |s m e]; try discriminate.
  - apply SFdf_exact; [exact V | reflexivity].
  - split; [reflexivity|]. cbn [factorR]. apply B2R_one.
  - split; reflexivity.
  - apply SFdf_exact; [exact V | reflexivity].
Qed.

Lemma factorR_antitone x y :
  valid_binary x = true -> valid_binary y = true ->
  SFleb x y = true -> (factorR y <= factorR x)%R.
Proof.
  intros Vx Vy L.
  assert (Hfin : SFfinite x = true -> SFfinite y = true ->
                 (clampR (3 / 2 - B2R y) <= clampR (3 / 2 - B2R x))%R).
  { intros Fx Fy. apply clampR_monotone.
    apply (SFleb_B2R x y Vx Vy Fx Fy) in L. lra. }
  pose proof (clampR_bounds (3 / 2 - B2R x)). pose proof (clampR_bounds (3 / 2 - B2R y)).
  destruct x as [sx|[|]| |sx mx ex]; try discriminate;
    destruct y as [sy|[|]| |sy my ey]; try discriminate; cbn [factorR];
    try lra; try (apply Hfin; reflexivity);
    try (exfalso; revert L; cbv beta iota delta [SFleb SFcompare]; destruct sx; discriminate).
Qed.

(** The factor does not increase when the ratio grows. *)
Lemma diffractionFactor_antitone r1 r2 :
  (r1 <=? r2) = true -> (diffractionFactor r2 <=? diffractionFactor r1) = true.
Proof.
  intros L. rewrite leb_spec in L. rewrite leb_spec.
  pose proof (Prim2SF_valid r1) as V1. pose proof (Prim2SF_valid r2) as V2.
  assert (N : SFis_nan (Prim2SF r1) = false /\ SFis_nan (Prim2SF r2) = false).
  { unfold SFleb in L. destruct (SFcompare (Prim2SF r1) (Prim2SF r2)) eqn:C; [|discriminate].
    eapply SFcompare_Some_not_nan; eauto. }
  destruct N as (N1 & N2).
  destruct (SFdf_value _ V1 N1) as (F1 & E1). destruct (SFdf_value _ V2 N2) as (F2 & E2).
  rewrite <- diffractionFactor_spec in F1, F2, E1, E2.
  apply SFleb_B2R; try assumption; try apply Prim2SF_valid.
  rewrite E1, E2. apply factorR_antitone; assumption.
Qed.

Lemma diffractionFactor_exact r :
  is_finite r = true -> value (diffractionFactor r) = clampR (3 / 2 - value r).
Proof.
  intros F. rewrite is_finite_spec in F. unfold value.
  rewrite diffractionFactor_spec. apply SFdf_exact; [apply Prim2SF_valid | exact F].
Qed.

Lemma clampR_lipschitz a b : (Rabs (clampR a - clampR b) <= Rabs (a - b))%R.
Proof.
  unfold clampR, Rmax, Rmin.
  destruct (Rle_dec 1 a); destruct (Rle_dec 1 b);
    repeat match goal with |- context [Rle_dec ?x ?y] => destruct (Rle_dec x y) end;
    unfold Rabs; repeat match goal with |- context [Rcase_abs ?x] => destruct (Rcase_abs x) end;
    lra.
Qed.

Lemma factor_continuous : continuity (fun x : R => clampR (3 / 2 - x)).
Proof.
  intros x. unfold continuity_pt, continue_in, limit1_in, limit_in.
  intros eps Heps. exists eps. split; [exact Heps|].
  intros y (_ & Hy). simpl in *. unfold R_dist in *.
  eapply Rle_lt_trans; [apply clampR_lipschitz|].
  replace (3 / 2 - y - (3 / 2 - x))%R with (- (y - x))%R by lra.
  rewrite Rabs_Ropp. exact Hy.
Qed.

Lemma seq_Returned a b ops :
  a ;; b = Returned ops ->
  exists o1 o2, a = Returned o1 /\ b = Returned o2 /\ ops = o1 ++ o2.
Proof.
  destruct a as [o1|o1|]; [|discriminate|discriminate].
  destruct b as [o2|o2|]; [|discriminate|discriminate].
  intros H; inversion H. eauto.
Qed.

Lemma ctx_arc_Returned x y r a0 a1 ops :
  ctx_arc x y r a0 a1 = Returned ops -> ops = [arc x y r a0 a1].
Proof.
  unfold ctx_arc. destruct (_ && _); intros H; inversion H; reflexivity.
Qed.

Lemma full_circle_not_reflected x y r :
  reflectedArc (arc x y r 0 (Math_PI * 2)) = false.
Proof. vm_compute; reflexivity. Qed.

Lemma gridColumns_no_arc fuel : forall x w h ppm ops,
  gridColumns fuel x w h ppm = Returned ops -> filter reflectedArc ops = [].
Proof.
  induction fuel as [|fuel IH]; intros x w h ppm ops; cbn [gridColumns]; [discriminate|].
  destruct (x <? w).
  - intros H. apply seq_Returned in H. destruct H as (o1 & o2 & H1 & H2 & ->).
    apply seq_Returned in H2. destruct H2 as (o3 & o4 & H3 & H4 & ->).
    inversion H1; inversion H3; subst. cbn [app filter reflectedArc]. eapply IH; eauto.
  - intros H; inversion H. reflexivity.
Qed.

Lemma gridRows_no_arc fuel : forall y w h ppm ops,
  gridRows fuel y w h ppm = Returned ops -> filter reflectedArc ops = [].
Proof.
  induction fuel as [|fuel IH]; intros y w h ppm ops; cbn [gridRows]; [discriminate|].
  destruct (y <? h).
  - intros H. apply seq_Returned in H. destruct H as (o1 & o2 & H1 & H2 & ->).
    apply seq_Returned in H2. destruct H2 as (o3 & o4 & H3 & H4 & ->).
    inversion H1; inversion H3; subst. cbn [app filter reflectedArc]. eapply IH; eauto.
  - intros H; inversion H. reflexivity.
Qed.

Lemma incidentWaves_no_reflected fuel : forall r maxR wl sx cy ops,
  incidentWaves fuel r maxR wl sx cy = Returned ops -> filter reflectedArc ops = [].
Proof.
  induction fuel as [|fuel IH]; intros r maxR wl sx cy ops; cbn [incidentWaves]; [discriminate|].
  destruct (r <? maxR).
  - cbv zeta. intros H.
    apply seq_Returned in H. destruct H as (o1 & o2 & H1 & H2 & ->).
    apply seq_Returned in H2. destruct H2 as (o3 & o4 & H3 & H4 & ->).
    apply seq_Returned in H4. destruct H4 as (o5 & o6 & H5 & H6 & ->).
    apply seq_Returned in H6. destruct H6 as (o7 & o8 & H7 & H8 & ->).
    inversion H1; inversion H3; inversion H7; subst.
    apply ctx_arc_Returned in H5. subst o5.
    cbn [app filter]. rewrite full_circle_not_reflected.
    cbn [reflectedArc]. eapply IH; eauto.
  - intros H; inversion H. reflexivity.
Qed.

Ltac peel H o Ho :=
  apply seq_Returned in H;
  let o2 := fresh "rest" in
  destruct H as (o & o2 & Ho & H & ->).

Lemma drawFrame_passes fuel width height size m t ops :
  drawFrame fuel width height size m t = Returned ops ->
  exists pre inc refl post,
    ops = pre ++ inc ++ shadowOps width height size (diffractionFactor (ratio m))
              ++ refl ++ post
    /\ incidentWaves fuel (phaseOffset t m height) (Math_hypot width height)
         (wavelengthPx m height) (width * 0.15) (height / 2) = Returned inc
    /\ reflectedPass fuel width height m t (reflectionOpacity (ratio m)) = Returned refl
    /\ filter reflectedArc pre = [] /\ filter reflectedArc post = [].
Proof.
  unfold drawFrame. cbv zeta. intros H.
  peel H o1 H1. peel H o2 H2. peel H o3 H3. peel H o4 H4. peel H o5 H5.
  peel H gc Hgc. peel H gr Hgr. peel H o6 H6. peel H o7 H7. peel H o8 H8.
  peel H inc Hinc. peel H sh Hsh. peel H rf Hrf.
  peel H p1 P1. peel H p2 P2. peel H p3 P3. peel H p4 P4. peel H p5 P5.
  peel H p6 P6. peel H p7 P7. peel H p8 P8. peel H p9 P9.
  peel H p10 P10. peel H p11 P11. peel H p12 P12. peel H p13 P13.
  inversion H1; inversion H2; inversion H3; inversion H4; inversion H5;
    inversion H6; inversion H7; inversion H8; subst; clear H1 H2 H3 H4 H5 H6 H7 H8.
  inversion P1; inversion P2; inversion P3; inversion P4; inversion P5; inversion P6;
    inversion P7; inversion P9; inversion P10; inversion P11; inversion P12; inversion P13;
    inversion H; subst.
  apply ctx_arc_Returned in P8. subst p8.
  unfold shadowZone in Hsh. cbn [seq call app] in Hsh. inversion Hsh; subst sh; clear Hsh.
  eexists (_ :: _ :: _ :: _ :: _ :: gc ++ gr ++ [_; _; _]), inc, rf, _.
  split; [|split; [exact Hinc | split; [exact Hrf | split]]].
  - cbn [app]. rewrite <- !app_assoc. cbn [app]. reflexivity.
  - cbn [filter reflectedArc]. rewrite !filter_app.
    rewrite (gridColumns_no_arc _ _ _ _ _ _ Hgc), (gridRows_no_arc _ _ _ _ _ _ Hgr).
    reflexivity.
  - cbn [app filter]. rewrite full_circle_not_reflected. cbn [filter reflectedArc]. reflexivity.
Qed.

Lemma shadowOps_no_arc w h s f : filter reflectedArc (shadowOps w h s f) = [].
Proof. reflexivity. Qed.



Lemma Prim2SF_0_8 : Prim2SF 0.8 = sf_0_8.
Proof. vm_compute; reflexivity. Qed.



Lemma SF2Prim_nan : SF2Prim S754_nan = nan.
Proof. reflexivity. Qed.

Lemma Prim2SF_neg_infinity : Prim2SF neg_infinity = S754_infinity true.
Proof. vm_compute; reflexivity. Qed.

(** [x % (y * 0)] is [NaN]: the divisor is a zero or [NaN]. *)
Lemma rem_by_zero_product x y : x mod (y * 0) = nan.
Proof.
  unfold Number_remainder. rewrite mul_spec, Prim2SF_0.
  destruct (Prim2SF y) as [sy|sy| |sy my ey]; destruct (Prim2SF x) as [sx|sx| |sx mx ex];
    reflexivity.
Qed.

Lemma rem_by_nan x : x mod nan = nan.
Proof.
  unfold Number_remainder. rewrite Prim2SF_nan.
  destruct (Prim2SF x); reflexivity.
Qed.

(** [x % Infinity] is [x], for a finite [x]. *)
Lemma rem_by_infinity x : is_finite x = true -> x mod infinity = x.
Proof.
  intros F. rewrite is_finite_spec in F.
  unfold Number_remainder. rewrite Prim2SF_infinity.
  rewrite <- (SF2Prim_Prim2SF x) at 2.
  destruct (Prim2SF x); try discriminate; reflexivity.
Qed.

Lemma nan_ltb x : (nan <? x) = false.
Proof. rewrite ltb_spec, Prim2SF_nan. reflexivity. Qed.

Lemma infinity_ltb x : (infinity <? x) = false.
Proof.
  rewrite ltb_spec, Prim2SF_infinity.
  destruct (Prim2SF x) as [s|[|]| |s m e]; reflexivity.
Qed.

Lemma finite_plus_infinity x : is_finite x = true -> x + infinity = infinity.
Proof.
  intros F. rewrite is_finite_spec in F. apply Prim2SF_inj.
  rewrite add_spec, Prim2SF_infinity.
  destruct (Prim2SF x); try discriminate; reflexivity.
Qed.

Lemma infinity_times_positive x : (0 <? x) = true -> infinity * x = infinity.
Proof.
  intros H. apply Prim2SF_inj. rewrite mul_spec, Prim2SF_infinity.
  destruct (positive_shape _ H) as [->|(m & e & ->)]; reflexivity.
Qed.

Lemma nan_times x : nan * x = nan.
Proof.
  apply Prim2SF_inj. rewrite mul_spec, Prim2SF_nan. reflexivity.
Qed.

Lemma ctx_arc_nonnegative x y r a0 a1 :
  (r <? 0) = false -> ctx_arc x y r a0 a1 = Returned [arc x y r a0 a1].
Proof. intros H. unfold ctx_arc. rewrite H, andb_false_r. reflexivity. Qed.

(** With an infinite wavelength in pixels the incident loop runs once. *)
Lemma incidentWaves_infinite fuel r maxR sx cy :
  is_finite r = true -> (r <? 0) = false ->
  incidentWaves (S (S fuel)) r maxR infinity sx cy =
  if r <? maxR then
    Returned [strokeStyle (Rgba 56 189 248 (Math_max 0 (1 - r / (maxR * 0.8))));
              beginPath; arc sx cy r 0 (Math_PI * 2); stroke]
  else Returned [].
Proof.
  intros F N. cbn [incidentWaves]. destruct (r <? maxR); [|reflexivity].
  cbv zeta. rewrite (finite_plus_infinity r F), infinity_ltb.
  rewrite (ctx_arc_nonnegative _ _ _ _ _ N). reflexivity.
Qed.

Lemma incidentWaves_nan fuel maxR wl sx cy :
  incidentWaves (S fuel) nan maxR wl sx cy = Returned [].
Proof. cbn [incidentWaves]. rewrite nan_ltb. reflexivity. Qed.

Lemma reflectedWaves_nan fuel maxR wl w sx ox cy op :
  reflectedWaves (S fuel) nan maxR wl w sx ox cy op = Returned [].
Proof. cbn [reflectedWaves]. rewrite nan_ltb. reflexivity. Qed.

(** A ratio computed from a wavelength that is not finite is not above 0.8. *)
Lemma ratio_of_infinite_wavelength size :
  (0.8 <? size / infinity) = false /\ (0.8 <? size / nan) = false.
Proof.
  rewrite !ltb_spec, !div_spec, Prim2SF_0_8, Prim2SF_infinity, Prim2SF_nan.
  split; destruct (Prim2SF size) as [[|]|[|]| |[|] m e]; reflexivity.
Qed.

Lemma drawFrame_returns fuel width height size m t gc gr inc rf :
  gridColumns fuel 0 width height (PIXELS_PER_METER height) = Returned gc ->
  gridRows fuel 0 width height (PIXELS_PER_METER height) = Returned gr ->
  incidentWaves fuel (phaseOffset t m height) (Math_hypot width height)
    (wavelengthPx m height) (width * 0.15) (height / 2) = Returned inc ->
  reflectedPass fuel width height m t (reflectionOpacity (ratio m)) = Returned rf ->
  exists ops, drawFrame fuel width height size m t = Returned ops.
Proof.
  unfold reflectedPass, phaseOffset, wavelengthPx, PIXELS_PER_METER.
  intros Hgc Hgr Hinc Hrf. unfold drawFrame. cbv zeta.
  rewrite Hgc, Hgr, Hinc, Hrf.
  rewrite ctx_arc_nonnegative by (vm_compute; reflexivity).
  unfold shadowZone. cbn [seq call app]. eexists. reflexivity.
Qed.

Lemma drawFrame_empty_surface fuel size m t :
  drawFrame (S fuel) 0 0 size m t = Returned (emptyFrame size m).
Proof.
  unfold drawFrame. cbv zeta.
  replace (Math_min 60 (0 / 6)) with 0 by (vm_compute; reflexivity).
  replace (Math_hypot 0 0) with 0 by (vm_compute; reflexivity).
  rewrite rem_by_zero_product.
  cbn [gridColumns gridRows incidentWaves reflectedWaves].
  replace (0 <? 0) with false by (vm_compute; reflexivity).
  rewrite nan_ltb.
  rewrite ctx_arc_nonnegative by (vm_compute; reflexivity).
  unfold shadowZone.
  replace (0 * 0.15) with 0 by (vm_compute; reflexivity).
  replace (0 / 2) with 0 by (vm_compute; reflexivity).
  replace (0 - 0) with 0 by (vm_compute; reflexivity).
  destruct (0.8 <? ratio m); reflexivity.
Qed.

(** A zero height with a positive width: the step of the grid's column
    loop is 0 and the loop never ends. *)
Lemma gridColumns_zero_step fuel width height :
  (0 <? width) = true -> gridColumns fuel 0 width height 0 = OutOfFuel.
Proof.
  intros H. induction fuel as [|fuel IH]; [reflexivity|].
  cbn [gridColumns]. rewrite H.
  replace (0 + 0) with 0 by (vm_compute; reflexivity).
  rewrite IH. reflexivity.
Qed.

Lemma drawFrame_zero_height fuel width size m t :
  (0 <? width) = true -> drawFrame fuel width 0 size m t = OutOfFuel.
Proof.
  intros H. unfold drawFrame. cbv zeta.
  replace (Math_min 60 (0 / 6)) with 0 by (vm_compute; reflexivity).
  rewrite (gridColumns_zero_step _ _ _ H). reflexivity.
Qed.

(** ** Binary64 constants and order facts, read off [SFcompare] *)

Lemma Prim2SF_half : Prim2SF 0.5 = S754_finite false 4503599627370496 (-53).
Proof. vm_compute; reflexivity. Qed.

Lemma ltb_negative_below_half (r : float) :
  (r <? 0) = true -> (r <? 0.5) = true /\ (1.0 <? r) = false.
Proof.
  rewrite !ltb_spec, Prim2SF_half, Prim2SF_0, Prim2SF_1.
  destruct (Prim2SF r) as [s | [|] | | [|] m e];
    cbv beta iota delta [SFltb SFcompare]; intuition congruence.
Qed.

(** ** The acoustic model *)

(** C1: [calculateMetrics] classifies by the predicates in order: REFLECTING
    if the ratio is above 1.0, otherwise DIFFRACTING if it is below 0.5,
    otherwise TRANSITIONAL; a ratio of exactly 1.0 or exactly 0.5 is
    TRANSITIONAL and any negative ratio is DIFFRACTING. *)
Theorem calculateMetrics_classifies (p : SimulationParams) :
  let m := calculateMetrics p in
  behavior m = classify (ratio m)
  /\ ((1.0 <? ratio m) = true -> behavior m = REFLECTING)
  /\ ((1.0 <? ratio m) = false -> (ratio m <? 0.5) = true -> behavior m = DIFFRACTING)
  /\ ((1.0 <? ratio m) = false -> (ratio m <? 0.5) = false -> behavior m = TRANSITIONAL)
  /\ (ratio m = 1.0 -> behavior m = TRANSITIONAL)
  /\ (ratio m = 0.5 -> behavior m = TRANSITIONAL)
  /\ ((ratio m <? 0) = true -> behavior m = DIFFRACTING).
Proof.
  unfold calculateMetrics, classify; cbn [behavior ratio].
  set (r := obstacleSize p / _).
  repeat split.
  - intros ->; reflexivity.
  - intros -> ->; reflexivity.
  - intros -> ->; reflexivity.
  - intros ->. vm_compute; reflexivity.
  - intros ->. vm_compute; reflexivity.
  - intros H. destruct (ltb_negative_below_half r H) as [-> ->]. reflexivity.
Qed.

(** Inputs on which the ratio is exactly 1.0, exactly 0.5, negative, and
    above 1.0: the frequency is the speed of sound at 20 degrees, so the
    wavelength is 1. *)
Lemma calculateMetrics_classifies_witness :
  (ratio (calculateMetrics (unit_wavelength 1.0)) = 1.0
   /\ behavior (calculateMetrics (unit_wavelength 1.0)) = TRANSITIONAL)
  /\ (ratio (calculateMetrics (unit_wavelength 0.5)) = 0.5
      /\ behavior (calculateMetrics (unit_wavelength 0.5)) = TRANSITIONAL)
  /\ ((ratio (calculateMetrics (unit_wavelength (-1))) <? 0) = true
      /\ behavior (calculateMetrics (unit_wavelength (-1))) = DIFFRACTING)
  /\ ((1.0 <? ratio (calculateMetrics (unit_wavelength 5))) = true
      /\ behavior (calculateMetrics (unit_wavelength 5)) = REFLECTING).
Proof.
  assert (H1 : ratio (calculateMetrics (unit_wavelength 1.0)) = 1.0)
    by (vm_compute; reflexivity).
  assert (H2 : ratio (calculateMetrics (unit_wavelength 0.5)) = 0.5)
    by (vm_compute; reflexivity).
  assert (H3 : (ratio (calculateMetrics (unit_wavelength (-1))) <? 0) = true)
    by (vm_compute; reflexivity).
  assert (H4 : (1.0 <? ratio (calculateMetrics (unit_wavelength 5))) = true)
    by (vm_compute; reflexivity).
  refine (conj (conj H1 _) (conj (conj H2 _) (conj (conj H3 _) (conj H4 _)))).
  - exact (proj1 (proj2 (proj2 (proj2 (proj2 (calculateMetrics_classifies (unit_wavelength 1.0)))))) H1).
  - exact (proj1 (proj2 (proj2 (proj2 (proj2 (proj2 (calculateMetrics_classifies (unit_wavelength 0.5))))))) H2).
  - exact (proj2 (proj2 (proj2 (proj2 (proj2 (proj2 (calculateMetrics_classifies (unit_wavelength (-1)))))))) H3).
  - exact (proj1 (proj2 (calculateMetrics_classifies (unit_wavelength 5))) H4).
Defined.

(** C2: for a positive frequency the speed of sound is 331.4 + 0.6 * T, the
    wavelength is speed / frequency and the ratio is size / wavelength, each
    as the binary64 operation gives it. *)
Theorem calculateMetrics_formulas (p : SimulationParams) :
  (0 <? frequency p) = true ->
  let m := calculateMetrics p in
  speedOfSound m = 331.4 + 0.6 * temperature p
  /\ wavelength m = speedOfSound m / frequency p
  /\ ratio m = obstacleSize p / wavelength m.
Proof.
  intros _. repeat split.
Qed.

Lemma calculateMetrics_formulas_witness :
  let p := {| frequency := 343; obstacleSize := 1.0; temperature := 20 |} in
  (0 <? frequency p) = true
  /\ speedOfSound (calculateMetrics p) = 343.4
  /\ wavelength (calculateMetrics p) = 343.4 / 343
  /\ ratio (calculateMetrics p) = 1.0 / (343.4 / 343).
Proof.
  cbv zeta.
  assert (H : (0 <? 343) = true) by (vm_compute; reflexivity).
  split; [exact H|].
  destruct (calculateMetrics_formulas
              {| frequency := 343; obstacleSize := 1.0; temperature := 20 |} H)
    as (Hs & Hw & Hr).
  cbv zeta in Hs, Hw, Hr. cbn [frequency obstacleSize temperature] in Hs, Hw, Hr.
  refine (conj _ (conj _ _)).
  - rewrite Hs. vm_compute; reflexivity.
  - rewrite Hw, Hs. vm_compute; reflexivity.
  - rewrite Hr, Hw, Hs. vm_compute; reflexivity.
Defined.

(** What the model returns outside the documented domain. *)
Example calculateMetrics_zero_frequency :
  calculateMetrics {| frequency := 0; obstacleSize := 1.0; temperature := 20 |}
  = {| wavelength := infinity; speedOfSound := 343.4; ratio := 0;
       behavior := DIFFRACTING |}.
Proof. vm_compute; reflexivity. Qed.

Example calculateMetrics_nan_ratio :
  calculateMetrics {| frequency := 0; obstacleSize := infinity; temperature := 20 |}
  = {| wavelength := infinity; speedOfSound := 343.4; ratio := nan;
       behavior := TRANSITIONAL |}.
Proof. vm_compute; reflexivity. Qed.

(** ** The host model: the invariant and its consequences *)

Opaque drawFrame number_of_Z.

Lemma update_nth_length {A} n (x : A) l : List.length (update_nth n x l) = List.length l.
Proof. revert n; induction l; destruct n; simpl; auto. Qed.

Lemma nth_error_update_nth_eq {A} n (x : A) l :
  (n < List.length l)%nat -> nth_error (update_nth n x l) n = Some x.
Proof. revert n; induction l; destruct n; simpl; intros; try lia; auto. apply IHl; lia. Qed.

Lemma nth_error_update_nth_ne {A} n k (x : A) l :
  n <> k -> nth_error (update_nth n x l) k = nth_error l k.
Proof. revert n k; induction l; destruct n, k; simpl; intros; try congruence; auto. Qed.

Lemma filter_none {A} (f : A -> bool) l : (forall x, In x l -> f x = false) -> filter f l = [].
Proof.
  induction l; simpl; intros H; auto.
  rewrite (H a) by auto. apply IHl. auto.
Qed.

(** Under the invariant every pending callback belongs to the live closure,
    and cancelling the live closure's handle empties the queue. *)
Lemma Inv_cancel w id c :
  Inv w -> cleanup w = Some id -> nth_error (closures w) id = Some c ->
  callbacks (cancelAnimationFrame (animationFrameId c) w) = [].
Proof.
  intros (I1 & _ & _) Hl Hc.
  destruct (animationFrameId c) as [h|] eqn:Hh; cbn.
  - apply filter_none. intros [h' id'] Hin. cbn.
    destruct (I1 _ _ Hin) as (Hid & c' & Hc' & Hh').
    assert (id' = id) by congruence. subst id'.
    assert (c' = c) by congruence. subst c'.
    assert (h' = h) by congruence. subst h'.
    rewrite Nat.eqb_refl. reflexivity.
  - destruct (callbacks w) as [|[h' id'] l] eqn:E; auto.
    destruct (I1 h' id') as (Hid & c' & Hc' & Hh'). { left; auto. }
    congruence.
Qed.

Lemma Inv_no_cleanup_no_callbacks w : Inv w -> cleanup w = None -> callbacks w = [].
Proof.
  intros (I1 & _ & _) Hl.
  destruct (callbacks w) as [|[h' id'] l] eqn:E; auto.
  destruct (I1 h' id') as (Hid & _). { left; auto. }
  congruence.
Qed.

Lemma stop_effect w :
  Inv w ->
  let w1 := stop w in
  callbacks w1 = [] /\ cleanup w1 = None /\ closures w1 = closures w /\
  mounted w1 = mounted w /\ frames w1 = frames w /\ hung w1 = hung w /\
  nextHandle w1 = nextHandle w.
Proof.
  intros HI. unfold stop. cbv zeta.
  destruct (cleanup w) as [id|] eqn:Hl.
  - unfold runCleanup.
    destruct HI as (I1 & I2 & I3).
    destruct (nth_error (closures w) id) as [c|] eqn:Hc.
    + cbn. split. { apply Inv_cancel with (id := id); auto. split; auto. }
      destruct (animationFrameId c); cbn; auto 10.
    + apply nth_error_None in Hc. specialize (I3 _ Hl). lia.
  - split; [apply Inv_no_cleanup_no_callbacks; auto|]. auto 10.
Qed.

(** What one call of [render] can do to the world. *)
Lemma render_cases fuel id w w1 k :
  render fuel id w = (w1, k) ->
  (w1 = w /\ k = Normal)
  \/ (k = Abrupt /\ closures w1 = closures w /\ callbacks w1 = callbacks w /\
      mounted w1 = mounted w /\ cleanup w1 = cleanup w /\
      ((frames w1 = frames w /\ hung w1 = true)
       \/ (exists ops, frames w1 = frames w ++ [(id, ops)]) /\ hung w1 = hung w))
  \/ (k = Normal /\ exists ops c,
        nth_error (closures w) id = Some c /\
        closures w1 =
          update_nth id {| canvas := canvas c; container := container c; ctx := ctx c;
                           props := props c; time := time c + 1;
                           animationFrameId := Some (nextHandle w) |} (closures w) /\
        callbacks w1 = callbacks w ++ [(nextHandle w, id)] /\
        mounted w1 = mounted w /\ cleanup w1 = cleanup w /\
        frames w1 = frames w ++ [(id, ops)] /\ hung w1 = hung w).
Proof.
  unfold render.
  destruct (nth_error (closures w) id) as [c|] eqn:Hc;
    [|intros E; inversion E; left; auto].
  destruct (negb (canvas c) || negb (container c) || negb (ctx c));
    [intros E; inversion E; left; auto|].
  cbv zeta.
  match goal with |- context [if ?b then set_canvas_size ?x ?y w else w] =>
    set (w0 := if b then set_canvas_size x y w else w) end.
  assert (E0 : closures w0 = closures w /\ callbacks w0 = callbacks w /\
               mounted w0 = mounted w /\ cleanup w0 = cleanup w /\
               frames w0 = frames w /\ hung w0 = hung w /\ nextHandle w0 = nextHandle w).
  { subst w0. match goal with |- context [if ?b then _ else _] => destruct b end;
      cbn; auto 10. }
  destruct E0 as (E1 & E2 & E3 & E4 & E5 & E6 & E7).
  destruct (drawFrame _ _ _ _ _ _) as [ops|ops|]; cbn; intros E; inversion E; subst; cbn.
  - right; right. split; [reflexivity|]. exists ops, c.
    rewrite E1, E2, E3, E4, E5, E6, E7. auto 10.
  - right; left. rewrite E1, E2, E3, E4, E5, E6. split; [reflexivity|].
    repeat (split; [reflexivity|]). right. split; eauto.
  - right; left. rewrite E1, E2, E3, E4, E5. split; [reflexivity|].
    repeat (split; [reflexivity|]). left. auto.
Qed.

Lemma framesOf_app j w w1 id ops :
  frames w1 = frames w ++ [(id, ops)] -> j <> id -> framesOf j w1 = framesOf j w.
Proof.
  intros E Hj. unfold framesOf. rewrite E, filter_app. cbn.
  destruct (Nat.eqb_spec id j); [congruence|]. rewrite app_nil_r. reflexivity.
Qed.

(** [render] of closure [id], called when no callback is pending. *)
Lemma Inv_render fuel id w :
  callbacks w = [] -> (id < List.length (closures w))%nat ->
  forall w1 k, render fuel id w = (w1, k) ->
  (forall h id', In (h, id') (callbacks w1) ->
     id' = id /\ k = Normal /\
     exists c, nth_error (closures w1) id = Some c /\ animationFrameId c = Some h)
  /\ List.length (closures w1) = List.length (closures w)
  /\ mounted w1 = mounted w /\ cleanup w1 = cleanup w
  /\ (forall j, j <> id -> framesOf j w1 = framesOf j w).
Proof.
  intros Hcb Hid w1 k E.
  destruct (render_cases _ _ _ _ _ E)
    as [(-> & ->) | [(-> & Hc & Hq & Hm & Hl & Hf) | (-> & ops & c & Hn & Hc & Hq & Hm & Hl & Hf & Hh)]].
  - rewrite Hcb. repeat split; auto; try (match goal with H : In _ [] |- _ => destruct H end).
  - rewrite Hq, Hcb, Hc. repeat split; auto;
      try (match goal with H : In _ [] |- _ => destruct H end).
    intros j Hj. destruct Hf as [(Hf & _) | ((ops & Hf) & _)].
    + unfold framesOf; rewrite Hf; reflexivity.
    + eapply framesOf_app; eauto.
  - rewrite Hq, Hcb, Hc, update_nth_length. cbn. repeat split; auto.
    + destruct H as [H|[]]. congruence.
    + destruct H as [H|[]]. inversion H; subst.
      eexists. split. apply nth_error_update_nth_eq; auto. reflexivity.
    + intros. eapply framesOf_app; eauto.
Qed.

Lemma effect_spec fuel p w :
  Inv w -> cleanup w = None -> mounted w <> None ->
  let w1 := effect fuel p w in
  Inv w1
  /\ (List.length (closures w) <= List.length (closures w1))%nat
  /\ (forall id, cleanup w1 = Some id -> id = List.length (closures w))
  /\ (forall j, (j < List.length (closures w))%nat -> framesOf j w1 = framesOf j w).
Proof.
  intros HI Hl Hm. cbv zeta. unfold effect.
  assert (Hq : callbacks w = []) by (apply Inv_no_cleanup_no_callbacks; auto).
  assert (Hsame : Inv w /\ (List.length (closures w) <= List.length (closures w))%nat
                  /\ (forall id, cleanup w = Some id -> id = List.length (closures w))
                  /\ (forall j, (j < List.length (closures w))%nat ->
                        framesOf j w = framesOf j w)).
  { split; [exact HI|]. split; [lia|]. split; [intros; congruence | auto]. }
  destruct (negb (canvasRef w) || negb (containerRef w)); [exact Hsame|].
  destruct (negb (context2d w)); [exact Hsame|].
  clear Hsame.
  set (c0 := {| canvas := true; container := true; ctx := true; props := p;
                time := 0; animationFrameId := None |}).
  set (w' := set_closures (closures w ++ [c0]) w).
  destruct (render fuel (List.length (closures w)) w') as [w1 k] eqn:E.
  assert (Hlen : List.length (closures w') = S (List.length (closures w))).
  { subst w'. cbn. rewrite length_app. cbn. lia. }
  destruct (Inv_render fuel (List.length (closures w)) w') with (w1 := w1) (k := k)
    as (R1 & R2 & R3 & R4 & R5); auto; [rewrite Hlen; lia|].
  assert (Hf : forall j, (j < List.length (closures w))%nat -> framesOf j w1 = framesOf j w).
  { intros j Hj. rewrite R5 by lia. reflexivity. }
  assert (Hm1 : mounted w1 = mounted w) by (rewrite R3; reflexivity).
  assert (Hl1 : cleanup w1 = None) by (rewrite R4; exact Hl).
  destruct k.
  - split; [|split; [cbn; lia | split; [|exact Hf]]].
    + split; [|split]; cbn.
      * intros h id' Hin. destruct (R1 _ _ Hin) as (-> & _ & c & Hc & Hh). eauto.
      * intros Hn. rewrite Hm1 in Hn. contradiction.
      * intros id Hid. inversion Hid; subst. lia.
    + cbn. intros id Hid. inversion Hid; subst. reflexivity.
  - split; [|split; [cbn; lia | split; [|exact Hf]]].
    + split; [|split]; cbn.
      * intros h id' Hin. destruct (R1 _ _ Hin) as (_ & Hk & _). discriminate.
      * intros _. exact Hl1.
      * intros id Hid. congruence.
    + cbn. intros id Hid. congruence.
Qed.

Lemma runCallback_spec fuel w h :
  Inv w ->
  let w1 := runCallback fuel w h in
  Inv w1
  /\ List.length (closures w1) = List.length (closures w)
  /\ cleanup w1 = cleanup w /\ mounted w1 = mounted w
  /\ (forall j, cleanup w <> Some j -> framesOf j w1 = framesOf j w).
Proof.
  intros HI. cbv zeta. unfold runCallback.
  assert (Hsame : Inv w /\ List.length (closures w) = List.length (closures w)
                  /\ cleanup w = cleanup w /\ mounted w = mounted w
                  /\ (forall j, cleanup w <> Some j -> framesOf j w = framesOf j w)).
  { split; [exact HI|]. auto. }
  destruct (hung w); [exact Hsame|].
  destruct (find _ (callbacks w)) as [[h' id]|] eqn:Hfind; [|exact Hsame].
  clear Hsame.
  apply find_some in Hfind. destruct Hfind as (Hin & Hh). cbn in Hh.
  apply Nat.eqb_eq in Hh. subst h'.
  pose proof HI as (I1 & I2 & I3).
  destruct (I1 _ _ Hin) as (Hl & c & Hc & Hhc).
  set (w' := cancelAnimationFrame (Some h) w).
  assert (Hq : callbacks w' = []).
  { subst w'. rewrite <- Hhc. eapply Inv_cancel; eauto. }
  destruct (render fuel id w') as [w1 k] eqn:E. cbn [fst].
  assert (Hid : (id < List.length (closures w'))%nat) by (subst w'; cbn; apply I3; auto).
  destruct (Inv_render fuel id w') with (w1 := w1) (k := k)
    as (R1 & R2 & R3 & R4 & R5); auto.
  split; [|split; [|split; [|split]]].
  - split; [|split].
    + intros h0 id' Hin0. destruct (R1 _ _ Hin0) as (-> & _ & c' & Hc' & Hh').
      split; [rewrite R4; exact Hl|]. eauto.
    + rewrite R3, R4. exact I2.
    + rewrite R2, R4. exact I3.
  - rewrite R2. reflexivity.
  - rewrite R4. reflexivity.
  - rewrite R3. reflexivity.
  - intros j Hj. rewrite R5 by congruence. reflexivity.
Qed.

Lemma animationFrame_spec fuel w :
  Inv w ->
  let w1 := animationFrame fuel w in
  Inv w1
  /\ List.length (closures w1) = List.length (closures w)
  /\ cleanup w1 = cleanup w /\ mounted w1 = mounted w
  /\ (forall j, cleanup w <> Some j -> framesOf j w1 = framesOf j w).
Proof.
  unfold animationFrame. generalize (map fst (callbacks w)) as hs.
  intros hs. revert w. induction hs as [|h hs IH]; intros w HI; cbn.
  - split; [exact HI|]. auto.
  - destruct (runCallback_spec fuel w h HI) as (A1 & A2 & A3 & A4 & A5).
    destruct (IH _ A1) as (B1 & B2 & B3 & B4 & B5).
    split; [exact B1|]. split; [congruence|]. split; [congruence|]. split; [congruence|].
    intros j Hj. rewrite B5 by congruence. apply A5; auto.
Qed.

Lemma Inv_stopped w1 :
  callbacks w1 = [] -> cleanup w1 = None -> Inv w1.
Proof.
  intros Hq Hl. split; [|split].
  - rewrite Hq. intros ? ? [].
  - auto.
  - rewrite Hl. discriminate.
Qed.

Lemma step_spec fuel w e :
  Inv w ->
  let w1 := step fuel w e in
  Inv w1
  /\ (forall j, Dead j w -> Dead j w1 /\ framesOf j w1 = framesOf j w).
Proof.
  intros HI. cbv zeta. unfold step.
  assert (Hsame : Inv w /\ (forall j, Dead j w -> Dead j w /\ framesOf j w = framesOf j w)).
  { split; [exact HI | auto]. }
  destruct (hung w); [exact Hsame|].
  pose proof HI as (I1 & I2 & I3).
  destruct e as [p | p | | | cv ct c2 cw ch].
  - (* Mount *)
    destruct (mounted w) eqn:Hm; [exact Hsame|].
    set (w' := set_mounted (Some p) w).
    assert (HI' : Inv w') by (split; [exact I1 | split; [discriminate | exact I3]]).
    destruct (effect_spec fuel p w' HI') as (E1 & E2 & E3 & E4).
    { cbn. auto. } { cbn. discriminate. }
    split; [exact E1|]. intros j (Hj & Hd). cbn in E2, E3, E4.
    split; [split; [lia|]|apply E4; auto].
    intros Hc. apply E3 in Hc. lia.
  - (* Update *)
    destruct (mounted w) as [prev|] eqn:Hm; [|exact Hsame].
    destruct (depsChanged prev p).
    + set (w' := set_mounted (Some p) w).
      assert (HI' : Inv w') by (split; [exact I1 | split; [discriminate | exact I3]]).
      destruct (stop_effect w' HI') as (S1 & S2 & S3 & S4 & S5 & S6 & S7).
      destruct (effect_spec fuel p (stop w')) as (E1 & E2 & E3 & E4).
      { apply Inv_stopped; auto. } { exact S2. }
      { rewrite S4. cbn. discriminate. }
      rewrite S3 in E2, E3, E4. cbn in E2, E3, E4.
      split; [exact E1|]. intros j (Hj & Hd).
      split; [split; [lia|]|].
      * intros Hc. apply E3 in Hc. lia.
      * rewrite E4 by auto. unfold framesOf. rewrite S5. reflexivity.
    + split; [split; [exact I1 | split; [discriminate | exact I3]]|]. auto.
  - (* Unmount *)
    destruct (mounted w) as [prev|] eqn:Hm; [|exact Hsame].
    destruct (stop_effect w HI) as (S1 & S2 & S3 & S4 & S5 & S6 & S7).
    split.
    + apply Inv_stopped; cbn; auto.
    + intros j (Hj & Hd). split; [split|]; cbn.
      * rewrite S3; auto.
      * rewrite S2; discriminate.
      * unfold framesOf; cbn. rewrite S5. reflexivity.
  - (* AnimationFrame *)
    destruct (animationFrame_spec fuel w HI) as (A1 & A2 & A3 & A4 & A5).
    split; [exact A1|]. intros j (Hj & Hd).
    split; [split; [lia | congruence]|]. apply A5; auto.
  - (* Surface *)
    split; [exact HI|]. auto.
Qed.

Lemma run_spec fuel es : forall w,
  Inv w ->
  Inv (run fuel w es)
  /\ (forall j, Dead j w ->
        Dead j (run fuel w es) /\ framesOf j (run fuel w es) = framesOf j w).
Proof.
  induction es as [|e es IH]; intros w HI.
  - split; auto.
  - change (run fuel w (e :: es)) with (run fuel (step fuel w e) es).
    destruct (step_spec fuel w e HI) as (A1 & A2).
    destruct (IH _ A1) as (B1 & B2).
    split; [exact B1|]. intros j Hj.
    destruct (A2 j Hj) as (A3 & A4). destruct (B2 j A3) as (B3 & B4).
    split; [exact B3 | congruence].
Qed.

Lemma Inv_initial cv ct c2 cw ch : Inv (initial cv ct c2 cw ch).
Proof. apply Inv_stopped; reflexivity. Qed.

Lemma Dead_no_pending j w : Inv w -> cleanup w <> Some j -> pendingOf j w = [].
Proof.
  intros (I1 & _) Hd. unfold pendingOf. apply filter_none.
  intros [h id] Hin. cbn. destruct (I1 _ _ Hin) as (Hl & _).
  destruct (Nat.eqb_spec id j); congruence.
Qed.

Lemma step_kills fuel w e id :
  Inv w -> cleanup w = Some id -> runsCleanup w e = true ->
  Inv (step fuel w e) /\ Dead id (step fuel w e)
  /\ framesOf id (step fuel w e) = framesOf id w.
Proof.
  intros HI Hl Hr. unfold runsCleanup in Hr. unfold step.
  destruct (hung w); [discriminate|]. cbn in Hr.
  pose proof HI as (I1 & I2 & I3).
  destruct e as [p | p | | | cv ct c2 cw ch]; try discriminate;
    destruct (mounted w) as [prev|] eqn:Hm; try discriminate.
  - rewrite Hr.
    set (w' := set_mounted (Some p) w).
    assert (HI' : Inv w') by (split; [exact I1 | split; [discriminate | exact I3]]).
    destruct (stop_effect w' HI') as (S1 & S2 & S3 & S4 & S5 & S6 & S7).
    destruct (effect_spec fuel p (stop w')) as (E1 & E2 & E3 & E4).
    { apply Inv_stopped; auto. } { exact S2. }
    { rewrite S4. cbn. discriminate. }
    rewrite S3 in E2, E3, E4. cbn in E2, E3, E4.
    pose proof (I3 _ Hl) as Hlt.
    split; [exact E1|]. split; [split; [lia|]|].
    + intros Hc. apply E3 in Hc. lia.
    + rewrite E4 by auto. unfold framesOf. rewrite S5. reflexivity.
  - destruct (stop_effect w HI) as (S1 & S2 & S3 & S4 & S5 & S6 & S7).
    split; [apply Inv_stopped; cbn; auto|].
    split; [split|]; cbn.
    + rewrite S3. auto.
    + rewrite S2. discriminate.
    + unfold framesOf; cbn. rewrite S5. reflexivity.
Qed.

Lemma idle_frame fuel w : callbacks w = [] -> step fuel w AnimationFrame = w.
Proof.
  intros Hq. unfold step, animationFrame. rewrite Hq. cbn. destruct (hung w); reflexivity.
Qed.

Lemma idle_frames fuel w n :
  callbacks w = [] -> run fuel w (repeat AnimationFrame n) = w.
Proof.
  intros Hq. induction n as [|n IH]; [reflexivity|].
  cbn [repeat]. change (run fuel w (AnimationFrame :: repeat AnimationFrame n))
    with (run fuel (step fuel w AnimationFrame) (repeat AnimationFrame n)).
  rewrite idle_frame by exact Hq. exact IH.
Qed.

Lemma effect_frames fuel p w :
  callbacks w = [] ->
  let w1 := effect fuel p w in
  (frames w1 = frames w
   \/ exists ops, frames w1 = frames w ++ [(List.length (closures w), ops)])
  /\ (hung w1 = true -> hung w = false -> callbacks w1 = []).
Proof.
  intros Hq. cbv zeta. unfold effect.
  destruct (negb (canvasRef w) || negb (containerRef w)); [split; auto|].
  destruct (negb (context2d w)); [split; auto|].
  match goal with |- context [render fuel ?i ?w'] =>
    destruct (render fuel i w') as [w1 k] eqn:E end.
  destruct (render_cases _ _ _ _ _ E)
    as [(-> & ->) | [(-> & Hc & Hq' & Hm & Hl & Hf) | (-> & ops & c & Hn & Hc & Hq' & Hm & Hl & Hf & Hh)]];
    cbn in *.
  - split; [auto | intros; congruence].
  - split.
    + destruct Hf as [(Hf & _) | ((ops & Hf) & _)]; [left | right; exists ops]; auto.
    + intros _ _. congruence.
  - split; [right; exists ops; auto|]. intros; congruence.
Qed.

(** Start, then stop at once: at most one frame was drawn, no callback is
    pending, and the frames that the browser runs afterwards draw nothing. *)
Lemma start_stop fuel cv ct c2 cw ch p n :
  let w := run fuel (initial cv ct c2 cw ch) [Mount p; Unmount] in
  (List.length (frames w) <= 1)%nat /\ callbacks w = []
  /\ run fuel w (repeat AnimationFrame n) = w.
Proof.
  cbv zeta.
  assert (G : let w := run fuel (initial cv ct c2 cw ch) [Mount p; Unmount] in
              (List.length (frames w) <= 1)%nat /\ callbacks w = []).
  2:{ destruct G as (G1 & G2). split; [exact G1|]. split; [exact G2|].
      apply idle_frames; exact G2. }
  cbv zeta. unfold run. cbn [fold_left].
  set (w0 := initial cv ct c2 cw ch).
  assert (H1 : step fuel w0 (Mount p) = effect fuel p (set_mounted (Some p) w0)) by reflexivity.
  rewrite H1. set (w1 := set_mounted (Some p) w0).
  assert (HI1 : Inv w1) by (apply Inv_stopped; reflexivity).
  destruct (effect_spec fuel p w1 HI1) as (E1 & _); [reflexivity | discriminate |].
  destruct (effect_frames fuel p w1) as (F1 & F2); [reflexivity|].
  set (w2 := effect fuel p w1) in *.
  assert (Hlen : (List.length (frames w2) <= 1)%nat).
  { destruct F1 as [F1 | (ops & F1)]; rewrite F1; cbn; lia. }
  unfold step. destruct (hung w2) eqn:Hh.
  - split; [exact Hlen|]. apply F2; auto.
  - destruct (mounted w2) eqn:Hm.
    + destruct (stop_effect w2 E1) as (S1 & S2 & S3 & S4 & S5 & S6 & S7).
      cbn. rewrite S5. split; auto.
    + split; [exact Hlen|]. apply Inv_no_cleanup_no_callbacks; auto. apply E1; auto.
Qed.

(** A frame is never drawn or scheduled after the cleanup has run. *)
Lemma silent_after_stop fuel cv ct c2 cw ch es id e es' :
  let w := run fuel (initial cv ct c2 cw ch) es in
  cleanup w = Some id -> runsCleanup w e = true ->
  let w' := run fuel (step fuel w e) es' in
  pendingOf id w' = [] /\ framesOf id w' = framesOf id w.
Proof.
  cbv zeta. intros Hl Hr.
  destruct (run_spec fuel es (initial cv ct c2 cw ch) (Inv_initial _ _ _ _ _)) as (HI & _).
  destruct (step_kills fuel _ e id HI Hl Hr) as (K1 & K2 & K3).
  destruct (run_spec fuel es' _ K1) as (R1 & R2).
  destruct (R2 id K2) as (D1 & D2).
  split; [|congruence].
  apply Dead_no_pending; [exact R1 | apply D1].
Qed.
(** The clock after the effect has run on a world without cleanup: 1 when a
    first frame was drawn, none when the surface is missing or the frame did
    not complete. *)
Lemma effect_clock fuel p w :
  cleanup w = None ->
  clock (effect fuel p w) = Some 1 \/ clock (effect fuel p w) = None.
Proof.
  intros Hl. unfold effect.
  destruct (negb (canvasRef w) || negb (containerRef w));
    [right; unfold clock; rewrite Hl; reflexivity|].
  destruct (negb (context2d w)); [right; unfold clock; rewrite Hl; reflexivity|].
  unfold render. cbn [closures set_closures].
  rewrite nth_error_app2 by lia. rewrite Nat.sub_diag. cbn [nth_error].
  cbn [canvas container ctx negb orb]. cbv zeta.
  match goal with |- context [drawFrame ?a ?b ?c ?d ?e ?f] =>
    destruct (drawFrame a b c d e f) as [ops|ops|] end.
  - left. unfold clock. cbn.
    match goal with |- context [if ?b then _ else _] => destruct b end; cbn;
      rewrite nth_error_update_nth_eq by (rewrite length_app; cbn; lia);
      cbn; reflexivity.
  - right. unfold clock. cbn.
    match goal with |- context [if ?b then _ else _] => destruct b end; cbn;
      rewrite Hl; reflexivity.
  - right. unfold clock. cbn.
    match goal with |- context [if ?b then _ else _] => destruct b end; cbn;
      rewrite Hl; reflexivity.
Qed.

Lemma stop_cleanup w : cleanup (stop w) = None.
Proof.
  unfold stop. destruct (cleanup w) eqn:E; [reflexivity | exact E].
Qed.

Lemma clock_and_dependencies fuel w p prev :
  hung w = false -> mounted w = Some prev ->
  (depsChanged prev p = false -> clock (step fuel w (Update p)) = clock w)
  /\ (depsChanged prev p = true ->
      clock (step fuel w (Update p)) = Some 1 \/ clock (step fuel w (Update p)) = None).
Proof.
  intros Hh Hm. unfold step. rewrite Hh, Hm. split; intros ->.
  - reflexivity.
  - apply effect_clock. apply stop_cleanup.
Qed.

Lemma App_change_is_dependency_change (a : AppState) (f : SimulationParams -> SimulationParams) :
  AppInv a -> depsChanged (App_props a) (App_props (setParams f a)) = true /\ AppInv (setParams f a).
Proof.
  intros (H1 & H2). split.
  - unfold depsChanged. cbn.
    destruct (Nat.eqb_spec (ref (metricsMemo a)) (S (nextRef a))); [lia|].
    rewrite !andb_false_r. reflexivity.
  - split; cbn; lia.
Qed.

(** C4: once the cleanup has run ([stop()] has returned), the closure it
    belonged to has no pending callback and draws no further frame, whatever
    happens next; and starting the renderer then stopping it at once leaves
    at most one drawn frame and no pending callback, so that later animation
    frames change nothing. *)
Theorem no_frame_after_stop fuel cv ct c2 cw ch :
  (forall es id e es',
     let w := run fuel (initial cv ct c2 cw ch) es in
     cleanup w = Some id -> runsCleanup w e = true ->
     let w' := run fuel (step fuel w e) es' in
     pendingOf id w' = [] /\ framesOf id w' = framesOf id w)
  /\ (forall p n,
        let w := run fuel (initial cv ct c2 cw ch) [Mount p; Unmount] in
        (List.length (frames w) <= 1)%nat /\ callbacks w = []
        /\ run fuel w (repeat AnimationFrame n) = w).
Proof.
  split.
  - intros es id e es'. apply silent_after_stop.
  - intros p n. apply start_stop.
Qed.

(** Three frames drawn, then the component is unmounted: two more animation
    frames draw nothing and nothing stays scheduled. *)
Lemma no_frame_after_stop_witness :
  cleanup world3 = Some 0%nat
  /\ runsCleanup world3 Unmount = true
  /\ List.length (framesOf 0 world3) = 3%nat
  /\ pendingOf 0 (run 100 (step 100 world3 Unmount) [AnimationFrame; AnimationFrame]) = []
  /\ framesOf 0 (run 100 (step 100 world3 Unmount) [AnimationFrame; AnimationFrame])
     = framesOf 0 world3.
Proof.
  assert (H1 : cleanup world3 = Some 0%nat) by (vm_compute; reflexivity).
  assert (H2 : runsCleanup world3 Unmount = true) by (vm_compute; reflexivity).
  assert (H3 : List.length (framesOf 0 world3) = 3%nat) by (vm_compute; reflexivity).
  refine (conj H1 (conj H2 (conj H3 _))).
  exact (proj1 (no_frame_after_stop 100 true true true 800%Z 480%Z)
           [Mount props0; AnimationFrame; AnimationFrame] 0%nat Unmount
           [AnimationFrame; AnimationFrame] H1 H2).
Defined.

(** C3, as the claim has it, fails: after three frames the clock is at 3;
    the frequency slider moves, the effect runs again and the clock is back
    at 1 (its first frame is drawn). *)
Lemma clock_reset_by_parameter_change :
  mounted world3 = Some props0
  /\ canvasRef world3 = true /\ containerRef world3 = true /\ context2d world3 = true
  /\ clock world3 = Some 3
  /\ clock (step 100 world3 (Update props1)) = Some 1.
Proof. vm_compute. repeat split. Qed.

(** C3, as the code has it: the tick counter lives in one run of the effect.
    A component render whose dependencies are unchanged leaves it alone; one
    with a changed frequency, obstacle size or metrics object runs the
    cleanup and the effect again, whose counter starts at 0 and stands at 1
    after its first frame (there is none if the surface is missing or the
    frame does not complete); unmounting drops it; and every [setParams] of
    the App changes the metrics object, hence the dependencies. *)
Theorem clock_restarts_with_the_effect fuel w p prev :
  hung w = false -> mounted w = Some prev ->
  (depsChanged prev p = false -> clock (step fuel w (Update p)) = clock w)
  /\ (depsChanged prev p = true ->
      clock (step fuel w (Update p)) = Some 1 \/ clock (step fuel w (Update p)) = None)
  /\ clock (step fuel w Unmount) = None
  /\ (forall a f, AppInv a ->
        depsChanged (App_props a) (App_props (setParams f a)) = true).
Proof.
  intros Hh Hm.
  destruct (clock_and_dependencies fuel w p prev Hh Hm) as (H1 & H2).
  split; [exact H1|]. split; [exact H2|]. split.
  - unfold step. rewrite Hh, Hm. unfold clock. cbn. rewrite stop_cleanup. reflexivity.
  - intros a f Ha. apply App_change_is_dependency_change; exact Ha.
Qed.

Lemma clock_restarts_with_the_effect_witness :
  hung world3 = false /\ mounted world3 = Some props0
  /\ depsChanged props0 props1 = true
  /\ (clock (step 100 world3 (Update props1)) = Some 1
      \/ clock (step 100 world3 (Update props1)) = None).
Proof.
  assert (H1 : hung world3 = false) by (vm_compute; reflexivity).
  assert (H2 : mounted world3 = Some props0) by (vm_compute; reflexivity).
  assert (H3 : depsChanged props0 props1 = true) by (vm_compute; reflexivity).
  refine (conj H1 (conj H2 (conj H3 _))).
  exact (proj1 (proj2 (clock_restarts_with_the_effect 100 world3 props1 props0 H1 H2)) H3).
Defined.

Transparent drawFrame number_of_Z.

(** ** Wavelength against frequency *)

(** C9, as the claim has it, fails: 60 Hz and the next binary64 number above
    it give the same wavelength at 20 degrees, the quotients rounding to one
    value; the wavelength at the higher frequency is not strictly less. *)
Lemma wavelength_not_strictly_decreasing :
  (0 <? calculateSpeedOfSound 20) = true
  /\ (0 <? 60) = true
  /\ (60 <? 60.00000000000001) = true
  /\ wavelength (calculateMetrics
       {| frequency := 60.00000000000001; obstacleSize := 1.0; temperature := 20 |})
     = wavelength (calculateMetrics
       {| frequency := 60; obstacleSize := 1.0; temperature := 20 |})
  /\ (wavelength (calculateMetrics
        {| frequency := 60.00000000000001; obstacleSize := 1.0; temperature := 20 |})
      <? wavelength (calculateMetrics
        {| frequency := 60; obstacleSize := 1.0; temperature := 20 |})) = false.
Proof. vm_compute. repeat split. Qed.

(** C9, as the code has it: at a fixed temperature with a positive speed of
    sound and a fixed obstacle size, the wavelength is non-increasing in the
    frequency: for finite frequencies 0 < f1 < f2 the wavelength at f2 is at
    most the wavelength at f1. *)
Theorem wavelength_nonincreasing (T size f1 f2 : float) :
  (0 <? calculateSpeedOfSound T) = true ->
  (0 <? f1) = true -> (f1 <? f2) = true -> is_finite f2 = true ->
  (wavelength (calculateMetrics
     {| frequency := f2; obstacleSize := size; temperature := T |})
   <=? wavelength (calculateMetrics
     {| frequency := f1; obstacleSize := size; temperature := T |})) = true.
Proof.
  intros Hs H1 H12 Hf. cbn [calculateMetrics wavelength frequency temperature].
  apply div_monotone; assumption.
Qed.

Lemma wavelength_nonincreasing_witness :
  (0 <? calculateSpeedOfSound 20) = true
  /\ (0 <? 343) = true /\ (343 <? 440) = true /\ is_finite 440 = true
  /\ (wavelength (calculateMetrics
        {| frequency := 440; obstacleSize := 1.0; temperature := 20 |})
      <=? wavelength (calculateMetrics
        {| frequency := 343; obstacleSize := 1.0; temperature := 20 |})) = true.
Proof.
  assert (H0 : (0 <? calculateSpeedOfSound 20) = true) by (vm_compute; reflexivity).
  assert (H1 : (0 <? 343) = true) by (vm_compute; reflexivity).
  assert (H2 : (343 <? 440) = true) by (vm_compute; reflexivity).
  assert (H3 : is_finite 440 = true) by (vm_compute; reflexivity).
  exact (conj H0 (conj H1 (conj H2 (conj H3
           (wavelength_nonincreasing 20 1.0 343 440 H0 H1 H2 H3))))).
Defined.

(** ** The diffraction factor *)

(** C7: on every frame the shadow is filled with opacity one minus
    clamp(1.5 - ratio, 0, 1), which is what [diffractionFactor] computes for
    every number; the factor is 0 at ratio 1.5 and 1 at ratio 0.5; it does
    not increase when the ratio grows; and on every finite ratio it is,
    without rounding error, the real function clamp(3/2 - x, 0, 1), which is
    continuous. *)
Theorem diffractionFactor_is_clamp :
  (forall r, diffractionFactor r = clamp (1.5 - r) 0 1)
  /\ (forall fuel width height size m t ops,
        drawFrame fuel width height size m t = Returned ops ->
        In (fillStyle (Rgba 9 9 11 (1 - clamp (1.5 - ratio m) 0 1))) ops)
  /\ diffractionFactor 1.5 = 0
  /\ diffractionFactor 0.5 = 1
  /\ (forall r1 r2, (r1 <=? r2) = true ->
        (diffractionFactor r2 <=? diffractionFactor r1) = true)
  /\ (forall r, is_finite r = true ->
        value (diffractionFactor r) = clampR (3 / 2 - value r))
  /\ continuity (fun x : R => clampR (3 / 2 - x)).
Proof.
  split; [|split; [|split; [|split; [|split; [|split]]]]].
  - intros r. unfold diffractionFactor. apply max_min_is_clamp.
  - intros fuel width height size m t ops H.
    destruct (drawFrame_passes _ _ _ _ _ _ _ H) as (pre & inc & rf & post & -> & _).
    apply in_or_app; right. apply in_or_app; right. apply in_or_app; left.
    unfold shadowOps. left. unfold diffractionFactor. rewrite max_min_is_clamp. reflexivity.
  - vm_compute; reflexivity.
  - vm_compute; reflexivity.
  - exact diffractionFactor_antitone.
  - exact diffractionFactor_exact.
  - exact factor_continuous.
Qed.

(** The first frame of the initial parameters, and the factor at two ratios. *)
Lemma diffractionFactor_is_clamp_witness :
  drawFrame 100 800 480 1.0 metrics0 0 = Returned frame0
  /\ In (fillStyle (Rgba 9 9 11 (1 - clamp (1.5 - ratio metrics0) 0 1))) frame0
  /\ (0.7 <=? 0.9) = true
  /\ (diffractionFactor 0.9 <=? diffractionFactor 0.7) = true
  /\ is_finite 0.9 = true
  /\ value (diffractionFactor 0.9) = clampR (3 / 2 - value 0.9).
Proof.
  assert (H1 : drawFrame 100 800 480 1.0 metrics0 0 = Returned frame0)
    by (vm_compute; reflexivity).
  assert (H2 : (0.7 <=? 0.9) = true) by (vm_compute; reflexivity).
  assert (H3 : is_finite 0.9 = true) by (vm_compute; reflexivity).
  destruct diffractionFactor_is_clamp as (_ & T2 & _ & _ & T5 & T6 & _).
  exact (conj H1 (conj (T2 100%nat 800 480 1.0 metrics0 0 frame0 H1)
           (conj H2 (conj (T5 0.7 0.9 H2) (conj H3 (T6 0.9 H3)))))).
Defined.

(** ** C5: a wavelength that is not finite

    [render] has no test of the wavelength: it is multiplied into
    [wavelengthPx] and used as the step of both wave loops.  A frequency of
    0 gives the wavelength [Infinity]; the frame of tick 3 on a surface of
    800 x 480 then draws the incident wavefront of radius 6 around the
    source, so wave geometry is drawn in a frame whose wavelength is not
    finite. *)
Lemma infinite_wavelength_draws_a_wavefront :
  wavelength metricsZ = infinity
  /\ is_finite (wavelength metricsZ) = false
  /\ drawFrame 100 800 480 1.0 metricsZ 3 = Returned frameZ
  /\ incidentWaves 100 (phaseOffset 3 metricsZ 480) (Math_hypot 800 480)
       (wavelengthPx metricsZ 480) (800 * 0.15) (480 / 2)
     = Returned [strokeStyle (Rgba 56 189 248 (Math_max 0 (1 - 6 / (Math_hypot 800 480 * 0.8))));
                 beginPath; arc 120 240 6 0 (Math_PI * 2); stroke]
  /\ filter isArc frameZ = [arc 120 240 6 0 (Math_PI * 2); arc 120 240 5 0 (Math_PI * 2)].
Proof. vm_compute. repeat split. Qed.

(** C5, as the code has it.  With the wavelength [Infinity], a positive
    scale and a tick [t] whose [2 t] is finite and not negative, the incident
    loop draws one wavefront, of the finite radius [2 t], when that is below
    the maximal radius, and none otherwise.  With the wavelength [NaN] neither
    wave loop draws.  For metrics that [calculateMetrics] made, the reflected
    pass draws nothing in both cases, and the frame returns whenever its two
    grid loops do, so that [render] goes on to request the next frame. *)
Theorem wavefronts_of_a_non_finite_wavelength
    (fuel : nat) (m : AcousticMetrics) (t width height : float) :
  (wavelength m = infinity ->
   (0 <? PIXELS_PER_METER height) = true ->
   is_finite (t * 2) = true -> (t * 2 <? 0) = false ->
   incidentWaves (S (S fuel)) (phaseOffset t m height) (Math_hypot width height)
     (wavelengthPx m height) (width * 0.15) (height / 2)
   = if t * 2 <? Math_hypot width height then
       Returned [strokeStyle (Rgba 56 189 248
                   (Math_max 0 (1 - t * 2 / (Math_hypot width height * 0.8))));
                 beginPath;
                 arc (width * 0.15) (height / 2) (t * 2) 0 (Math_PI * 2);
                 stroke]
     else Returned [])
  /\ (wavelength m = nan ->
      incidentWaves (S fuel) (phaseOffset t m height) (Math_hypot width height)
        (wavelengthPx m height) (width * 0.15) (height / 2) = Returned []
      /\ reflectedPass (S fuel) width height m t (reflectionOpacity (ratio m)) = Returned [])
  /\ (forall p,
        m = calculateMetrics p ->
        wavelength m = infinity \/ wavelength m = nan ->
        reflectedPass fuel width height m t (reflectionOpacity (ratio m)) = Returned [])
  /\ (forall p size gc gr,
        m = calculateMetrics p ->
        (wavelength m = infinity /\ (0 <? PIXELS_PER_METER height) = true
         /\ is_finite (t * 2) = true /\ (t * 2 <? 0) = false)
        \/ wavelength m = nan ->
        gridColumns (S (S fuel)) 0 width height (PIXELS_PER_METER height) = Returned gc ->
        gridRows (S (S fuel)) 0 width height (PIXELS_PER_METER height) = Returned gr ->
        exists ops, drawFrame (S (S fuel)) width height size m t = Returned ops).
Proof.
  assert (P1 : wavelength m = infinity ->
   (0 <? PIXELS_PER_METER height) = true ->
   is_finite (t * 2) = true -> (t * 2 <? 0) = false ->
   incidentWaves (S (S fuel)) (phaseOffset t m height) (Math_hypot width height)
     (wavelengthPx m height) (width * 0.15) (height / 2)
   = if t * 2 <? Math_hypot width height then
       Returned [strokeStyle (Rgba 56 189 248
                   (Math_max 0 (1 - t * 2 / (Math_hypot width height * 0.8))));
                 beginPath;
                 arc (width * 0.15) (height / 2) (t * 2) 0 (Math_PI * 2);
                 stroke]
     else Returned []).
  { intros Hw Hp Hf Hn. unfold phaseOffset, wavelengthPx. rewrite Hw.
    rewrite (infinity_times_positive _ Hp), (rem_by_infinity _ Hf).
    apply incidentWaves_infinite; assumption. }
  assert (P2 : forall f, wavelength m = nan ->
      incidentWaves (S f) (phaseOffset t m height) (Math_hypot width height)
        (wavelengthPx m height) (width * 0.15) (height / 2) = Returned []
      /\ reflectedPass (S f) width height m t (reflectionOpacity (ratio m)) = Returned []).
  { intros f Hw. unfold reflectedPass, phaseOffset, wavelengthPx. rewrite Hw.
    rewrite nan_times, rem_by_nan. split.
    - apply incidentWaves_nan.
    - destruct (0.8 <? ratio m); [apply reflectedWaves_nan | reflexivity]. }
  assert (P3 : forall f p, m = calculateMetrics p ->
        wavelength m = infinity \/ wavelength m = nan ->
        reflectedPass f width height m t (reflectionOpacity (ratio m)) = Returned []).
  { intros f p -> Hw. unfold reflectedPass.
    assert (G : (0.8 <? ratio (calculateMetrics p)) = false).
    { cbn [calculateMetrics ratio wavelength] in *.
      destruct Hw as [-> | ->]; apply ratio_of_infinite_wavelength. }
    rewrite G. reflexivity. }
  split; [exact P1 | split; [exact (P2 fuel) | split; [exact (P3 fuel) |]]].
  intros p size gc gr Hm Hw Hgc Hgr.
  assert (Hrf := P3 (S (S fuel)) p Hm
                   (match Hw with or_introl (conj H _) => or_introl H
                                | or_intror H => or_intror H end)).
  destruct Hw as [(Hw & Hp & Hf & Hn) | Hw].
  - specialize (P1 Hw Hp Hf Hn).
    destruct (t * 2 <? Math_hypot width height);
      eapply drawFrame_returns; [exact Hgc | exact Hgr | exact P1 | exact Hrf
                                | exact Hgc | exact Hgr | exact P1 | exact Hrf].
  - eapply drawFrame_returns; [exact Hgc | exact Hgr | | exact Hrf].
    exact (proj1 (P2 (S fuel) Hw)).
Qed.

Lemma wavefronts_of_a_non_finite_wavelength_witness :
  wavelength metricsZ = infinity
  /\ (0 <? PIXELS_PER_METER 480) = true
  /\ is_finite (3 * 2) = true /\ (3 * 2 <? 0) = false
  /\ incidentWaves 100 (phaseOffset 3 metricsZ 480) (Math_hypot 800 480)
       (wavelengthPx metricsZ 480) (800 * 0.15) (480 / 2)
     = if 3 * 2 <? Math_hypot 800 480 then
         Returned [strokeStyle (Rgba 56 189 248
                     (Math_max 0 (1 - 3 * 2 / (Math_hypot 800 480 * 0.8))));
                   beginPath;
                   arc (800 * 0.15) (480 / 2) (3 * 2) 0 (Math_PI * 2);
                   stroke]
       else Returned [].
Proof.
  assert (H1 : wavelength metricsZ = infinity) by (vm_compute; reflexivity).
  assert (H2 : (0 <? PIXELS_PER_METER 480) = true) by (vm_compute; reflexivity).
  assert (H3 : is_finite (3 * 2) = true) by (vm_compute; reflexivity).
  assert (H4 : (3 * 2 <? 0) = false) by (vm_compute; reflexivity).
  exact (conj H1 (conj H2 (conj H3 (conj H4
           (proj1 (wavefronts_of_a_non_finite_wavelength 98 metricsZ 3 800 480)
              H1 H2 H3 H4))))).
Defined.

(** A wavelength of [-Infinity], which a frequency of [-0] gives: the
    incident loop steps to [-Infinity] and stays there. *)
Lemma incidentWaves_neg_infinity fuel maxR sx cy :
  (neg_infinity <? maxR) = true ->
  incidentWaves fuel neg_infinity maxR neg_infinity sx cy = OutOfFuel.
Proof.
  intros H. induction fuel as [|fuel IH]; [reflexivity|].
  cbn [incidentWaves]. rewrite H. cbv zeta.
  replace (neg_infinity + neg_infinity) with neg_infinity by (vm_compute; reflexivity).
  rewrite IH. unfold ctx_arc.
  replace (is_finite neg_infinity) with false by (vm_compute; reflexivity).
  rewrite andb_false_r. reflexivity.
Qed.

Example negative_zero_frequency_frame :
  wavelength (calculateMetrics {| frequency := -0; obstacleSize := 1.0; temperature := 20 |})
    = neg_infinity
  /\ drawFrame 100 800 480 1.0
       (calculateMetrics {| frequency := -0; obstacleSize := 1.0; temperature := 20 |}) 3
     = OutOfFuel.
Proof. vm_compute. split; reflexivity. Qed.

(** ** A surface of 0 x 0

    On a surface without width and height every loop condition is false at
    once: the frame returns and the loop goes on. *)

Opaque drawFrame number_of_Z.

Lemma number_of_Z_0 : number_of_Z 0 = 0.
Proof. vm_compute; reflexivity. Qed.

Lemma mount_empty_surface fuel p :
  step (S fuel) (initial true true true 0 0) (Mount p)
  = emptyWorld true true true p 1 (0 + 1).
Proof.
  unfold step, initial, effect, render.
  cbn -[drawFrame number_of_Z emptyFrame].
  rewrite number_of_Z_0, drawFrame_empty_surface. reflexivity.
Qed.

Lemma tick_empty_surface fuel cv ct c2 p k tm :
  step (S fuel) (emptyWorld cv ct c2 p k tm) AnimationFrame
  = emptyWorld cv ct c2 p (S k) (tm + 1).
Proof.
  unfold step, emptyWorld, animationFrame, runCallback, render.
  cbn -[drawFrame number_of_Z emptyFrame Nat.eqb].
  rewrite Nat.eqb_refl.
  cbn -[drawFrame number_of_Z emptyFrame Nat.eqb].
  rewrite number_of_Z_0, drawFrame_empty_surface.
  cbn -[drawFrame number_of_Z emptyFrame Nat.eqb].
  unfold set_closures, set_nextHandle, set_callbacks, add_frame.
  cbn -[drawFrame number_of_Z emptyFrame Nat.eqb].
  rewrite repeat_cons. reflexivity.
Qed.

Lemma ticks_empty_surface fuel cv ct c2 p n : forall k tm,
  exists tm', run (S fuel) (emptyWorld cv ct c2 p k tm) (repeat AnimationFrame n)
              = emptyWorld cv ct c2 p (n + k) tm'.
Proof.
  induction n as [|n IH]; intros k tm; [exists tm; reflexivity|].
  cbn [repeat].
  change (run (S fuel) (emptyWorld cv ct c2 p k tm) (AnimationFrame :: repeat AnimationFrame n))
    with (run (S fuel) (step (S fuel) (emptyWorld cv ct c2 p k tm) AnimationFrame)
            (repeat AnimationFrame n)).
  rewrite tick_empty_surface.
  destruct (IH (S k) (tm + 1)) as (tm' & E). exists tm'. rewrite E.
  replace (n + S k)%nat with (S n + k)%nat by lia. reflexivity.
Qed.

(** On a surface that has a size again, the pending callback draws. *)
Lemma tick_after_resize fuel cv ct c2 cv' ct' c2' cw ch p k tm ops :
  drawFrame fuel (number_of_Z cw) (number_of_Z ch) (WaveCanvasProps.obstacleSize p)
    (val (WaveCanvasProps.metrics p)) tm = Returned ops ->
  let w := run fuel (emptyWorld cv ct c2 p k tm) [Surface cv' ct' c2' cw ch; AnimationFrame] in
  frames w = frames (emptyWorld cv ct c2 p k tm) ++ [(0%nat, ops)]
  /\ callbacks w = [(S k, 0%nat)] /\ hung w = false.
Proof.
  intros H. cbv zeta.
  unfold run, step, emptyWorld, animationFrame, runCallback, render, set_surface.
  cbn -[drawFrame number_of_Z emptyFrame Nat.eqb Z.eqb].
  rewrite Nat.eqb_refl.
  cbn -[drawFrame number_of_Z emptyFrame Nat.eqb Z.eqb].
  rewrite H.
  destruct (negb (0 =? cw)%Z || negb (0 =? ch)%Z);
    cbn -[drawFrame number_of_Z emptyFrame Nat.eqb Z.eqb]; auto.
Qed.

Transparent drawFrame number_of_Z.

(** The surface of 0 x 0 gets its size after two frames: the third frame
    draws on it and the loop goes on. *)
Example empty_surface_recovers :
  List.length (frames (run 100 (initial true true true 0 0)
                         [Mount props0; AnimationFrame;
                          Surface true true true 800 480; AnimationFrame])) = 3%nat
  /\ callbacks (run 100 (initial true true true 0 0)
                  [Mount props0; AnimationFrame;
                   Surface true true true 800 480; AnimationFrame]) = [(3%nat, 0%nat)].
Proof. vm_compute. split; reflexivity. Qed.

(** * Further properties of the code *)

Section Rounding_facts.
Local Open Scope Z_scope.

Lemma RND_RNDz v z : RND v z -> RNDz v z.
Proof.
  intros [(H0 & ->) | [H | H]]; [left; split; eauto | right; left; exact H | right; right; exact H].
Qed.

Lemma NE_self k : NE (IZR k) k.
Proof. left. lra. Qed.

Lemma Rnd_self s m e :
  bounded prec emax m e = true ->
  Rnd s (IZR (Zpos m) * pow2 e) (S754_finite s m e).
Proof.
  intros B. destruct (bounded_canonical m e B) as (C1 & C2 & C3 & C4).
  exists (Zpos (digits2_pos m) + e), (Zpos m).
  split; [apply mag_mantissa|]. rewrite C1. split.
  - replace (IZR (Zpos m) * pow2 e / pow2 e)%R with (IZR (Zpos m));
      [apply NE_self|]. pose proof (pow2_pos e). field. lra.
  - unfold float_of. destruct (Z.eqb_spec (Zpos m) (2 ^ 53)); [lia|].
    destruct (Z.leb_spec e 971); [reflexivity | lia].
Qed.

Lemma RNDz_self x : valid_binary x = true -> SFfinite x = true -> RNDz (B2R x) x.
Proof.
  destruct x as [s|s| |s m e]; try discriminate; intros V _.
  - left. split; [reflexivity | eauto].
  - cbn [valid_binary] in V. pose proof (pow2_pos e).
    assert (0 < IZR (Zpos m))%R by (apply IZR_lt; lia).
    cbn [B2R]. destruct s; [right; right | right; left]; (split; [nra|]).
    + replace (- - (IZR (Zpos m) * pow2 e))%R with (IZR (Zpos m) * pow2 e)%R by lra.
      apply Rnd_self; exact V.
    + apply Rnd_self; exact V.
Qed.

Lemma RNDz_monotone v1 v2 z1 z2 :
  (v1 <= v2)%R -> RNDz v1 z1 -> RNDz v2 z2 -> SFleb z1 z2 = true.
Proof.
  intros L [(E1 & s1 & ->) | [(P1 & R1) | (N1 & R1)]]
           [(E2 & s2 & ->) | [(P2 & R2) | (N2 & R2)]]; try lra.
  - reflexivity.
  - destruct (Rnd_shape _ _ _ P2 R2) as [-> | [-> | (p & e & ->)]]; reflexivity.
  - exact (Rnd_monotone false v1 v2 z1 z2 (conj P1 L) R1 R2).
  - assert (P : (0 < - v1)%R) by lra.
    destruct (Rnd_shape _ _ _ P R1) as [-> | [-> | (p & e & ->)]]; reflexivity.
  - assert (Q1 : (0 < - v1)%R) by lra.
    destruct (Rnd_shape _ _ _ Q1 R1) as [-> | [-> | (p & e & ->)]];
      destruct (Rnd_shape _ _ _ P2 R2) as [-> | [-> | (p' & e' & ->)]]; reflexivity.
  - assert (Q : (0 < - v2 <= - v1)%R) by lra.
    exact (Rnd_monotone true (- v2) (- v1) z2 z1 Q R2 R1).
Qed.

Lemma SFadd_RNDz x y :
  valid_binary x = true -> valid_binary y = true ->
  SFfinite x = true -> SFfinite y = true ->
  RNDz (B2R x + B2R y) (SF64add x y).
Proof.
  intros Vx Vy Fx Fy.
  destruct x as [sx|sx| |sx mx ex]; try discriminate;
    destruct y as [sy|sy| |sy my ey]; try discriminate.
  - left. split; [cbn; lra|]. destruct sx, sy; cbn; eauto.
  - replace (B2R (S754_zero sx) + B2R (S754_finite sy my ey))%R
      with (B2R (S754_finite sy my ey)) by (cbn [B2R]; lra).
    apply (RNDz_self (S754_finite sy my ey)); auto.
  - replace (B2R (S754_finite sx mx ex) + B2R (S754_zero sy))%R
      with (B2R (S754_finite sx mx ex)) by (cbn [B2R]; lra).
    apply (RNDz_self (S754_finite sx mx ex)); auto.
  - apply RND_RNDz, SFadd_RND.
Qed.

Lemma SFsub_RNDz x y :
  valid_binary x = true -> valid_binary y = true ->
  SFfinite x = true -> SFfinite y = true ->
  RNDz (B2R x - B2R y) (SF64sub x y).
Proof.
  intros Vx Vy Fx Fy.
  destruct x as [sx|sx| |sx mx ex]; try discriminate;
    destruct y as [sy|sy| |sy my ey]; try discriminate.
  - left. split; [cbn; lra|]. destruct sx, sy; cbn; eauto.
  - replace (B2R (S754_zero sx) - B2R (S754_finite sy my ey))%R
      with (B2R (S754_finite (negb sy) my ey)) by (destruct sy; cbn [B2R negb]; lra).
    apply (RNDz_self (S754_finite (negb sy) my ey)); auto.
  - replace (B2R (S754_finite sx mx ex) - B2R (S754_zero sy))%R
      with (B2R (S754_finite sx mx ex)) by (cbn [B2R]; lra).
    apply (RNDz_self (S754_finite sx mx ex)); auto.
  - apply RND_RNDz, SFsub_RND.
Qed.

Lemma digits2_product mx my :
  2 ^ 52 <= Zpos mx -> 53 <= Zpos (digits2_pos (mx * my)).
Proof.
  intros H. pose proof (digits2_bounds (mx * my)) as (_ & U).
  destruct (Z.le_gt_cases 53 (Zpos (digits2_pos (mx * my)))) as [|L]; [assumption|].
  assert (2 ^ Zpos (digits2_pos (mx * my)) <= 2 ^ 52) by (apply Z.pow_le_mono_r; lia).
  rewrite Pos2Z.inj_mul in U. nia.
Qed.

Lemma SFmul_Rnd sx mx ex sy my ey :
  bounded prec emax mx ex = true -> bounded prec emax my ey = true ->
  Rnd (xorb sx sy) (IZR (Zpos mx) * pow2 ex * (IZR (Zpos my) * pow2 ey))
      (SF64mul (S754_finite sx mx ex) (S754_finite sy my ey)).
Proof.
  intros Bx By.
  destruct (bounded_canonical mx ex Bx) as (_ & X2 & _ & X4).
  destruct (bounded_canonical my ey By) as (_ & Y2 & _ & Y4).
  cbn [SFmul].
  replace (IZR (Zpos mx) * pow2 ex * (IZR (Zpos my) * pow2 ey))%R
    with (IZR (Zpos (mx * my)) * pow2 (ex + ey))%R
    by (rewrite Pos2Z.inj_mul, mult_IZR, pow2_add; ring).
  apply binary_round_aux_Rnd with (g := Zpos (digits2_pos (mx * my)) + (ex + ey)).
  - lia.
  - apply mag_mantissa.
  - split; [cbn; lia|]. cbn.
    pose proof (pow2_pos (ex + ey)). field. lra.
  - rewrite fexp64_eq.
    destruct (Z.eq_dec ex (-1074)) as [Ex|Ex].
    + destruct (Z.eq_dec ey (-1074)) as [Ey|Ey]; [lia|].
      assert (53 <= Zpos (digits2_pos (my * mx))) by (apply digits2_product; lia).
      rewrite Pos.mul_comm. lia.
    + assert (53 <= Zpos (digits2_pos (mx * my))) by (apply digits2_product; lia). lia.
Qed.

Lemma SFmul_RNDz x y :
  valid_binary x = true -> valid_binary y = true ->
  SFfinite x = true -> SFfinite y = true ->
  RNDz (B2R x * B2R y) (SF64mul x y).
Proof.
  intros Vx Vy Fx Fy.
  destruct x as [sx|sx| |sx mx ex]; try discriminate;
    destruct y as [sy|sy| |sy my ey]; try discriminate;
    try (left; split; [cbn [B2R]; lra | cbn; eauto]).
  cbn [valid_binary] in Vx, Vy.
  pose proof (SFmul_Rnd sx mx ex sy my ey Vx Vy) as H.
  pose proof (pow2_pos ex). pose proof (pow2_pos ey).
  assert (0 < IZR (Zpos mx))%R by (apply IZR_lt; lia).
  assert (0 < IZR (Zpos my))%R by (apply IZR_lt; lia).
  assert (Pa : (0 < IZR (Zpos mx) * pow2 ex)%R) by (apply Rmult_lt_0_compat; assumption).
  assert (Pb : (0 < IZR (Zpos my) * pow2 ey)%R) by (apply Rmult_lt_0_compat; assumption).
  set (a := (IZR (Zpos mx) * pow2 ex)%R) in *.
  set (b := (IZR (Zpos my) * pow2 ey)%R) in *.
  assert (P : (0 < a * b)%R) by (apply Rmult_lt_0_compat; assumption).
  destruct sx, sy; cbn [B2R xorb] in *; fold a b.
  - right; left. replace (- a * - b)%R with (a * b)%R by ring. auto.
  - right; right. replace (- a * b)%R with (- (a * b))%R by ring.
    split; [lra|]. replace (- - (a * b))%R with (a * b)%R by lra. exact H.
  - right; right. replace (a * - b)%R with (- (a * b))%R by ring.
    split; [lra|]. replace (- - (a * b))%R with (a * b)%R by lra. exact H.
  - right; left. auto.
Qed.

Lemma SFdiv_RNDz x y :
  SFfinite x = true -> SFfinite y = true -> B2R y <> 0%R ->
  RNDz (B2R x / B2R y) (SF64div x y).
Proof.
  intros Fx Fy Ny.
  destruct x as [sx|sx| |sx mx ex]; try discriminate;
    destruct y as [sy|sy| |sy my ey]; try discriminate;
    try (cbn [B2R] in Ny; lra).
  - left. split; [cbn [B2R]; unfold Rdiv; ring | cbn; eauto].
  - pose proof (SFdiv_Rnd sx mx ex sy my ey) as H.
    pose proof (pow2_pos ex). pose proof (pow2_pos ey).
    assert (0 < IZR (Zpos mx))%R by (apply IZR_lt; lia).
    assert (0 < IZR (Zpos my))%R by (apply IZR_lt; lia).
    assert (Pa : (0 < IZR (Zpos mx) * pow2 ex)%R) by (apply Rmult_lt_0_compat; assumption).
    assert (Pb : (0 < IZR (Zpos my) * pow2 ey)%R) by (apply Rmult_lt_0_compat; assumption).
    set (a := (IZR (Zpos mx) * pow2 ex)%R) in *.
    set (b := (IZR (Zpos my) * pow2 ey)%R) in *.
    assert (P : (0 < a / b)%R) by (apply Rdiv_lt_0_compat; assumption).
    destruct sx, sy; cbn [B2R xorb] in *; fold a b.
    + right; left. replace (- a / - b)%R with (a / b)%R by (field; lra). auto.
    + right; right. replace (- a / b)%R with (- (a / b))%R by (field; lra).
      split; [lra|]. replace (- - (a / b))%R with (a / b)%R by lra. exact H.
    + right; right. replace (a / - b)%R with (- (a / b))%R by (field; lra).
      split; [lra|]. replace (- - (a / b))%R with (a / b)%R by lra. exact H.
    + right; left. auto.
Qed.
End Rounding_facts.

Lemma is_finite_not_nan x : is_finite x = true -> is_nan x = false.
Proof.
  rewrite is_finite_spec, is_nan_spec. destruct (Prim2SF x); try discriminate; reflexivity.
Qed.

Lemma rounds_leb v1 v2 a b :
  rounds v1 a -> rounds v2 b -> (v1 <= v2)%R -> (a <=? b) = true.
Proof.
  intros Ra Rb L. rewrite leb_spec. exact (RNDz_monotone v1 v2 _ _ L Ra Rb).
Qed.

Lemma rounds_self x : is_finite x = true -> rounds (value x) x.
Proof.
  intros F. rewrite is_finite_spec in F.
  apply RNDz_self; [apply Prim2SF_valid | exact F].
Qed.

Lemma add_rounds x y :
  is_finite x = true -> is_finite y = true -> rounds (value x + value y) (x + y).
Proof.
  intros Fx Fy. rewrite is_finite_spec in Fx, Fy. unfold rounds. rewrite add_spec.
  apply SFadd_RNDz; auto using Prim2SF_valid.
Qed.

Lemma sub_rounds x y :
  is_finite x = true -> is_finite y = true -> rounds (value x - value y) (x - y).
Proof.
  intros Fx Fy. rewrite is_finite_spec in Fx, Fy. unfold rounds. rewrite sub_spec.
  apply SFsub_RNDz; auto using Prim2SF_valid.
Qed.

Lemma mul_rounds x y :
  is_finite x = true -> is_finite y = true -> rounds (value x * value y) (x * y).
Proof.
  intros Fx Fy. rewrite is_finite_spec in Fx, Fy. unfold rounds. rewrite mul_spec.
  apply SFmul_RNDz; auto using Prim2SF_valid.
Qed.

Lemma div_rounds x y :
  is_finite x = true -> is_finite y = true -> value y <> 0%R ->
  rounds (value x / value y) (x / y).
Proof.
  intros Fx Fy Ny. rewrite is_finite_spec in Fx, Fy. unfold rounds. rewrite div_spec.
  apply SFdiv_RNDz; auto.
Qed.

(** Order on finite numbers is the order of their values. *)
Lemma leb_value x y :
  is_finite x = true -> is_finite y = true ->
  ((x <=? y) = true <-> (value x <= value y)%R).
Proof.
  intros Fx Fy. rewrite is_finite_spec in Fx, Fy. rewrite leb_spec.
  apply SFleb_B2R; auto using Prim2SF_valid.
Qed.

Lemma ltb_value x y :
  is_finite x = true -> is_finite y = true ->
  ((x <? y) = true <-> (value x < value y)%R).
Proof.
  intros Fx Fy. rewrite is_finite_spec in Fx, Fy. rewrite ltb_spec.
  apply SFltb_B2R; auto using Prim2SF_valid.
Qed.

Lemma value_bound x : (- pow2 1024 < value x < pow2 1024)%R.
Proof.
  unfold value. pose proof (Prim2SF_valid x) as V. pose proof (pow2_pos 1024).
  destruct (Prim2SF x) as [s|s| |s m e]; cbn [B2R]; try lra.
  cbn [valid_binary] in V. destruct (bounded_canonical m e V) as (_ & (E1 & E2) & M & _).
  assert (IZR (Zpos m) * pow2 e < pow2 1024)%R.
  { apply Rlt_le_trans with (pow2 53 * pow2 e)%R.
    - apply Rmult_lt_compat_r; [apply pow2_pos|].
      rewrite pow2_IZR by lia. apply IZR_lt. exact M.
    - rewrite <- pow2_add. apply pow2_le. lia. }
  assert (0 < IZR (Zpos m) * pow2 e)%R.
  { apply Rmult_lt_0_compat; [apply IZR_lt; lia | apply pow2_pos]. }
  destruct s; lra.
Qed.

Lemma xval_finite x : is_finite x = true -> xval x = value x.
Proof.
  rewrite is_finite_spec. unfold xval, value.
  destruct (Prim2SF x) as [s|s| |s m e]; try discriminate; reflexivity.
Qed.

Lemma number_cases x :
  is_nan x = true \/ is_finite x = true \/ x = infinity \/ x = neg_infinity.
Proof.
  rewrite is_nan_spec, is_finite_spec.
  destruct (Prim2SF x) as [s|[|]| |s m e] eqn:E; auto.
  - right; right; right. apply Prim2SF_inj. rewrite E. symmetry. apply Prim2SF_neg_infinity.
  - right; right; left. apply Prim2SF_inj. rewrite E. symmetry. apply Prim2SF_infinity.
Qed.

Lemma xval_infinity : xval infinity = pow2 1024.
Proof. unfold xval. rewrite Prim2SF_infinity. reflexivity. Qed.

Lemma xval_neg_infinity : xval neg_infinity = (- pow2 1024)%R.
Proof. unfold xval. rewrite Prim2SF_neg_infinity. reflexivity. Qed.

Lemma leb_not_nan x y : (x <=? y) = true -> is_nan x = false /\ is_nan y = false.
Proof.
  rewrite leb_spec, !is_nan_spec. unfold SFleb.
  destruct (SFcompare (Prim2SF x) (Prim2SF y)) eqn:C; [|discriminate].
  intros _. exact (SFcompare_Some_not_nan _ _ _ C).
Qed.

Lemma ltb_not_nan x y : (x <? y) = true -> is_nan x = false /\ is_nan y = false.
Proof.
  rewrite ltb_spec, !is_nan_spec. unfold SFltb.
  destruct (SFcompare (Prim2SF x) (Prim2SF y)) eqn:C; [|discriminate].
  intros _. exact (SFcompare_Some_not_nan _ _ _ C).
Qed.

Lemma leb_xval x y :
  is_nan x = false -> is_nan y = false ->
  ((x <=? y) = true <-> (xval x <= xval y)%R).
Proof.
  intros Nx Ny. pose proof (pow2_pos 1024).
  pose proof (value_bound x). pose proof (value_bound y).
  destruct (number_cases x) as [X | [X | [-> | ->]]]; [congruence | | |];
    destruct (number_cases y) as [Y | [Y | [-> | ->]]]; try congruence;
    rewrite ?xval_infinity, ?xval_neg_infinity, ?(xval_finite x), ?(xval_finite y) by assumption.
  - apply leb_value; assumption.
  - rewrite is_finite_spec in X. rewrite leb_spec, Prim2SF_infinity.
    destruct (Prim2SF x) as [s|s| |[|] m e]; try discriminate; split; try reflexivity; lra.
  - rewrite is_finite_spec in X. rewrite leb_spec, Prim2SF_neg_infinity.
    destruct (Prim2SF x) as [s|s| |[|] m e]; try discriminate; split; try discriminate; lra.
  - rewrite is_finite_spec in Y. rewrite leb_spec, Prim2SF_infinity.
    destruct (Prim2SF y) as [s|s| |[|] m e]; try discriminate; split; try discriminate; lra.
  - split; [lra | reflexivity].
  - split; [vm_compute; discriminate | lra].
  - rewrite is_finite_spec in Y. rewrite leb_spec, Prim2SF_neg_infinity.
    destruct (Prim2SF y) as [s|s| |[|] m e]; try discriminate; split; try reflexivity; lra.
  - split; [lra | reflexivity].
  - split; [lra | reflexivity].
Qed.

Lemma ltb_xval x y :
  is_nan x = false -> is_nan y = false ->
  ((x <? y) = true <-> (xval x < xval y)%R).
Proof.
  intros Nx Ny. pose proof (pow2_pos 1024).
  pose proof (value_bound x). pose proof (value_bound y).
  destruct (number_cases x) as [X | [X | [-> | ->]]]; [congruence | | |];
    destruct (number_cases y) as [Y | [Y | [-> | ->]]]; try congruence;
    rewrite ?xval_infinity, ?xval_neg_infinity, ?(xval_finite x), ?(xval_finite y) by assumption.
  - apply ltb_value; assumption.
  - rewrite is_finite_spec in X. rewrite ltb_spec, Prim2SF_infinity.
    destruct (Prim2SF x) as [s|s| |[|] m e]; try discriminate; split; try reflexivity; lra.
  - rewrite is_finite_spec in X. rewrite ltb_spec, Prim2SF_neg_infinity.
    destruct (Prim2SF x) as [s|s| |[|] m e]; try discriminate; split; try discriminate; lra.
  - rewrite is_finite_spec in Y. rewrite ltb_spec, Prim2SF_infinity.
    destruct (Prim2SF y) as [s|s| |[|] m e]; try discriminate; split; try discriminate; lra.
  - split; [vm_compute; discriminate | lra].
  - split; [vm_compute; discriminate | lra].
  - rewrite is_finite_spec in Y. rewrite ltb_spec, Prim2SF_neg_infinity.
    destruct (Prim2SF y) as [s|s| |[|] m e]; try discriminate; split; try reflexivity; lra.
  - split; [lra | reflexivity].
  - split; [vm_compute; discriminate | lra].
Qed.

Lemma leb_trans x y z : (x <=? y) = true -> (y <=? z) = true -> (x <=? z) = true.
Proof.
  intros A B. destruct (leb_not_nan _ _ A) as (Nx & Ny). destruct (leb_not_nan _ _ B) as (_ & Nz).
  rewrite leb_xval in * by assumption. lra.
Qed.

Lemma ltb_leb_trans x y z : (x <? y) = true -> (y <=? z) = true -> (x <? z) = true.
Proof.
  intros A B. destruct (ltb_not_nan _ _ A) as (Nx & Ny). destruct (leb_not_nan _ _ B) as (_ & Nz).
  rewrite leb_xval in B by assumption. rewrite ltb_xval in * by assumption. lra.
Qed.

Lemma leb_ltb_trans x y z : (x <=? y) = true -> (y <? z) = true -> (x <? z) = true.
Proof.
  intros A B. destruct (leb_not_nan _ _ A) as (Nx & Ny). destruct (ltb_not_nan _ _ B) as (_ & Nz).
  rewrite leb_xval in A by assumption. rewrite ltb_xval in * by assumption. lra.
Qed.

Lemma ltb_leb x y : (x <? y) = true -> (x <=? y) = true.
Proof.
  intros A. destruct (ltb_not_nan _ _ A) as (Nx & Ny).
  rewrite ltb_xval in A by assumption. rewrite leb_xval by assumption. lra.
Qed.

Lemma leb_refl x : is_nan x = false -> (x <=? x) = true.
Proof. intros N. rewrite leb_xval by assumption. lra. Qed.

Lemma leb_total x y :
  is_nan x = false -> is_nan y = false -> (x <=? y) = true \/ (y <? x) = true.
Proof.
  intros Nx Ny. rewrite leb_xval, ltb_xval by assumption. lra.
Qed.

Lemma ltb_false_leb x y :
  is_nan x = false -> is_nan y = false -> (x <? y) = false -> (y <=? x) = true.
Proof.
  intros Nx Ny H. destruct (leb_total y x Ny Nx) as [L | L]; [exact L | congruence].
Qed.

Lemma leb_infinity x : is_nan x = false -> (x <=? infinity) = true.
Proof.
  intros N. rewrite leb_xval by (auto; vm_compute; reflexivity).
  rewrite xval_infinity. pose proof (value_bound x). pose proof (pow2_pos 1024).
  destruct (number_cases x) as [X | [X | [-> | ->]]]; [congruence | | |];
    rewrite ?xval_infinity, ?xval_neg_infinity, ?(xval_finite x) by assumption; lra.
Qed.

Lemma neg_infinity_leb x : is_nan x = false -> (neg_infinity <=? x) = true.
Proof.
  intros N. rewrite leb_xval by (auto; vm_compute; reflexivity).
  rewrite xval_neg_infinity. pose proof (value_bound x). pose proof (pow2_pos 1024).
  destruct (number_cases x) as [X | [X | [-> | ->]]]; [congruence | | |];
    rewrite ?xval_infinity, ?xval_neg_infinity, ?(xval_finite x) by assumption; lra.
Qed.

(** Between two numbers of which the lower is not [-Infinity] and the upper
    is not [Infinity], both are finite. *)
Lemma between_finite x y :
  (x <=? y) = true -> x <> neg_infinity -> y <> infinity ->
  is_finite x = true /\ is_finite y = true.
Proof.
  intros L Nx Ny. destruct (leb_not_nan _ _ L) as (Ax & Ay).
  rewrite leb_xval in L by assumption.
  pose proof (value_bound x). pose proof (value_bound y). pose proof (pow2_pos 1024).
  destruct (number_cases x) as [X | [X | [-> | ->]]]; [congruence | | | congruence];
    destruct (number_cases y) as [Y | [Y | [-> | ->]]]; try congruence; auto;
    rewrite ?xval_infinity, ?xval_neg_infinity, ?(xval_finite x), ?(xval_finite y) in L
      by assumption; lra.
Qed.

Lemma add_infinite x y :
  is_nan (x + y) = false ->
  (x = infinity \/ y = infinity -> x + y = infinity)
  /\ (x = neg_infinity \/ y = neg_infinity -> x + y = neg_infinity).
Proof.
  rewrite is_nan_spec, add_spec. intros N.
  split; (intros [-> | ->]; apply Prim2SF_inj; rewrite add_spec;
          rewrite ?Prim2SF_infinity, ?Prim2SF_neg_infinity in *);
    [destruct (Prim2SF y) as [s|[|]| |s m e] | destruct (Prim2SF x) as [s|[|]| |s m e]
    |destruct (Prim2SF y) as [s|[|]| |s m e] | destruct (Prim2SF x) as [s|[|]| |s m e]];
    try discriminate; reflexivity.
Qed.

Lemma number_eq_dec (x y : float) : x = y \/ x <> y.
Proof.
  destruct (Leibniz.eqb x y) eqn:E.
  - left. apply Leibniz.eqb_spec. exact E.
  - right. intros H. apply Leibniz.eqb_spec in H. congruence.
Qed.

(** Addition is monotone where it is defined. *)
Lemma add_monotone x x' y y' :
  (x <=? x') = true -> (y <=? y') = true ->
  is_nan (x + y) = false -> is_nan (x' + y') = false ->
  (x + y <=? x' + y') = true.
Proof.
  intros Lx Ly N N'.
  destruct (add_infinite x y N) as (_ & A2). destruct (add_infinite x' y' N') as (A1' & _).
  destruct (number_eq_dec x' infinity) as [E|Ex'];
    [rewrite A1' by auto; apply leb_infinity; exact N|].
  destruct (number_eq_dec y' infinity) as [E|Ey'];
    [rewrite A1' by auto; apply leb_infinity; exact N|].
  destruct (number_eq_dec x neg_infinity) as [E|Ex];
    [rewrite A2 by auto; apply neg_infinity_leb; exact N'|].
  destruct (number_eq_dec y neg_infinity) as [E|Ey];
    [rewrite A2 by auto; apply neg_infinity_leb; exact N'|].
  destruct (between_finite x x' Lx Ex Ex') as (Fx & Fx').
  destruct (between_finite y y' Ly Ey Ey') as (Fy & Fy').
  apply rounds_leb with (1 := add_rounds x y Fx Fy) (2 := add_rounds x' y' Fx' Fy').
  apply leb_value in Lx, Ly; auto. lra.
Qed.

Lemma RNDz_not_nan v z : RNDz v z -> SFis_nan z = false.
Proof.
  intros [(_ & s & ->) | [(P & H) | (P & H)]]; [reflexivity | |].
  - destruct (Rnd_shape _ _ _ P H) as [-> | [-> | (p & e & ->)]]; reflexivity.
  - assert (Q : (0 < - v)%R) by lra.
    destruct (Rnd_shape _ _ _ Q H) as [-> | [-> | (p & e & ->)]]; reflexivity.
Qed.

Lemma rounds_not_nan v a : rounds v a -> is_nan a = false.
Proof. intros H. rewrite is_nan_spec. exact (RNDz_not_nan _ _ H). Qed.

Lemma positive_finite_shape c :
  is_finite c = true -> (0 <? c) = true -> exists m e, Prim2SF c = S754_finite false m e.
Proof.
  intros F P. rewrite is_finite_spec in F.
  destruct (positive_shape _ P) as [E | H]; [rewrite E in F; discriminate | exact H].
Qed.

Lemma mul_positive c x :
  is_finite c = true -> (0 <? c) = true -> is_nan x = false ->
  is_nan (c * x) = false
  /\ (x = infinity -> c * x = infinity)
  /\ (x = neg_infinity -> c * x = neg_infinity).
Proof.
  intros F P N. destruct (positive_finite_shape c F P) as (m & e & E).
  split; [|split].
  - destruct (number_cases x) as [X | [X | [-> | ->]]]; [congruence | | |].
    + exact (rounds_not_nan _ _ (mul_rounds c x F X)).
    + rewrite is_nan_spec, mul_spec, E, Prim2SF_infinity. reflexivity.
    + rewrite is_nan_spec, mul_spec, E, Prim2SF_neg_infinity. reflexivity.
  - intros ->. apply Prim2SF_inj. rewrite mul_spec, E, Prim2SF_infinity. reflexivity.
  - intros ->. apply Prim2SF_inj. rewrite mul_spec, E, Prim2SF_neg_infinity. reflexivity.
Qed.

Lemma positive_value c : is_finite c = true -> (0 <? c) = true -> (0 < value c)%R.
Proof.
  intros F P. apply ltb_value in P; [|reflexivity | exact F].
  replace (value 0) with 0%R in P by (unfold value; rewrite Prim2SF_0; reflexivity).
  exact P.
Qed.

(** Multiplication by a positive finite number is monotone. *)
Lemma mul_monotone c x y :
  is_finite c = true -> (0 <? c) = true ->
  (x <=? y) = true -> (c * x <=? c * y) = true.
Proof.
  intros F P L. destruct (leb_not_nan _ _ L) as (Nx & Ny).
  destruct (mul_positive c x F P Nx) as (A & _ & A2).
  destruct (mul_positive c y F P Ny) as (B & B1 & _).
  destruct (number_eq_dec y infinity) as [E|Ey];
    [rewrite B1 by auto; apply leb_infinity; exact A|].
  destruct (number_eq_dec x neg_infinity) as [E|Ex];
    [rewrite A2 by auto; apply neg_infinity_leb; exact B|].
  destruct (between_finite x y L Ex Ey) as (Fx & Fy).
  apply rounds_leb with (1 := mul_rounds c x F Fx) (2 := mul_rounds c y F Fy).
  apply leb_value in L; auto. pose proof (positive_value c F P). nra.
Qed.

Lemma div_positive x d :
  is_finite d = true -> (0 <? d) = true -> is_nan x = false ->
  is_nan (x / d) = false
  /\ (x = infinity -> x / d = infinity)
  /\ (x = neg_infinity -> x / d = neg_infinity).
Proof.
  intros F P N. destruct (positive_finite_shape d F P) as (m & e & E).
  pose proof (positive_value d F P) as V.
  split; [|split].
  - destruct (number_cases x) as [X | [X | [-> | ->]]]; [congruence | | |].
    + apply (rounds_not_nan _ _ (div_rounds x d X F ltac:(lra))).
    + rewrite is_nan_spec, div_spec, E, Prim2SF_infinity. reflexivity.
    + rewrite is_nan_spec, div_spec, E, Prim2SF_neg_infinity. reflexivity.
  - intros ->. apply Prim2SF_inj. rewrite div_spec, E, Prim2SF_infinity. reflexivity.
  - intros ->. apply Prim2SF_inj. rewrite div_spec, E, Prim2SF_neg_infinity. reflexivity.
Qed.

(** Division by a positive finite number is monotone. *)
Lemma div_monotone_numerator d x y :
  is_finite d = true -> (0 <? d) = true ->
  (x <=? y) = true -> (x / d <=? y / d) = true.
Proof.
  intros F P L. destruct (leb_not_nan _ _ L) as (Nx & Ny).
  destruct (div_positive x d F P Nx) as (A & _ & A2).
  destruct (div_positive y d F P Ny) as (B & B1 & _).
  pose proof (positive_value d F P) as V.
  destruct (number_eq_dec y infinity) as [E|Ey];
    [rewrite B1 by auto; apply leb_infinity; exact A|].
  destruct (number_eq_dec x neg_infinity) as [E|Ex];
    [rewrite A2 by auto; apply neg_infinity_leb; exact B|].
  destruct (between_finite x y L Ex Ey) as (Fx & Fy).
  apply rounds_leb with (1 := div_rounds x d Fx F ltac:(lra))
                        (2 := div_rounds y d Fy F ltac:(lra)).
  apply leb_value in L; auto.
  unfold Rdiv. apply Rmult_le_compat_r; [|exact L].
  apply Rlt_le, Rinv_0_lt_compat. exact V.
Qed.

Lemma add_finite_not_nan c u :
  is_finite c = true -> is_nan u = false -> is_nan (c + u) = false.
Proof.
  intros F N. destruct (number_cases u) as [X | [X | [-> | ->]]]; [congruence | | |].
  - exact (rounds_not_nan _ _ (add_rounds c u F X)).
  - rewrite is_finite_spec in F. rewrite is_nan_spec, add_spec, Prim2SF_infinity.
    destruct (Prim2SF c); try discriminate; reflexivity.
  - rewrite is_finite_spec in F. rewrite is_nan_spec, add_spec, Prim2SF_neg_infinity.
    destruct (Prim2SF c); try discriminate; reflexivity.
Qed.

(** The shapes of a positive real rounded: [+0], a positive number or
    [Infinity]. *)
Lemma positive_rounds v d :
  rounds v d -> (0 < v)%R ->
  Prim2SF d = S754_zero false \/ Prim2SF d = S754_infinity false
  \/ exists m e, Prim2SF d = S754_finite false m e.
Proof.
  intros [(E & _) | [(_ & H) | (N & _)]] P; try lra.
  exact (Rnd_shape _ _ _ P H).
Qed.

(** Division of a positive finite number is antitone in a divisor that is
    [+0], positive or [Infinity]. *)
Lemma div_antitone_denominator s d1 d2 v1 v2 :
  is_finite s = true -> (0 <? s) = true ->
  rounds v1 d1 -> (0 < v1)%R -> rounds v2 d2 -> (0 < v2)%R ->
  (d1 <=? d2) = true ->
  (s / d2 <=? s / d1) = true.
Proof.
  intros Fs Ps R1 P1 R2 P2 L.
  destruct (positive_finite_shape s Fs Ps) as (ms & es & Es).
  pose proof (positive_value s Fs Ps) as Vs.
  pose proof (Prim2SF_valid d1) as V1. pose proof (Prim2SF_valid d2) as V2.
  assert (D : forall d, Prim2SF d = S754_zero false -> s / d = infinity).
  { intros d E. apply Prim2SF_inj. rewrite div_spec, Es, E, Prim2SF_infinity. reflexivity. }
  assert (I : forall d, Prim2SF d = S754_infinity false -> Prim2SF (s / d) = S754_zero false).
  { intros d E. rewrite div_spec, Es, E. reflexivity. }
  assert (Q : forall d m e, Prim2SF d = S754_finite false m e ->
              is_finite d = true /\ (0 < value d)%R /\ rounds (value s / value d) (s / d)).
  { intros d m e E.
    assert (F : is_finite d = true) by (rewrite is_finite_spec, E; reflexivity).
    assert (P : (0 < value d)%R).
    { unfold value. rewrite E. cbn [B2R].
      apply Rmult_lt_0_compat; [apply IZR_lt; lia | apply pow2_pos]. }
    split; [exact F | split; [exact P |]]. apply div_rounds; auto. lra. }
  assert (Nn : forall d v, rounds v d -> (0 < v)%R -> is_nan (s / d) = false).
  { intros d v R P. destruct (positive_rounds v d R P) as [E | [E | (m & e & E)]].
    - rewrite (D d E). reflexivity.
    - rewrite is_nan_spec, (I d E). reflexivity.
    - destruct (Q d m e E) as (_ & _ & H). exact (rounds_not_nan _ _ H). }
  destruct (positive_rounds v1 d1 R1 P1) as [E1 | [E1 | (m1 & e1 & E1)]].
  - rewrite (D d1 E1). apply leb_infinity. exact (Nn d2 v2 R2 P2).
  - destruct (positive_rounds v2 d2 R2 P2) as [E2 | [E2 | (m2 & e2 & E2)]];
      rewrite leb_spec, E1, E2 in L; try discriminate.
    rewrite leb_spec, (I d1 E1), (I d2 E2). reflexivity.
  - destruct (Q d1 m1 e1 E1) as (F1 & W1 & H1).
    destruct (positive_rounds v2 d2 R2 P2) as [E2 | [E2 | (m2 & e2 & E2)]].
    + rewrite leb_spec, E1, E2 in L. discriminate.
    + apply rounds_leb with (v1 := 0%R) (v2 := (value s / value d1)%R); auto.
      * left. split; [reflexivity|]. rewrite (I d2 E2). eauto.
      * apply Rlt_le, Rdiv_lt_0_compat; assumption.
    + destruct (Q d2 m2 e2 E2) as (F2 & W2 & H2).
      apply rounds_leb with (1 := H2) (2 := H1).
      apply leb_value in L; auto.
      unfold Rdiv. apply Rmult_le_compat_l; [lra|].
      apply Rinv_le_contravar; lra.
Qed.

Lemma nan_propagates a b :
  is_nan a || is_nan b = true ->
  is_nan (a + b) = true /\ is_nan (a - b) = true /\ is_nan (a * b) = true
  /\ is_nan (a / b) = true.
Proof.
  rewrite !is_nan_spec, add_spec, sub_spec, mul_spec, div_spec.
  destruct (Prim2SF a) as [sa|sa| |sa ma ea]; destruct (Prim2SF b) as [sb|sb| |sb mb eb];
    try discriminate; intros _; repeat split; reflexivity.
Qed.

Lemma nan_compares x y :
  is_nan x || is_nan y = true -> (x <? y) = false /\ (x <=? y) = false.
Proof.
  rewrite !is_nan_spec, ltb_spec, leb_spec.
  destruct (Prim2SF x) as [sa|sa| |sa ma ea]; destruct (Prim2SF y) as [sb|sb| |sb mb eb];
    try discriminate; intros _; split; reflexivity.
Qed.

Lemma bounded_is_finite lo x hi :
  (lo <=? x) = true -> (x <=? hi) = true -> is_finite lo = true -> is_finite hi = true ->
  is_finite x = true.
Proof.
  intros A B Fl Fh.
  assert (x <> neg_infinity).
  { intros ->. destruct (between_finite lo neg_infinity A) as (_ & H);
      [intros ->; discriminate | discriminate | discriminate]. }
  assert (hi <> infinity) by (intros ->; discriminate).
  exact (proj1 (between_finite x hi B H H0)).
Qed.

Section Exactness.
Local Open Scope Z_scope.

Lemma digits2_le p n : 0 <= n -> Zpos p < 2 ^ n -> Zpos (digits2_pos p) <= n.
Proof.
  intros Hn H. pose proof (digits2_bounds p) as (L & _).
  destruct (Z.le_gt_cases (Zpos (digits2_pos p)) n) as [|G]; [assumption|].
  assert (2 ^ n <= 2 ^ (Zpos (digits2_pos p) - 1)) by (apply Z.pow_le_mono_r; lia). lia.
Qed.

Lemma digits2_ge p n : 0 <= n -> 2 ^ n <= Zpos p -> n + 1 <= Zpos (digits2_pos p).
Proof.
  intros Hn H. pose proof (digits2_bounds p) as (_ & U).
  destruct (Z.le_gt_cases (n + 1) (Zpos (digits2_pos p))) as [|G]; [assumption|].
  assert (2 ^ Zpos (digits2_pos p) <= 2 ^ n) by (apply Z.pow_le_mono_r; lia). lia.
Qed.

Lemma bounded_intro p e :
  Zpos p < 2 ^ 53 -> -1074 <= e <= 971 -> (-1074 < e -> 2 ^ 52 <= Zpos p) ->
  bounded prec emax p e = true.
Proof.
  intros U E N. unfold bounded, canonical_mantissa.
  apply andb_true_iff. split; [|apply Z.leb_le; cbn; lia].
  apply Z.eqb_eq. rewrite fexp64_eq.
  pose proof (digits2_le p 53 ltac:(lia) U).
  destruct (Z.eq_dec e (-1074)) as [->|Ne]; [lia|].
  pose proof (digits2_ge p 52 ltac:(lia) (N ltac:(lia))). lia.
Qed.

Lemma Rnd_valid s v z : (0 < v)%R -> Rnd s v z -> valid_binary z = true.
Proof.
  intros P (g & m & Hg & HNE & ->).
  destruct (Rnd_mantissa v g m P Hg HNE) as ((M0 & M1) & M2).
  assert (E : -1074 <= fexp64 g) by (rewrite fexp64_eq; lia).
  set (e := fexp64 g) in *.
  unfold float_of. destruct m as [|p|p]; try reflexivity.
  destruct (Z.eqb_spec (Zpos p) (2 ^ 53)) as [E53|N53].
  - destruct (Z.leb_spec (e + 1) 971); [|reflexivity].
    cbn [valid_binary]. apply bounded_intro; [reflexivity | lia | intros _; reflexivity].
  - destruct (Z.leb_spec e 971); [|reflexivity].
    cbn [valid_binary]. apply bounded_intro; [lia | lia | exact M2].
Qed.

Lemma RNDz_valid v z : RNDz v z -> valid_binary z = true.
Proof.
  intros [(_ & s & ->) | [(P & H) | (P & H)]]; [reflexivity | |].
  - exact (Rnd_valid _ _ _ P H).
  - apply (Rnd_valid true (- v)%R); [lra | exact H].
Qed.

Lemma NE_unique w m1 m2 : NE w m1 -> NE w m2 -> m1 = m2.
Proof.
  intros H1 H2.
  pose proof (NE_monotone w w m1 m2 ltac:(lra) H1 H2).
  pose proof (NE_monotone w w m2 m1 ltac:(lra) H2 H1). lia.
Qed.

Lemma Rnd_unique s v z1 z2 : Rnd s v z1 -> Rnd s v z2 -> z1 = z2.
Proof.
  intros (g1 & m1 & G1 & N1 & ->) (g2 & m2 & G2 & N2 & ->).
  assert (g1 = g2) by exact (mag_unique v g1 g2 G1 G2). subst g2.
  rewrite (NE_unique _ m1 m2 N1 N2). reflexivity.
Qed.

Lemma RNDz_unique v z1 z2 : v <> 0%R -> RNDz v z1 -> RNDz v z2 -> z1 = z2.
Proof.
  intros N [(E1 & _) | [(P1 & H1) | (P1 & H1)]] [(E2 & _) | [(P2 & H2) | (P2 & H2)]];
    try lra; eapply Rnd_unique; eauto.
Qed.
End Exactness.

Lemma rounds_unique v x y : v <> 0%R -> rounds v x -> rounds v y -> x = y.
Proof. intros N Hx Hy. apply Prim2SF_inj. exact (RNDz_unique v _ _ N Hx Hy). Qed.

Lemma SF2Prim_rounds v z : RNDz v z -> rounds v (SF2Prim z).
Proof.
  intros H. unfold rounds. rewrite Prim2SF_SF2Prim; [exact H | exact (RNDz_valid _ _ H)].
Qed.

Lemma number_of_Z_rounds z : rounds (IZR z) (number_of_Z z).
Proof.
  unfold number_of_Z. apply SF2Prim_rounds, RND_RNDz.
  replace (IZR z) with (IZR z * pow2 0)%R by (rewrite pow2_0; lra).
  apply binary_normalize_RND.
Qed.

Section Integers.
Local Open Scope Z_scope.

Lemma mag_below v g n : mag v g -> (v < pow2 n)%R -> g <= n.
Proof.
  intros (L & _) U.
  assert (pow2 (g - 1) < pow2 n)%R by lra.
  apply pow2_lt_inv in H. lia.
Qed.

Lemma Rnd_integer_exact s k z :
  0 < k < 2 ^ 53 -> Rnd s (IZR k) z ->
  exists p e, z = S754_finite s p e /\ (IZR (Zpos p) * pow2 e)%R = IZR k.
Proof.
  intros K H. apply (Rnd_exact s (IZR k) z k 0 H); [lia | rewrite pow2_0; lra |].
  intros g Hg.
  assert (g <= 53).
  { apply (mag_below (IZR k) g 53 Hg). rewrite pow2_IZR by lia. apply IZR_lt. lia. }
  rewrite fexp64_eq. lia.
Qed.

(** An integer below [2^53] in size is a number, exactly. *)
Lemma number_of_Z_exact z :
  Z.abs z < 2 ^ 53 ->
  is_finite (number_of_Z z) = true /\ value (number_of_Z z) = IZR z.
Proof.
  intros B. pose proof (number_of_Z_rounds z) as R.
  rewrite is_finite_spec. unfold value. unfold rounds in R.
  destruct R as [(E & s & ->) | [(P & H) | (P & H)]].
  - split; [reflexivity | cbn; lra].
  - assert (K : 0 < z < 2 ^ 53) by (split; [apply lt_IZR; exact P | lia]).
    destruct (Rnd_integer_exact false z _ K H) as (p & e & -> & V).
    split; [reflexivity | exact V].
  - assert (K : 0 < - z < 2 ^ 53).
    { split; [apply lt_IZR; rewrite opp_IZR; lra | lia]. }
    rewrite <- opp_IZR in H.
    destruct (Rnd_integer_exact true (- z) _ K H) as (p & e & -> & V).
    split; [reflexivity|]. cbn [B2R]. rewrite V, opp_IZR. lra.
Qed.

Lemma number_of_Z_leb a b :
  Z.abs a < 2 ^ 53 -> Z.abs b < 2 ^ 53 ->
  ((number_of_Z a <=? number_of_Z b)%float = true <-> a <= b).
Proof.
  intros A B. destruct (number_of_Z_exact a A) as (Fa & Va).
  destruct (number_of_Z_exact b B) as (Fb & Vb).
  rewrite (leb_value _ _ Fa Fb), Va, Vb. split; [apply le_IZR | apply IZR_le].
Qed.

Lemma number_of_Z_ltb a b :
  Z.abs a < 2 ^ 53 -> Z.abs b < 2 ^ 53 ->
  ((number_of_Z a <? number_of_Z b)%float = true <-> a < b).
Proof.
  intros A B. destruct (number_of_Z_exact a A) as (Fa & Va).
  destruct (number_of_Z_exact b B) as (Fb & Vb).
  rewrite (ltb_value _ _ Fa Fb), Va, Vb. split; [apply lt_IZR | apply IZR_lt].
Qed.

(** Sums of integers that stay below [2^53] are exact. *)
Lemma number_of_Z_add a b :
  0 <= a -> 0 <= b -> a + b < 2 ^ 53 ->
  (number_of_Z a + number_of_Z b)%float = number_of_Z (a + b).
Proof.
  intros A B S.
  destruct (Z.eq_dec (a + b) 0) as [E|N].
  - assert (a = 0) by lia. assert (b = 0) by lia. subst. vm_compute. reflexivity.
  - destruct (number_of_Z_exact a ltac:(lia)) as (Fa & Va).
    destruct (number_of_Z_exact b ltac:(lia)) as (Fb & Vb).
    apply (rounds_unique (IZR (a + b))).
    + intros H. apply eq_IZR in H. lia.
    + rewrite plus_IZR, <- Va, <- Vb. apply add_rounds; assumption.
    + apply number_of_Z_rounds.
Qed.
End Integers.

Lemma number_of_Z_1 : number_of_Z 1 = 1.
Proof. vm_compute; reflexivity. Qed.

Lemma classify_monotone r1 r2 :
  (r1 <=? r2) = true -> (rank (classify r1) <= rank (classify r2))%nat.
Proof.
  intros L. destruct (leb_not_nan _ _ L) as (N1 & N2). unfold classify.
  destruct (1.0 <? r1) eqn:A1.
  - rewrite (ltb_leb_trans 1.0 r1 r2 A1 L). reflexivity.
  - destruct (r1 <? 0.5) eqn:B1; [cbn; lia|].
    destruct (1.0 <? r2); [cbn; lia|].
    destruct (r2 <? 0.5) eqn:B2; [|cbn; lia].
    rewrite (leb_ltb_trans r1 r2 0.5 L B2) in B1. discriminate.
Qed.

Lemma behavior_classify p : behavior (calculateMetrics p) = classify (ratio (calculateMetrics p)).
Proof. reflexivity. Qed.

(** X1: the speed of sound never falls when the temperature rises, and from
    absolute zero upwards it is positive. *)
Theorem calculateSpeedOfSound_monotone (t1 t2 : float) :
  (t1 <=? t2) = true ->
  (calculateSpeedOfSound t1 <=? calculateSpeedOfSound t2) = true
  /\ ((-273.15 <=? t1) = true ->
      (0 <? calculateSpeedOfSound t1) = true /\ (0 <? calculateSpeedOfSound t2) = true).
Proof.
  intros L.
  assert (M : forall a b, (a <=? b) = true ->
              (calculateSpeedOfSound a <=? calculateSpeedOfSound b) = true).
  { intros a b H. unfold calculateSpeedOfSound.
    assert (U : (0.6 * a <=? 0.6 * b) = true)
      by (apply mul_monotone; [reflexivity | reflexivity | exact H]).
    destruct (leb_not_nan _ _ U) as (Na & Nb).
    apply add_monotone; [reflexivity | exact U | |];
      apply add_finite_not_nan; auto. }
  split; [exact (M _ _ L)|].
  intros Z.
  assert (P : (0 <? calculateSpeedOfSound (-273.15)) = true) by (vm_compute; reflexivity).
  pose proof (ltb_leb_trans 0 (calculateSpeedOfSound (-273.15)) (calculateSpeedOfSound t1)
                P (M (-273.15) t1 Z)) as P1.
  split; [exact P1|].
  exact (ltb_leb_trans 0 (calculateSpeedOfSound t1) (calculateSpeedOfSound t2) P1 (M t1 t2 L)).
Qed.

Lemma calculateSpeedOfSound_monotone_witness :
  (0 <=? 20) = true
  /\ (calculateSpeedOfSound 0 <=? calculateSpeedOfSound 20) = true.
Proof.
  assert (H : (0 <=? 20) = true) by reflexivity.
  exact (conj H (proj1 (calculateSpeedOfSound_monotone 0 20 H))).
Defined.

Lemma div_monotone_numerator_pos s1 s2 d v :
  is_finite s1 = true -> (0 <? s1) = true -> is_finite s2 = true -> (s1 <=? s2) = true ->
  rounds v d -> (0 < v)%R ->
  (s1 / d <=? s2 / d) = true.
Proof.
  intros F1 P1 F2 L R P.
  assert (P2 : (0 <? s2) = true) by exact (ltb_leb_trans 0 s1 s2 P1 L).
  destruct (positive_finite_shape s1 F1 P1) as (m1 & e1 & E1).
  destruct (positive_finite_shape s2 F2 P2) as (m2 & e2 & E2).
  destruct (positive_rounds v d R P) as [E | [E | (m & e & E)]].
  - rewrite leb_spec, !div_spec, E1, E2, E. reflexivity.
  - rewrite leb_spec, !div_spec, E1, E2, E. reflexivity.
  - apply div_monotone_numerator; auto.
    + rewrite is_finite_spec, E. reflexivity.
    + rewrite ltb_spec, Prim2SF_0, E. reflexivity.
Qed.

Lemma positive_is_rounded x :
  is_finite x = true -> (0 <? x) = true -> rounds (value x) x /\ (0 < value x)%R.
Proof. intros F P. split; [apply rounds_self; exact F | apply positive_value; assumption]. Qed.

Lemma positive_quotient a b :
  is_finite a = true -> (0 <? a) = true -> is_finite b = true -> (0 <? b) = true ->
  rounds (value a / value b) (a / b) /\ (0 < value a / value b)%R.
Proof.
  intros Fa Pa Fb Pb.
  pose proof (positive_value a Fa Pa). pose proof (positive_value b Fb Pb).
  split; [apply div_rounds; auto; lra | apply Rdiv_lt_0_compat; assumption].
Qed.

(** X2: a higher frequency or a larger obstacle never lowers the ratio, and
    never moves the behaviour towards diffraction. *)
Theorem ratio_monotone (T f1 f2 s1 s2 : float) :
  is_finite (calculateSpeedOfSound T) = true -> (0 <? calculateSpeedOfSound T) = true ->
  (0 <? f1) = true -> (f1 <=? f2) = true -> is_finite f2 = true ->
  (0 <? s1) = true -> (s1 <=? s2) = true -> is_finite s2 = true ->
  let m1 := calculateMetrics {| frequency := f1; obstacleSize := s1; temperature := T |} in
  let m2 := calculateMetrics {| frequency := f2; obstacleSize := s2; temperature := T |} in
  (ratio m1 <=? ratio m2) = true
  /\ (rank (behavior m1) <= rank (behavior m2))%nat.
Proof.
  intros Fc Pc Pf1 Lf Ff2 Ps1 Ls Fs2. cbv zeta.
  assert (G : (ratio (calculateMetrics
                        {| frequency := f1; obstacleSize := s1; temperature := T |})
               <=? ratio (calculateMetrics
                        {| frequency := f2; obstacleSize := s2; temperature := T |})) = true).
  { cbn [calculateMetrics ratio frequency obstacleSize temperature].
    set (c := calculateSpeedOfSound T) in *.
    assert (Pf2 : (0 <? f2) = true) by exact (ltb_leb_trans 0 f1 f2 Pf1 Lf).
    assert (Ps2 : (0 <? s2) = true) by exact (ltb_leb_trans 0 s1 s2 Ps1 Ls).
    assert (Ff1 : is_finite f1 = true).
    { apply (between_finite f1 f2 Lf).
      - intros ->. discriminate.
      - intros ->. discriminate. }
    assert (Fs1 : is_finite s1 = true).
    { apply (between_finite s1 s2 Ls).
      - intros ->. discriminate.
      - intros ->. discriminate. }
    destruct (positive_is_rounded f1 Ff1 Pf1) as (Rf1 & Vf1).
    destruct (positive_is_rounded f2 Ff2 Pf2) as (Rf2 & Vf2).
    destruct (positive_quotient c f1 Fc Pc Ff1 Pf1) as (Rw1 & Vw1).
    destruct (positive_quotient c f2 Fc Pc Ff2 Pf2) as (Rw2 & Vw2).
    assert (W : (c / f2 <=? c / f1) = true)
      by exact (div_antitone_denominator c f1 f2 _ _ Fc Pc Rf1 Vf1 Rf2 Vf2 Lf).
    apply leb_trans with (y := s2 / (c / f1)).
    - exact (div_monotone_numerator_pos s1 s2 (c / f1) _ Fs1 Ps1 Fs2 Ls Rw1 Vw1).
    - exact (div_antitone_denominator s2 (c / f2) (c / f1) _ _ Fs2 Ps2 Rw2 Vw2 Rw1 Vw1 W). }
  split; [exact G|]. rewrite !behavior_classify. apply classify_monotone. exact G.
Qed.

Lemma ratio_monotone_witness :
  is_finite (calculateSpeedOfSound 20) = true /\ (0 <? calculateSpeedOfSound 20) = true
  /\ (0 <? 100) = true /\ (100 <=? 1000) = true /\ is_finite 1000 = true
  /\ (0 <? 0.5) = true /\ (0.5 <=? 2) = true /\ is_finite 2 = true
  /\ (rank (behavior (calculateMetrics
              {| frequency := 100; obstacleSize := 0.5; temperature := 20 |}))
      <= rank (behavior (calculateMetrics
              {| frequency := 1000; obstacleSize := 2; temperature := 20 |})))%nat.
Proof.
  assert (H1 : is_finite (calculateSpeedOfSound 20) = true) by (vm_compute; reflexivity).
  assert (H2 : (0 <? calculateSpeedOfSound 20) = true) by (vm_compute; reflexivity).
  assert (H3 : (0 <? 100) = true) by reflexivity.
  assert (H4 : (100 <=? 1000) = true) by reflexivity.
  assert (H5 : is_finite 1000 = true) by reflexivity.
  assert (H6 : (0 <? 0.5) = true) by reflexivity.
  assert (H7 : (0.5 <=? 2) = true) by reflexivity.
  assert (H8 : is_finite 2 = true) by reflexivity.
  exact (conj H1 (conj H2 (conj H3 (conj H4 (conj H5 (conj H6 (conj H7 (conj H8
           (proj2 (ratio_monotone 20 100 1000 0.5 2 H1 H2 H3 H4 H5 H6 H7 H8)))))))))).
Defined.

(** X3: a [NaN] among the three parameters makes the ratio [NaN]; and a ratio
    that is [NaN], however it arose, is classified TRANSITIONAL, gives a
    diffraction factor that is [NaN], and keeps the reflected pass off. *)
Theorem calculateMetrics_nan (p : SimulationParams) :
  let m := calculateMetrics p in
  (is_nan (frequency p) || is_nan (obstacleSize p) || is_nan (temperature p) = true ->
   is_nan (ratio m) = true)
  /\ (is_nan (frequency p) || is_nan (temperature p) = true ->
      is_nan (wavelength m) = true)
  /\ (is_nan (temperature p) = true -> is_nan (speedOfSound m) = true)
  /\ (is_nan (ratio m) = true ->
      behavior m = TRANSITIONAL
      /\ is_nan (diffractionFactor (ratio m)) = true
      /\ (0.8 <? ratio m) = false).
Proof.
  cbv zeta. cbn [calculateMetrics ratio wavelength speedOfSound behavior].
  assert (S : is_nan (temperature p) = true -> is_nan (calculateSpeedOfSound (temperature p)) = true).
  { intros H. unfold calculateSpeedOfSound.
    apply nan_propagates. apply orb_true_iff. right.
    apply nan_propagates. rewrite H. apply orb_true_r. }
  assert (W : is_nan (frequency p) || is_nan (temperature p) = true ->
              is_nan (calculateSpeedOfSound (temperature p) / frequency p) = true).
  { intros H. apply nan_propagates. apply orb_true_iff in H. apply orb_true_iff.
    destruct H as [H | H]; [right; exact H | left; exact (S H)]. }
  split; [|split; [exact W | split; [exact S |]]].
  - intros H. apply nan_propagates. apply orb_true_iff.
    destruct (is_nan (obstacleSize p)); [left; reflexivity | right].
    apply W. destruct (is_nan (frequency p)); [reflexivity|]. exact H.
  - set (r := obstacleSize p / (calculateSpeedOfSound (temperature p) / frequency p)).
    intros N.
    assert (A : (1.0 <? r) = false) by (apply nan_compares; rewrite N; apply orb_true_r).
    assert (B : (r <? 0.5) = false) by (apply nan_compares; rewrite N; reflexivity).
    assert (C : (0.8 <? r) = false) by (apply nan_compares; rewrite N; apply orb_true_r).
    rewrite A, B. split; [reflexivity | split; [|exact C]].
    unfold diffractionFactor.
    assert (D : is_nan (1.5 - r) = true) by (apply nan_propagates; rewrite N; apply orb_true_r).
    unfold Math_min. rewrite D, orb_true_r. reflexivity.
Qed.

Lemma slider_range_bounds (f size : float) :
  (50 <=? f) = true -> (f <=? 2000) = true ->
  (0.1 <=? size) = true -> (size <=? 5) = true ->
  let m := calculateMetrics {| frequency := f; obstacleSize := size; temperature := 20 |} in
  (0.17 <=? wavelength m) = true /\ (wavelength m <=? 6.87) = true
  /\ (0.014 <=? ratio m) = true /\ (ratio m <=? 29.2) = true
  /\ is_finite (wavelength m) = true /\ is_finite (ratio m) = true.
Proof.
  intros F1 F2 S1 S2. cbv zeta.
  cbn [calculateMetrics ratio wavelength frequency obstacleSize temperature].
  set (c := calculateSpeedOfSound 20).
  assert (Fc : is_finite c = true) by (vm_compute; reflexivity).
  assert (Pc : (0 <? c) = true) by (vm_compute; reflexivity).
  assert (Ff : is_finite f = true) by (apply (bounded_is_finite 50 f 2000); auto).
  assert (Fs : is_finite size = true) by (apply (bounded_is_finite 0.1 size 5); auto).
  assert (Pf : (0 <? f) = true) by (apply (ltb_leb_trans 0 50 f); auto).
  assert (Ps : (0 <? size) = true) by (apply (ltb_leb_trans 0 0.1 size); auto).
  destruct (positive_is_rounded f Ff Pf) as (Rf & Vf).
  destruct (positive_is_rounded 50 eq_refl eq_refl) as (R50 & V50).
  destruct (positive_is_rounded 2000 eq_refl eq_refl) as (R2000 & V2000).
  destruct (positive_quotient c f Fc Pc Ff Pf) as (Rw & Vw).
  destruct (positive_quotient c 50 Fc Pc eq_refl eq_refl) as (Rw50 & Vw50).
  destruct (positive_quotient c 2000 Fc Pc eq_refl eq_refl) as (Rw2000 & Vw2000).
  assert (W1 : (c / 2000 <=? c / f) = true)
    by exact (div_antitone_denominator c f 2000 _ _ Fc Pc Rf Vf R2000 V2000 F2).
  assert (W2 : (c / f <=? c / 50) = true)
    by exact (div_antitone_denominator c 50 f _ _ Fc Pc R50 V50 Rf Vf F1).
  assert (A1 : (0.17 <=? c / f) = true).
  { apply (leb_trans 0.17 (c / 2000) (c / f)); [vm_compute; reflexivity | exact W1]. }
  assert (A2 : (c / f <=? 6.87) = true).
  { apply (leb_trans (c / f) (c / 50) 6.87); [exact W2 | vm_compute; reflexivity]. }
  assert (B1 : (0.014 <=? size / (c / f)) = true).
  { apply (leb_trans 0.014 (0.1 / (c / 50)) (size / (c / f))); [vm_compute; reflexivity|].
    apply (leb_trans (0.1 / (c / 50)) (0.1 / (c / f)) (size / (c / f))).
    - exact (div_antitone_denominator 0.1 (c / f) (c / 50) _ _ eq_refl eq_refl Rw Vw Rw50 Vw50 W2).
    - exact (div_monotone_numerator_pos 0.1 size (c / f) _ eq_refl eq_refl Fs S1 Rw Vw). }
  assert (B2 : (size / (c / f) <=? 29.2) = true).
  { apply (leb_trans (size / (c / f)) (5 / (c / 2000)) 29.2); [|vm_compute; reflexivity].
    apply (leb_trans (size / (c / f)) (5 / (c / f)) (5 / (c / 2000))).
    - exact (div_monotone_numerator_pos size 5 (c / f) _ Fs Ps eq_refl S2 Rw Vw).
    - exact (div_antitone_denominator 5 (c / 2000) (c / f) _ _ eq_refl eq_refl
               Rw2000 Vw2000 Rw Vw W1). }
  repeat split; auto.
  - apply (bounded_is_finite 0.17 (c / f) 6.87); auto.
  - apply (bounded_is_finite 0.014 (size / (c / f)) 29.2); auto.
Qed.

(** X4: everything the two sliders can set, at the temperature of 20 degrees
    the page uses, gives finite metrics: a wavelength between 0.17 m and
    6.87 m and a ratio between 0.014 and 29.2. *)
Theorem slider_range_metrics (f size : float) :
  (50 <=? f) = true -> (f <=? 2000) = true ->
  (0.1 <=? size) = true -> (size <=? 5) = true ->
  let m := calculateMetrics {| frequency := f; obstacleSize := size; temperature := 20 |} in
  (0.17 <=? wavelength m) = true /\ (wavelength m <=? 6.87) = true
  /\ (0.014 <=? ratio m) = true /\ (ratio m <=? 29.2) = true
  /\ is_finite (wavelength m) = true /\ is_finite (ratio m) = true.
Proof. exact (slider_range_bounds f size). Qed.

Lemma slider_range_metrics_witness :
  (50 <=? 343) = true /\ (343 <=? 2000) = true
  /\ (0.1 <=? 1.0) = true /\ (1.0 <=? 5) = true
  /\ is_finite (ratio (calculateMetrics
                         {| frequency := 343; obstacleSize := 1.0; temperature := 20 |})) = true.
Proof.
  assert (H1 : (50 <=? 343) = true) by reflexivity.
  assert (H2 : (343 <=? 2000) = true) by reflexivity.
  assert (H3 : (0.1 <=? 1.0) = true) by reflexivity.
  assert (H4 : (1.0 <=? 5) = true) by reflexivity.
  exact (conj H1 (conj H2 (conj H3 (conj H4
           (proj2 (proj2 (proj2 (proj2 (proj2
              (slider_range_metrics 343 1.0 H1 H2 H3 H4)))))))))).
Defined.

Lemma leb_not_ltb x y : (x <=? y) = true -> (y <? x) = false.
Proof.
  intros L. destruct (leb_not_nan _ _ L) as (Nx & Ny).
  destruct (y <? x) eqn:E; [|reflexivity].
  rewrite leb_xval in L by assumption. rewrite ltb_xval in E by assumption. lra.
Qed.

Lemma not_negative x :
  (x <? 0) = false -> is_nan x = true \/ (0 <=? x) = true.
Proof.
  intros H. destruct (is_nan x) eqn:N; [left; reflexivity | right].
  apply ltb_false_leb; auto.
Qed.

Lemma add_not_nan a b :
  (0 <=? a) = true -> (0 <=? b) = true -> is_nan (a + b) = false.
Proof.
  intros A B. destruct (leb_not_nan _ _ A) as (_ & Na). destruct (leb_not_nan _ _ B) as (_ & Nb).
  rewrite leb_spec, Prim2SF_0 in A, B. rewrite is_nan_spec in *. rewrite add_spec.
  pose proof (Prim2SF_valid a) as Va. pose proof (Prim2SF_valid b) as Vb.
  destruct (Prim2SF a) as [sa|[|]| |[|] ma ea] eqn:Ea; try discriminate;
    destruct (Prim2SF b) as [sb|[|]| |[|] mb eb] eqn:Eb; try discriminate;
    try reflexivity.
  - destruct sa, sb; reflexivity.
  - apply (RNDz_not_nan _ _ (SFadd_RNDz _ _ Va Vb eq_refl eq_refl)).
Qed.

Lemma add_nonneg a b : (0 <=? a) = true -> (0 <=? b) = true -> (0 <=? a + b) = true.
Proof.
  intros A B.
  replace 0 with (0 + 0) at 1 by reflexivity.
  apply add_monotone; auto. apply add_not_nan; assumption.
Qed.

Lemma add_not_negative a b : (a <? 0) = false -> (b <? 0) = false -> (a + b <? 0) = false.
Proof.
  intros A B.
  destruct (not_negative a A) as [Na | La].
  { apply nan_compares. rewrite (proj1 (nan_propagates a b ltac:(rewrite Na; reflexivity))).
    reflexivity. }
  destruct (not_negative b B) as [Nb | Lb].
  { apply nan_compares.
    rewrite (proj1 (nan_propagates a b ltac:(rewrite Nb; apply orb_true_r))). reflexivity. }
  apply leb_not_ltb, add_nonneg; assumption.
Qed.

Lemma rounds_not_negative v x : rounds v x -> (0 <= v)%R -> (x <? 0) = false.
Proof.
  intros R P. apply leb_not_ltb.
  apply (rounds_leb 0%R v 0 x); [|exact R | exact P].
  left. split; [reflexivity|]. rewrite Prim2SF_0. eauto.
Qed.

Lemma value_not_negative x : is_finite x = true -> (x <? 0) = false -> (0 <= value x)%R.
Proof.
  intros F H.
  destruct (not_negative x H) as [N | L].
  - rewrite (is_finite_not_nan x F) in N. discriminate.
  - apply leb_value in L; [|reflexivity | exact F].
    replace (value 0) with 0%R in L by (unfold value; rewrite Prim2SF_0; reflexivity).
    exact L.
Qed.

(** A number that is not negative is [NaN], a zero, positive or
    [Infinity]. *)
Lemma not_negative_shape x :
  (x <? 0) = false ->
  Prim2SF x = S754_nan \/ (exists s, Prim2SF x = S754_zero s)
  \/ Prim2SF x = S754_infinity false \/ exists m e, Prim2SF x = S754_finite false m e.
Proof.
  rewrite ltb_spec, Prim2SF_0.
  destruct (Prim2SF x) as [s|[|]| |[|] m e]; try discriminate; eauto 6.
Qed.

Lemma mul_not_negative a b : (a <? 0) = false -> (b <? 0) = false -> (a * b <? 0) = false.
Proof.
  intros A B.
  destruct (number_cases a) as [Na | [Fa | [-> | ->]]].
  - apply nan_compares.
    rewrite (proj1 (proj2 (proj2 (nan_propagates a b ltac:(rewrite Na; reflexivity))))).
    reflexivity.
  - destruct (number_cases b) as [Nb | [Fb | [-> | ->]]].
    + apply nan_compares.
      rewrite (proj1 (proj2 (proj2 (nan_propagates a b ltac:(rewrite Nb; apply orb_true_r))))).
      reflexivity.
    + apply (rounds_not_negative _ _ (mul_rounds a b Fa Fb)).
      apply Rmult_le_pos; apply value_not_negative; assumption.
    + rewrite ltb_spec, mul_spec, Prim2SF_infinity, Prim2SF_0.
      destruct (not_negative_shape a A) as [E | [(s & E) | [E | (m & e & E)]]];
        rewrite E; reflexivity.
    + discriminate.
  - rewrite ltb_spec, mul_spec, Prim2SF_infinity, Prim2SF_0.
    destruct (not_negative_shape b B) as [E | [(s & E) | [E | (m & e & E)]]];
      rewrite E; reflexivity.
  - discriminate.
Qed.

Lemma div_not_negative a d :
  is_finite d = true -> (0 <? d) = true -> (a <? 0) = false -> (a / d <? 0) = false.
Proof.
  intros F P A.
  destruct (not_negative a A) as [N | L].
  - apply nan_compares.
    rewrite (proj2 (proj2 (proj2 (nan_propagates a d ltac:(rewrite N; reflexivity))))).
    reflexivity.
  - apply leb_not_ltb.
    pose proof (div_monotone_numerator d 0 a F P L) as H.
    replace (0 / d) with 0 in H; [exact H|].
    destruct (positive_finite_shape d F P) as (m & e & E).
    apply Prim2SF_inj. rewrite div_spec, Prim2SF_0, E. reflexivity.
Qed.

Lemma Math_min_not_negative a b :
  (a <? 0) = false -> (b <? 0) = false -> (Math_min a b <? 0) = false.
Proof.
  intros A B. unfold Math_min.
  destruct (is_nan a || is_nan b); [reflexivity|].
  destruct (a <? b); [exact A|]. destruct (b <? a); [exact B|].
  destruct (get_sign a); assumption.
Qed.

(** The remainder has the sign of the dividend. *)
Lemma rem_not_negative x y : (x <? 0) = false -> (x mod y <? 0) = false.
Proof.
  intros H. unfold Number_remainder.
  destruct (not_negative_shape x H) as [E | [(s & E) | [E | (m & e & E)]]]; rewrite E.
  - reflexivity.
  - destruct (Prim2SF y) as [sy|sy| |sy my ey]; cbn [SFrem]; try reflexivity;
      rewrite <- E, SF2Prim_Prim2SF; exact H.
  - destruct (Prim2SF y) as [sy|sy| |sy my ey]; reflexivity.
  - destruct (Prim2SF y) as [sy|sy| |sy my ey]; cbn [SFrem]; try reflexivity;
      try (rewrite <- E, SF2Prim_Prim2SF; exact H).
    cbv zeta. cbn [cond_Zopp].
    set (ez := Z.min e ey).
    set (M := Z.rem (Zpos m * 2 ^ (e - ez)) (Zpos my * 2 ^ (ey - ez))).
    assert (HM : (0 <= M)%Z).
    { subst M. apply Z.rem_nonneg.
      - assert (0 < 2 ^ (ey - ez))%Z by (apply Z.pow_pos_nonneg; lia). lia.
      - assert (0 < 2 ^ (e - ez))%Z by (apply Z.pow_pos_nonneg; lia). lia. }
    apply (rounds_not_negative (IZR M * pow2 ez)%R).
    + apply SF2Prim_rounds, RND_RNDz, binary_normalize_RND.
    + apply Rmult_le_pos; [apply IZR_le; exact HM | apply Rlt_le, pow2_pos].
Qed.

Lemma seq_noThrow a b : noThrow a -> noThrow b -> noThrow (a ;; b).
Proof. destruct a, b; cbn; auto. Qed.

Lemma seq_finishes a b : finishes a -> finishes b -> finishes (a ;; b).
Proof. intros (o1 & ->) (o2 & ->). cbn. eexists. reflexivity. Qed.

Lemma call_finishes o : finishes (call o).
Proof. eexists. reflexivity. Qed.

Lemma finishes_noThrow r : finishes r -> noThrow r.
Proof. intros (o & ->). exact I. Qed.

Lemma ctx_arc_finishes x y r a0 a1 : (r <? 0) = false -> finishes (ctx_arc x y r a0 a1).
Proof. intros H. rewrite (ctx_arc_nonnegative _ _ _ _ _ H). eexists. reflexivity. Qed.

Lemma gridColumns_noThrow fuel : forall x w h ppm, noThrow (gridColumns fuel x w h ppm).
Proof.
  induction fuel as [|fuel IH]; intros x w h ppm; cbn [gridColumns]; [exact I|].
  destruct (x <? w); [|exact I].
  repeat apply seq_noThrow; try exact I. apply IH.
Qed.

Lemma gridRows_noThrow fuel : forall y w h ppm, noThrow (gridRows fuel y w h ppm).
Proof.
  induction fuel as [|fuel IH]; intros y w h ppm; cbn [gridRows]; [exact I|].
  destruct (y <? h); [|exact I].
  repeat apply seq_noThrow; try exact I. apply IH.
Qed.

(** The guard [reflectedRadius > 0] keeps the reflected loop from ever
    passing a negative radius. *)
Lemma reflectedWaves_noThrow fuel : forall r maxR wl w sx ox cy op,
  noThrow (reflectedWaves fuel r maxR wl w sx ox cy op).
Proof.
  induction fuel as [|fuel IH]; intros r maxR wl w sx ox cy op; cbn [reflectedWaves];
    [exact I|].
  destruct (r <? maxR); [|exact I]. cbv zeta.
  apply seq_noThrow; [|apply IH].
  destruct (ox - sx <? r); [|exact I].
  destruct (0 <? r - (ox - sx)) eqn:G; [|exact I].
  repeat apply seq_noThrow; try exact I.
  apply finishes_noThrow, ctx_arc_finishes, leb_not_ltb, ltb_leb. exact G.
Qed.

Lemma incidentWaves_noThrow fuel : forall r maxR wl sx cy,
  (r <? 0) = false -> (wl <? 0) = false ->
  noThrow (incidentWaves fuel r maxR wl sx cy).
Proof.
  induction fuel as [|fuel IH]; intros r maxR wl sx cy R W; cbn [incidentWaves]; [exact I|].
  destruct (r <? maxR); [|exact I]. cbv zeta.
  repeat apply seq_noThrow; try exact I.
  - apply finishes_noThrow, ctx_arc_finishes. exact R.
  - apply IH; [apply add_not_negative; assumption | exact W].
Qed.

Lemma scale_not_negative height : (height <? 0) = false -> (Math_min 60 (height / 6) <? 0) = false.
Proof.
  intros H. apply Math_min_not_negative; [reflexivity|].
  apply div_not_negative; [reflexivity | reflexivity | exact H].
Qed.

Lemma phase_not_negative t wl : (t <? 0) = false -> ((t * 2) mod wl <? 0) = false.
Proof.
  intros H. apply rem_not_negative. apply mul_not_negative; [exact H | reflexivity].
Qed.

Lemma drawFrame_noThrow fuel width height size m t :
  (t <? 0) = false -> (wavelength m <? 0) = false -> (height <? 0) = false ->
  noThrow (drawFrame fuel width height size m t).
Proof.
  intros T W H. unfold drawFrame. cbv zeta.
  repeat apply seq_noThrow; try exact I.
  - apply gridColumns_noThrow.
  - apply gridRows_noThrow.
  - apply incidentWaves_noThrow; [apply phase_not_negative; exact T|].
    apply mul_not_negative; [exact W | apply scale_not_negative; exact H].
  - destruct (0.8 <? ratio m); [apply reflectedWaves_noThrow | exact I].
  - apply finishes_noThrow, ctx_arc_finishes. reflexivity.
Qed.

(** X5: a frame never throws as long as nothing is negative: on a surface
    with a height that is not negative, at a tick that is not negative, for a
    wavelength that is not negative, no call of [ctx.arc] gets a negative
    radius.  The reflected loop cannot throw at all. *)
Theorem drawFrame_never_throws (fuel : nat) (width height size : float)
    (m : AcousticMetrics) (t : float) :
  (t <? 0) = false -> (wavelength m <? 0) = false -> (height <? 0) = false ->
  (forall ops, drawFrame fuel width height size m t <> Threw ops)
  /\ (forall r maxR wl w sx ox cy op ops,
        reflectedWaves fuel r maxR wl w sx ox cy op <> Threw ops).
Proof.
  intros T W H. split.
  - intros ops E. pose proof (drawFrame_noThrow fuel width height size m t T W H) as N.
    rewrite E in N. exact N.
  - intros r maxR wl w sx ox cy op ops E.
    pose proof (reflectedWaves_noThrow fuel r maxR wl w sx ox cy op) as N.
    rewrite E in N. exact N.
Qed.

Lemma drawFrame_never_throws_witness :
  (3 <? 0) = false /\ (wavelength metricsZ <? 0) = false /\ (480 <? 0) = false
  /\ forall ops, drawFrame 100 800 480 1.0 metricsZ 3 <> Threw ops.
Proof.
  assert (H1 : (3 <? 0) = false) by reflexivity.
  assert (H2 : (wavelength metricsZ <? 0) = false) by (vm_compute; reflexivity).
  assert (H3 : (480 <? 0) = false) by reflexivity.
  exact (conj H1 (conj H2 (conj H3
           (proj1 (drawFrame_never_throws 100 800 480 1.0 metricsZ 3 H1 H2 H3))))).
Defined.

Section Progress.
Local Open Scope Z_scope.

Lemma number_of_Z_nonneg n : 0 <= n < 2 ^ 53 -> (0 <=? number_of_Z n)%float = true.
Proof.
  intros H. rewrite <- number_of_Z_0. apply number_of_Z_leb; lia.
Qed.

(** If the loop variable is at least [n], after a step of at least 1 it is
    at least [n + 1]. *)
Lemma step_progress n x step :
  0 <= n < 2 ^ 53 - 1 ->
  (number_of_Z n <=? x)%float = true -> (1 <=? step)%float = true ->
  (number_of_Z (n + 1) <=? x + step)%float = true.
Proof.
  intros N X S.
  rewrite <- (number_of_Z_add n 1), number_of_Z_1 by lia.
  apply add_monotone; [exact X | exact S | |].
  - rewrite <- number_of_Z_1, number_of_Z_add by lia.
    apply is_finite_not_nan. apply number_of_Z_exact. lia.
  - apply add_not_nan.
    + apply (leb_trans 0 (number_of_Z n) x); [apply number_of_Z_nonneg; lia | exact X].
    + apply (leb_trans 0 1 step); [reflexivity | exact S].
Qed.

(** A loop variable that is at least [B] is not below a bound of at most
    [B]. *)
Lemma beyond_bound B x bound :
  0 <= B < 2 ^ 53 ->
  (number_of_Z B <=? x)%float = true -> (bound <=? number_of_Z B)%float = true ->
  (x <? bound)%float = false.
Proof.
  intros HB X L. apply leb_not_ltb. exact (leb_trans bound (number_of_Z B) x L X).
Qed.

Variable B : Z.
Hypothesis B_range : 0 <= B < 2 ^ 52.

Lemma gridColumns_finishes w h ppm :
  (1 <=? ppm)%float = true -> (w <=? number_of_Z B)%float = true ->
  forall fuel n x,
    0 <= n <= B -> (number_of_Z n <=? x)%float = true ->
    (Z.to_nat (B - n) < fuel)%nat ->
    finishes (gridColumns fuel x w h ppm).
Proof.
  intros P W. induction fuel as [|fuel IH]; intros n x N X F; [lia|].
  cbn [gridColumns]. destruct (x <? w)%float eqn:T; [|eexists; reflexivity].
  assert (n < B).
  { destruct (Z.eq_dec n B) as [->|]; [|lia].
    rewrite (beyond_bound B x w) in T; [discriminate | lia | exact X | exact W]. }
  repeat apply seq_finishes; try apply call_finishes.
  apply (IH (n + 1)); [lia | apply step_progress; [lia | exact X | exact P] | lia].
Qed.

Lemma gridRows_finishes w h ppm :
  (1 <=? ppm)%float = true -> (h <=? number_of_Z B)%float = true ->
  forall fuel n y,
    0 <= n <= B -> (number_of_Z n <=? y)%float = true ->
    (Z.to_nat (B - n) < fuel)%nat ->
    finishes (gridRows fuel y w h ppm).
Proof.
  intros P W. induction fuel as [|fuel IH]; intros n y N Y F; [lia|].
  cbn [gridRows]. destruct (y <? h)%float eqn:T; [|eexists; reflexivity].
  assert (n < B).
  { destruct (Z.eq_dec n B) as [->|]; [|lia].
    rewrite (beyond_bound B y h) in T; [discriminate | lia | exact Y | exact W]. }
  repeat apply seq_finishes; try apply call_finishes.
  apply (IH (n + 1)); [lia | apply step_progress; [lia | exact Y | exact P] | lia].
Qed.

Lemma incidentWaves_finishes maxR wl sx cy :
  (1 <=? wl)%float = true -> (maxR <=? number_of_Z B)%float = true ->
  forall fuel n r,
    0 <= n <= B -> (number_of_Z n <=? r)%float = true ->
    (Z.to_nat (B - n) < fuel)%nat ->
    finishes (incidentWaves fuel r maxR wl sx cy).
Proof.
  intros P W. induction fuel as [|fuel IH]; intros n r N R F; [lia|].
  cbn [incidentWaves]. destruct (r <? maxR)%float eqn:T; [|eexists; reflexivity].
  assert (n < B).
  { destruct (Z.eq_dec n B) as [->|]; [|lia].
    rewrite (beyond_bound B r maxR) in T; [discriminate | lia | exact R | exact W]. }
  cbv zeta. repeat apply seq_finishes; try apply call_finishes.
  - apply ctx_arc_finishes, leb_not_ltb.
    apply (leb_trans 0 (number_of_Z n) r)%float; [apply number_of_Z_nonneg; lia | exact R].
  - apply (IH (n + 1)); [lia | apply step_progress; [lia | exact R | exact P] | lia].
Qed.

Lemma reflectedWaves_finishes maxR wl w sx ox cy op :
  (1 <=? wl)%float = true -> (maxR <=? number_of_Z B)%float = true ->
  forall fuel n r,
    0 <= n <= B -> (number_of_Z n <=? r)%float = true ->
    (Z.to_nat (B - n) < fuel)%nat ->
    finishes (reflectedWaves fuel r maxR wl w sx ox cy op).
Proof.
  intros P W. induction fuel as [|fuel IH]; intros n r N R F; [lia|].
  cbn [reflectedWaves]. destruct (r <? maxR)%float eqn:T; [|eexists; reflexivity].
  assert (n < B).
  { destruct (Z.eq_dec n B) as [->|]; [|lia].
    rewrite (beyond_bound B r maxR) in T; [discriminate | lia | exact R | exact W]. }
  cbv zeta. apply seq_finishes.
  - destruct (ox - sx <? r)%float; [|eexists; reflexivity].
    destruct (0 <? r - (ox - sx))%float eqn:G; [|eexists; reflexivity].
    repeat apply seq_finishes; try apply call_finishes.
    apply ctx_arc_finishes, leb_not_ltb, ltb_leb. exact G.
  - apply (IH (n + 1)); [lia | apply step_progress; [lia | exact R | exact P] | lia].
Qed.

(** A loop that starts at a [NaN] ends at once. *)
Lemma incidentWaves_from fuel r maxR wl sx cy :
  (1 <=? wl)%float = true -> (maxR <=? number_of_Z B)%float = true ->
  (r <? 0)%float = false -> (Z.to_nat B < fuel)%nat ->
  finishes (incidentWaves fuel r maxR wl sx cy).
Proof.
  intros P W R F. destruct (not_negative r R) as [Nr | Lr].
  - destruct fuel as [|fuel]; [lia|]. cbn [incidentWaves].
    rewrite (proj1 (nan_compares r maxR ltac:(rewrite Nr; reflexivity))).
    eexists. reflexivity.
  - apply (incidentWaves_finishes maxR wl sx cy P W fuel 0 r); [lia | | rewrite Z.sub_0_r; lia].
    rewrite number_of_Z_0. exact Lr.
Qed.

Lemma reflectedWaves_from fuel r maxR wl w sx ox cy op :
  (1 <=? wl)%float = true -> (maxR <=? number_of_Z B)%float = true ->
  (r <? 0)%float = false -> (Z.to_nat B < fuel)%nat ->
  finishes (reflectedWaves fuel r maxR wl w sx ox cy op).
Proof.
  intros P W R F. destruct (not_negative r R) as [Nr | Lr].
  - destruct fuel as [|fuel]; [lia|]. cbn [reflectedWaves].
    rewrite (proj1 (nan_compares r maxR ltac:(rewrite Nr; reflexivity))).
    eexists. reflexivity.
  - apply (reflectedWaves_finishes maxR wl w sx ox cy op P W fuel 0 r);
      [lia | | rewrite Z.sub_0_r; lia].
    rewrite number_of_Z_0. exact Lr.
Qed.

Lemma drawFrame_finishes fuel width height size m t :
  (Z.to_nat B < fuel)%nat ->
  (t <? 0)%float = false ->
  (1 <=? PIXELS_PER_METER height)%float = true ->
  (1 <=? wavelengthPx m height)%float = true ->
  (width <=? number_of_Z B)%float = true ->
  (height <=? number_of_Z B)%float = true ->
  (Math_hypot width height <=? number_of_Z B)%float = true ->
  finishes (drawFrame fuel width height size m t).
Proof.
  intros F T P W Bw Bh Br.
  assert (Z0 : (number_of_Z 0 <=? 0)%float = true) by (rewrite number_of_Z_0; reflexivity).
  destruct (gridColumns_finishes width height _ P Bw fuel 0 0%float) as (gc & Hgc);
    [lia | exact Z0 | rewrite Z.sub_0_r; lia|].
  destruct (gridRows_finishes width height _ P Bh fuel 0 0%float) as (gr & Hgr);
    [lia | exact Z0 | rewrite Z.sub_0_r; lia|].
  assert (Ph : (phaseOffset t m height <? 0)%float = false)
    by (apply phase_not_negative; exact T).
  destruct (incidentWaves_from fuel (phaseOffset t m height) (Math_hypot width height)
              (wavelengthPx m height) (width * 0.15)%float (height / 2)%float W Br Ph F)
    as (inc & Hinc).
  assert (Hrf : finishes (reflectedPass fuel width height m t (reflectionOpacity (ratio m)))).
  { unfold reflectedPass. destruct (0.8 <? ratio m)%float; [|eexists; reflexivity].
    apply reflectedWaves_from; assumption. }
  destruct Hrf as (rf & Hrf).
  exact (drawFrame_returns fuel width height size m t gc gr inc rf Hgc Hgr Hinc Hrf).
Qed.
End Progress.

(** X6: a frame ends.  When the scale and the wavelength in pixels are at
    least one pixel, the surface and its diagonal are at most [B] pixels and
    the tick is not negative, the four loops of a frame together take no more
    than [B + 1] turns each, and the frame returns without an exception. *)
Theorem drawFrame_terminates (B : Z) (fuel : nat) (width height size : float)
    (m : AcousticMetrics) (t : float) :
  (0 <= B < 2 ^ 52)%Z -> (Z.to_nat B < fuel)%nat ->
  (t <? 0) = false ->
  (1 <=? PIXELS_PER_METER height) = true ->
  (1 <=? wavelengthPx m height) = true ->
  (width <=? number_of_Z B) = true ->
  (height <=? number_of_Z B) = true ->
  (Math_hypot width height <=? number_of_Z B) = true ->
  exists ops, drawFrame fuel width height size m t = Returned ops.
Proof.
  intros HB F T P W Bw Bh Br.
  exact (drawFrame_finishes B HB fuel width height size m t F T P W Bw Bh Br).
Qed.

Lemma drawFrame_terminates_witness :
  (0 <= 1024 < 2 ^ 52)%Z /\ (Z.to_nat 1024 < 1025)%nat
  /\ (7 <? 0) = false
  /\ (1 <=? PIXELS_PER_METER 480) = true
  /\ (1 <=? wavelengthPx metrics0 480) = true
  /\ (800 <=? number_of_Z 1024) = true
  /\ (480 <=? number_of_Z 1024) = true
  /\ (Math_hypot 800 480 <=? number_of_Z 1024) = true
  /\ exists ops, drawFrame 1025 800 480 1.0 metrics0 7 = Returned ops.
Proof.
  assert (H1 : (0 <= 1024 < 2 ^ 52)%Z) by (vm_compute; split; [discriminate | reflexivity]).
  assert (H2 : (Z.to_nat 1024 < 1025)%nat) by (vm_compute; lia).
  assert (H3 : (7 <? 0) = false) by reflexivity.
  assert (H4 : (1 <=? PIXELS_PER_METER 480) = true) by (vm_compute; reflexivity).
  assert (H5 : (1 <=? wavelengthPx metrics0 480) = true) by (vm_compute; reflexivity).
  assert (H6 : (800 <=? number_of_Z 1024) = true) by (vm_compute; reflexivity).
  assert (H7 : (480 <=? number_of_Z 1024) = true) by (vm_compute; reflexivity).
  assert (H8 : (Math_hypot 800 480 <=? number_of_Z 1024) = true) by (vm_compute; reflexivity).
  exact (conj H1 (conj H2 (conj H3 (conj H4 (conj H5 (conj H6 (conj H7 (conj H8
           (drawFrame_terminates 1024 1025 800 480 1.0 metrics0 7
              H1 H2 H3 H4 H5 H6 H7 H8))))))))).
Defined.

Lemma mul_monotone_finite a a' b b' :
  is_finite a = true -> is_finite a' = true -> is_finite b = true -> is_finite b' = true ->
  (0 <=? a) = true -> (a <=? a') = true -> (0 <=? b) = true -> (b <=? b') = true ->
  (a * b <=? a' * b') = true.
Proof.
  intros Fa Fa' Fb Fb' Pa La Pb Lb.
  apply rounds_leb with (1 := mul_rounds a b Fa Fb) (2 := mul_rounds a' b' Fa' Fb').
  apply leb_value in Pa, La, Pb, Lb; auto.
  replace (value 0) with 0%R in * by (unfold value; rewrite Prim2SF_0; reflexivity).
  apply Rmult_le_compat; assumption.
Qed.

(** The scale is between 6 and 60 pixels per metre from a height of 36
    pixels on. *)
Lemma scale_bounds height hi :
  (36 <=? height) = true -> (height <=? hi) = true -> is_finite hi = true ->
  (6 <=? PIXELS_PER_METER height) = true
  /\ (PIXELS_PER_METER height <=? 60) = true
  /\ is_finite (PIXELS_PER_METER height) = true.
Proof.
  intros L U Fh.
  assert (Q : (6 <=? height / 6) = true).
  { replace 6 with (36 / 6) at 1 by (vm_compute; reflexivity).
    apply div_monotone_numerator; [reflexivity | reflexivity | exact L]. }
  destruct (leb_not_nan _ _ Q) as (_ & Nq).
  assert (G : (6 <=? PIXELS_PER_METER height) = true
              /\ (PIXELS_PER_METER height <=? 60) = true).
  { unfold PIXELS_PER_METER, Math_min. rewrite Nq. cbn [is_nan orb].
    replace (is_nan 60) with false by reflexivity. cbn [orb].
    destruct (60 <? height / 6) eqn:A; [split; reflexivity|].
    destruct (height / 6 <? 60) eqn:C.
    - split; [exact Q | apply ltb_leb; exact C].
    - replace (get_sign 60) with false by reflexivity.
      split; [exact Q | apply ltb_false_leb; auto]. }
  destruct G as (G1 & G2). split; [exact G1 | split; [exact G2 |]].
  apply (bounded_is_finite 6 _ 60); auto.
Qed.

Lemma slider_frame_finishes (B : Z) (fuel : nat) (f size width height t : float) :
  (0 <= B < 2 ^ 52)%Z -> (Z.to_nat B < fuel)%nat ->
  (50 <=? f) = true -> (f <=? 2000) = true ->
  (0.1 <=? size) = true -> (size <=? 5) = true ->
  (t <? 0) = false ->
  (36 <=? height) = true ->
  (width <=? number_of_Z B) = true ->
  (height <=? number_of_Z B) = true ->
  (Math_hypot width height <=? number_of_Z B) = true ->
  finishes (drawFrame fuel width height size
              (calculateMetrics {| frequency := f; obstacleSize := size; temperature := 20 |})
              t).
Proof.
  intros HB F F1 F2 S1 S2 T H36 Bw Bh Br.
  destruct (slider_range_bounds f size F1 F2 S1 S2) as (W1 & W2 & _ & _ & Fw & _).
  cbv zeta in *.
  set (m := calculateMetrics {| frequency := f; obstacleSize := size; temperature := 20 |}) in *.
  assert (FB : is_finite (number_of_Z B) = true) by (apply number_of_Z_exact; lia).
  destruct (scale_bounds height (number_of_Z B) H36 Bh FB) as (P1 & P2 & P3).
  apply (drawFrame_finishes B HB); auto.
  - apply (leb_trans 1 6 (PIXELS_PER_METER height)); [reflexivity | exact P1].
  - unfold wavelengthPx.
    apply (leb_trans 1 (0.17 * 6) (wavelength m * PIXELS_PER_METER height));
      [vm_compute; reflexivity|].
    apply mul_monotone_finite; auto.
Qed.

(** X7: whatever the sliders are set to, the frame is drawn.  For every
    frequency and obstacle size in the sliders' ranges, at every tick, on a
    surface at least 36 pixels high whose sides and diagonal are at most [B]
    pixels, the frame returns without an exception within [B + 1] turns of
    each loop. *)
Theorem slider_frames_return (B : Z) (fuel : nat) (f size width height t : float) :
  (0 <= B < 2 ^ 52)%Z -> (Z.to_nat B < fuel)%nat ->
  (50 <=? f) = true -> (f <=? 2000) = true ->
  (0.1 <=? size) = true -> (size <=? 5) = true ->
  (t <? 0) = false ->
  (36 <=? height) = true ->
  (width <=? number_of_Z B) = true ->
  (height <=? number_of_Z B) = true ->
  (Math_hypot width height <=? number_of_Z B) = true ->
  exists ops,
    drawFrame fuel width height size
      (calculateMetrics {| frequency := f; obstacleSize := size; temperature := 20 |}) t
    = Returned ops.
Proof.
  intros HB F F1 F2 S1 S2 T H36 Bw Bh Br.
  exact (slider_frame_finishes B fuel f size width height t HB F F1 F2 S1 S2 T H36 Bw Bh Br).
Qed.

Lemma slider_frames_return_witness :
  (0 <= 1024 < 2 ^ 52)%Z /\ (Z.to_nat 1024 < 1025)%nat
  /\ (50 <=? 1000) = true /\ (1000 <=? 2000) = true
  /\ (0.1 <=? 2.5) = true /\ (2.5 <=? 5) = true
  /\ (12 <? 0) = false
  /\ (36 <=? 480) = true
  /\ (800 <=? number_of_Z 1024) = true
  /\ (480 <=? number_of_Z 1024) = true
  /\ (Math_hypot 800 480 <=? number_of_Z 1024) = true
  /\ exists ops,
       drawFrame 1025 800 480 2.5
         (calculateMetrics {| frequency := 1000; obstacleSize := 2.5; temperature := 20 |}) 12
       = Returned ops.
Proof.
  assert (H1 : (0 <= 1024 < 2 ^ 52)%Z) by (vm_compute; split; [discriminate | reflexivity]).
  assert (H2 : (Z.to_nat 1024 < 1025)%nat) by (vm_compute; lia).
  assert (H3 : (50 <=? 1000) = true) by reflexivity.
  assert (H4 : (1000 <=? 2000) = true) by reflexivity.
  assert (H5 : (0.1 <=? 2.5) = true) by reflexivity.
  assert (H6 : (2.5 <=? 5) = true) by reflexivity.
  assert (H7 : (12 <? 0) = false) by reflexivity.
  assert (H8 : (36 <=? 480) = true) by reflexivity.
  assert (H9 : (800 <=? number_of_Z 1024) = true) by (vm_compute; reflexivity).
  assert (H10 : (480 <=? number_of_Z 1024) = true) by (vm_compute; reflexivity).
  assert (H11 : (Math_hypot 800 480 <=? number_of_Z 1024) = true) by (vm_compute; reflexivity).
  exact (conj H1 (conj H2 (conj H3 (conj H4 (conj H5 (conj H6 (conj H7 (conj H8
          (conj H9 (conj H10 (conj H11
            (slider_frames_return 1024 1025 1000 2.5 800 480 12
               H1 H2 H3 H4 H5 H6 H7 H8 H9 H10 H11)))))))))))).
Defined.

Lemma drawFrame_shape fuel width height size m t ops :
  drawFrame fuel width height size m t = Returned ops ->
  exists gc gr inc rf,
    gridColumns fuel 0 width height (PIXELS_PER_METER height) = Returned gc
    /\ gridRows fuel 0 width height (PIXELS_PER_METER height) = Returned gr
    /\ incidentWaves fuel (phaseOffset t m height) (Math_hypot width height)
         (wavelengthPx m height) (width * 0.15) (height / 2) = Returned inc
    /\ reflectedPass fuel width height m t (reflectionOpacity (ratio m)) = Returned rf
    /\ ops = framePrologue width height ++ gc ++ gr ++ [stroke; lineWidth 2; save]
             ++ inc ++ shadowOps width height size (diffractionFactor (ratio m))
             ++ rf ++ frameEpilogue width height size m.
Proof.
  unfold drawFrame, reflectedPass, phaseOffset, wavelengthPx, PIXELS_PER_METER,
    framePrologue, frameEpilogue, shadowOps, shadowZone, PIXELS_PER_METER.
  cbv zeta.
  rewrite ctx_arc_nonnegative by (vm_compute; reflexivity).
  destruct (gridColumns fuel 0 width height _) as [gc| |]; [|discriminate|discriminate].
  destruct (gridRows fuel 0 width height _) as [gr| |];
    [|cbn [seq call]; discriminate|cbn [seq call]; discriminate].
  destruct (incidentWaves fuel _ _ _ _ _) as [inc| |];
    [|cbn [seq call]; discriminate|cbn [seq call]; discriminate].
  match goal with |- context [if ?c then ?a else ?b] => destruct (if c then a else b) as [rf| |] end;
    [|cbn [seq call]; discriminate|cbn [seq call]; discriminate].
  cbn [seq call]. intros H. inversion H; subst ops; clear H.
  exists gc, gr, inc, rf. repeat split; reflexivity.
Qed.









Lemma number_equal x y :
  (x <=? y) = true -> (y <=? x) = true -> is_finite x = true -> value x <> 0%R -> x = y.
Proof.
  intros A B F N.
  assert (Fy : is_finite y = true) by exact (bounded_is_finite x y x A B F F).
  apply leb_value in A, B; auto.
  apply (rounds_unique (value x)); [exact N | apply rounds_self; exact F|].
  replace (value x) with (value y) by lra. apply rounds_self. exact Fy.
Qed.

Lemma scale_of_tall_surface (H : Z) :
  (360 <= H < 2 ^ 53)%Z -> PIXELS_PER_METER (number_of_Z H) = 60.
Proof.
  intros R.
  assert (L : (360 <=? number_of_Z H) = true).
  { replace 360 with (number_of_Z 360) by (vm_compute; reflexivity).
    apply number_of_Z_leb; lia. }
  assert (Q : (60 <=? number_of_Z H / 6) = true).
  { replace 60 with (360 / 6) at 1 by (vm_compute; reflexivity).
    apply div_monotone_numerator; [reflexivity | reflexivity | exact L]. }
  destruct (leb_not_nan _ _ Q) as (_ & Nq).
  unfold PIXELS_PER_METER, Math_min. rewrite Nq.
  replace (is_nan 60) with false by reflexivity. cbn [orb].
  destruct (60 <? number_of_Z H / 6) eqn:A; [reflexivity|].
  rewrite (leb_not_ltb _ _ Q).
  replace (get_sign 60) with false by reflexivity.
  symmetry. apply number_equal; [exact Q | | reflexivity |].
  - apply ltb_false_leb; auto.
  - unfold value. replace (Prim2SF 60) with (S754_finite false 8444249301319680 (-47))
      by (vm_compute; reflexivity).
    cbn [B2R]. pose proof (pow2_pos (-47)).
    assert (0 < IZR 8444249301319680)%R by (apply IZR_lt; lia). nra.
Qed.

Section Grid.
Local Open Scope Z_scope.

Lemma linesBelow_spec n k : 0 <= n -> (60 * Z.of_nat k < n <-> (k < linesBelow n)%nat).
Proof.
  intros N. unfold linesBelow.
  pose proof (Z.div_mod (n + 59) 60 ltac:(lia)) as D.
  pose proof (Z.mod_pos_bound (n + 59) 60 ltac:(lia)) as M.
  assert (P : 0 <= (n + 59) / 60) by (apply Z.div_pos; lia).
  split; intros K; lia.
Qed.

Lemma sixty : number_of_Z 60 = 60%float.
Proof. vm_compute; reflexivity. Qed.

Lemma next_line k :
  60 * Z.of_nat k + 60 < 2 ^ 53 ->
  (number_of_Z (60 * Z.of_nat k) + 60)%float = number_of_Z (60 * Z.of_nat (S k)).
Proof.
  intros B. rewrite <- sixty, number_of_Z_add by lia. f_equal. lia.
Qed.

Lemma gridColumns_lines W h :
  0 <= W < 2 ^ 52 ->
  forall j fuel k,
    (k + j = linesBelow W)%nat -> (j < fuel)%nat ->
    gridColumns fuel (number_of_Z (60 * Z.of_nat k)) (number_of_Z W) h 60
    = Returned (flat_map (columnLine h) (List.seq k j)).
Proof.
  intros HW. induction j as [|j IH]; intros fuel k E F;
    (destruct fuel as [|fuel]; [lia|]); cbn [gridColumns].
  - assert (T : (number_of_Z (60 * Z.of_nat k) <? number_of_Z W)%float = false).
    { destruct (number_of_Z (60 * Z.of_nat k) <? number_of_Z W)%float eqn:T; [|reflexivity].
      assert (60 * Z.of_nat k < 2 ^ 53).
      { pose proof (proj2 (linesBelow_spec W (k - 1) ltac:(lia))). lia. }
      apply number_of_Z_ltb in T; [|lia|lia].
      apply linesBelow_spec in T; lia. }
    rewrite T. reflexivity.
  - assert (K : 60 * Z.of_nat k < W) by (apply linesBelow_spec; lia).
    assert (T : (number_of_Z (60 * Z.of_nat k) <? number_of_Z W)%float = true)
      by (apply number_of_Z_ltb; lia).
    rewrite T, next_line by lia.
    rewrite (IH fuel (S k)) by lia. reflexivity.
Qed.

Lemma gridRows_lines w H :
  0 <= H < 2 ^ 52 ->
  forall j fuel k,
    (k + j = linesBelow H)%nat -> (j < fuel)%nat ->
    gridRows fuel (number_of_Z (60 * Z.of_nat k)) w (number_of_Z H) 60
    = Returned (flat_map (rowLine w) (List.seq k j)).
Proof.
  intros HH. induction j as [|j IH]; intros fuel k E F;
    (destruct fuel as [|fuel]; [lia|]); cbn [gridRows].
  - assert (T : (number_of_Z (60 * Z.of_nat k) <? number_of_Z H)%float = false).
    { destruct (number_of_Z (60 * Z.of_nat k) <? number_of_Z H)%float eqn:T; [|reflexivity].
      assert (60 * Z.of_nat k < 2 ^ 53).
      { pose proof (proj2 (linesBelow_spec H (k - 1) ltac:(lia))). lia. }
      apply number_of_Z_ltb in T; [|lia|lia].
      apply linesBelow_spec in T; lia. }
    rewrite T. reflexivity.
  - assert (K : 60 * Z.of_nat k < H) by (apply linesBelow_spec; lia).
    assert (T : (number_of_Z (60 * Z.of_nat k) <? number_of_Z H)%float = true)
      by (apply number_of_Z_ltb; lia).
    rewrite T, next_line by lia.
    rewrite (IH fuel (S k)) by lia. reflexivity.
Qed.
End Grid.

(** X9: the grid has one line per metre.  On a surface of [W] x [H] pixels
    that is at least 360 pixels high the scale is 60 pixels per metre, and
    the grid loops draw the vertical lines at x = 0, 60, 120, ... below [W]
    and the horizontal ones at y = 0, 60, 120, ... below [H], each once, in
    that order, and nothing else. *)
Theorem grid_has_a_line_per_metre (W H : Z) (fuel : nat) :
  (0 <= W < 2 ^ 52)%Z -> (360 <= H < 2 ^ 52)%Z ->
  (linesBelow W < fuel)%nat -> (linesBelow H < fuel)%nat ->
  PIXELS_PER_METER (number_of_Z H) = 60
  /\ gridColumns fuel 0 (number_of_Z W) (number_of_Z H) (PIXELS_PER_METER (number_of_Z H))
     = Returned (flat_map (columnLine (number_of_Z H)) (List.seq 0%nat (linesBelow W)))
  /\ gridRows fuel 0 (number_of_Z W) (number_of_Z H) (PIXELS_PER_METER (number_of_Z H))
     = Returned (flat_map (rowLine (number_of_Z W)) (List.seq 0%nat (linesBelow H))).
Proof.
  intros HW HH FW FH.
  assert (P : PIXELS_PER_METER (number_of_Z H) = 60) by (apply scale_of_tall_surface; lia).
  rewrite P. split; [reflexivity|].
  split.
  - pose proof (gridColumns_lines W (number_of_Z H) HW (linesBelow W) fuel 0%nat eq_refl FW)
      as G.
    change (60 * Z.of_nat 0)%Z with 0%Z in G. rewrite number_of_Z_0 in G. exact G.
  - assert (HH' : (0 <= H < 2 ^ 52)%Z) by lia.
    pose proof (gridRows_lines (number_of_Z W) H HH' (linesBelow H) fuel 0%nat eq_refl FH)
      as G.
    change (60 * Z.of_nat 0)%Z with 0%Z in G. rewrite number_of_Z_0 in G. exact G.
Qed.

Lemma grid_has_a_line_per_metre_witness :
  (0 <= 800 < 2 ^ 52)%Z /\ (360 <= 480 < 2 ^ 52)%Z
  /\ (linesBelow 800 < 100)%nat /\ (linesBelow 480 < 100)%nat
  /\ gridColumns 100 0 (number_of_Z 800) (number_of_Z 480)
       (PIXELS_PER_METER (number_of_Z 480))
     = Returned (flat_map (columnLine (number_of_Z 480)) (List.seq 0%nat (linesBelow 800))).
Proof.
  assert (H1 : (0 <= 800 < 2 ^ 52)%Z) by (vm_compute; split; [discriminate | reflexivity]).
  assert (H2 : (360 <= 480 < 2 ^ 52)%Z) by (vm_compute; split; [discriminate | reflexivity]).
  assert (H3 : (linesBelow 800 < 100)%nat) by (vm_compute; lia).
  assert (H4 : (linesBelow 480 < 100)%nat) by (vm_compute; lia).
  exact (conj H1 (conj H2 (conj H3 (conj H4
           (proj1 (proj2 (grid_has_a_line_per_metre 800 480 100 H1 H2 H3 H4))))))).
Defined.

Section Remainder.
Local Open Scope Z_scope.

(** A multiple of [2^j] with fewer than 54 bits, at an exponent a number can
    have, rounds to itself. *)
Lemma Rnd_exact_grid s v z k j :
  Rnd s v z -> 0 < k -> v = (IZR k * pow2 j)%R ->
  (forall g, mag v g -> fexp64 g <= j) -> j <= 971 ->
  exists p e, z = S754_finite s p e /\ (IZR (Zpos p) * pow2 e)%R = v.
Proof.
  intros (g & m & Hg & HNE & ->) Hk Hv Hj J.
  pose proof (Hj g Hg) as J1.
  assert (Hvpos : (0 < v)%R).
  { rewrite Hv. apply Rmult_lt_0_compat; [apply IZR_lt; lia | apply pow2_pos]. }
  set (e := fexp64 g) in *.
  assert (Hw : (v / pow2 e = IZR (k * 2 ^ (j - e)))%R).
  { rewrite Hv, IZR_shift by lia. unfold Rdiv. rewrite Rmult_assoc. f_equal.
    rewrite pow2_sub. reflexivity. }
  rewrite Hw in HNE. apply NE_integer in HNE.
  assert (Hm : 0 < m) by (rewrite HNE; apply Z.mul_pos_pos; [lia | apply Z.pow_pos_nonneg; lia]).
  assert (Hval : (IZR m * pow2 e = v)%R).
  { rewrite HNE, <- Hw. pose proof (pow2_pos e). field. lra. }
  assert (M53 : m < 2 ^ 53).
  { destruct Hg as (_ & U). rewrite <- Hval in U.
    assert (E53 : g - e <= 53) by (subst e; rewrite fexp64_eq; lia).
    assert (IZR m < pow2 (g - e))%R.
    { rewrite pow2_sub. pose proof (pow2_pos e).
      apply Rmult_lt_reg_r with (pow2 e); [assumption|].
      unfold Rdiv. rewrite Rmult_assoc, Rinv_l, Rmult_1_r by lra. exact U. }
    assert (pow2 (g - e) <= pow2 53)%R by (apply pow2_le; exact E53).
    rewrite (pow2_IZR 53) in H0 by lia.
    apply lt_IZR. lra. }
  unfold float_of. destruct m as [|p|p]; try lia.
  destruct (Z.eqb_spec (Zpos p) (2 ^ 53)) as [E|NE']; [lia|].
  destruct (Z.leb_spec e 971); [|lia].
  exists p, e. split; [reflexivity | exact Hval].
Qed.

Lemma binary_normalize_exact M e :
  0 <= M < 2 ^ 53 -> -1074 <= e <= 971 ->
  SFfinite (binary_normalize prec emax M e false) = true
  /\ B2R (binary_normalize prec emax M e false) = (IZR M * pow2 e)%R
  /\ valid_binary (binary_normalize prec emax M e false) = true.
Proof.
  intros HM He.
  pose proof (binary_normalize_RND M e) as R.
  pose proof (RNDz_valid _ _ (RND_RNDz _ _ R)) as V.
  destruct M as [|p|p]; [cbn; split; [reflexivity | split; [lra | reflexivity]] | | lia].
  destruct R as [(E0 & _) | [(P & H) | (N & _)]].
  - pose proof (pow2_pos e). assert (0 < IZR (Zpos p))%R by (apply IZR_lt; lia). nra.
  - destruct (Rnd_exact_grid false _ _ (Zpos p) e H ltac:(lia) eq_refl) as (q & e' & E & Val).
    + intros g Hg. rewrite (mag_unique _ _ _ Hg (mag_mantissa p e)).
      pose proof (digits2_le p 53 ltac:(lia) ltac:(lia)). rewrite fexp64_eq. lia.
    + lia.
    + rewrite E in *. split; [reflexivity | split; [exact Val | exact V]].
  - pose proof (pow2_pos e). assert (0 < IZR (Zpos p))%R by (apply IZR_lt; lia). nra.
Qed.
End Remainder.

Lemma rem_finite_exact x y mx ex sy my ey :
  Prim2SF x = S754_finite false mx ex -> Prim2SF y = S754_finite sy my ey ->
  exists q r : Z,
    (0 <= q)%Z /\ (0 <= r)%Z
    /\ is_finite (x mod y) = true
    /\ value x = (IZR q * Rabs (value y) + value (x mod y))%R
    /\ (0 <= value (x mod y) < Rabs (value y))%R.
Proof.
  intros Ex Ey.
  pose proof (Prim2SF_valid x) as Vx. pose proof (Prim2SF_valid y) as Vy.
  rewrite Ex in Vx. rewrite Ey in Vy. cbn [valid_binary] in Vx, Vy.
  destruct (bounded_canonical mx ex Vx) as (_ & X2 & X3 & _).
  destruct (bounded_canonical my ey Vy) as (_ & Y2 & Y3 & _).
  set (e := Z.min ex ey).
  set (n := (Zpos mx * 2 ^ (ex - e))%Z).
  set (d := (Zpos my * 2 ^ (ey - e))%Z).
  assert (Pn : (0 < n)%Z) by (subst n; apply Z.mul_pos_pos; [lia | apply Z.pow_pos_nonneg; lia]).
  assert (Pd : (0 < d)%Z) by (subst d; apply Z.mul_pos_pos; [lia | apply Z.pow_pos_nonneg; lia]).
  assert (Hr : (0 <= Z.rem n d < d)%Z) by (apply Z.rem_bound_pos; lia).
  assert (Hrn : (Z.rem n d <= n)%Z).
  { rewrite Z.rem_mod_nonneg by lia. apply Z.mod_le; lia. }
  assert (M53 : (Z.rem n d < 2 ^ 53)%Z).
  { destruct (Z.le_ge_cases ex ey).
    - assert (n = Zpos mx) by (subst n e; rewrite Z.min_l, Z.sub_diag by lia; lia). lia.
    - assert (d = Zpos my) by (subst d e; rewrite Z.min_r, Z.sub_diag by lia; lia). lia. }
  assert (He : (-1074 <= e <= 971)%Z) by (subst e; lia).
  destruct (binary_normalize_exact (Z.rem n d) e ltac:(lia) He) as (F & Val & V).
  assert (R : Prim2SF (x mod y) = binary_normalize prec emax (Z.rem n d) e false).
  { unfold Number_remainder. rewrite Ex, Ey. cbn [SFrem]. cbv zeta. cbn [cond_Zopp].
    fold e. fold n. fold d. apply Prim2SF_SF2Prim. exact V. }
  assert (Vx' : value x = (IZR n * pow2 e)%R).
  { unfold value. rewrite Ex. cbn [B2R]. subst n. rewrite IZR_shift by lia.
    rewrite Rmult_assoc, <- pow2_add. f_equal. f_equal. lia. }
  assert (Vy' : Rabs (value y) = (IZR d * pow2 e)%R).
  { unfold value. rewrite Ey. cbn [B2R].
    assert (P : (0 < IZR (Zpos my) * pow2 ey)%R).
    { apply Rmult_lt_0_compat; [apply IZR_lt; lia | apply pow2_pos]. }
    replace (Rabs (if sy then - (IZR (Zpos my) * pow2 ey) else IZR (Zpos my) * pow2 ey))%R
      with (IZR (Zpos my) * pow2 ey)%R.
    - subst d. rewrite IZR_shift by lia.
      rewrite Rmult_assoc, <- pow2_add. f_equal. f_equal. lia.
    - destruct sy; [rewrite Rabs_Ropp|]; rewrite Rabs_pos_eq; lra. }
  exists (Z.quot n d), (Z.rem n d).
  split; [apply Z.quot_pos; lia|]. split; [lia|].
  split; [rewrite is_finite_spec, R; exact F|].
  assert (Vr : value (x mod y) = (IZR (Z.rem n d) * pow2 e)%R).
  { unfold value. rewrite R. exact Val. }
  pose proof (pow2_pos e) as Pe.
  split.
  - rewrite Vx', Vy', Vr.
    rewrite (Z.quot_rem' n d) at 1. rewrite plus_IZR, mult_IZR. ring.
  - rewrite Vy', Vr. split.
    + apply Rmult_le_pos; [apply IZR_le; lia | lra].
    + apply Rmult_lt_compat_r; [exact Pe | apply IZR_lt; lia].
Qed.

Lemma rem_in_range a w :
  is_finite a = true -> (a <? 0) = false -> is_finite w = true -> (0 <? w) = true ->
  is_finite (a mod w) = true
  /\ (0 <= value (a mod w) < value w)%R
  /\ exists q : Z, (0 <= q)%Z /\ value a = (IZR q * value w + value (a mod w))%R.
Proof.
  intros Fa Na Fw Pw.
  pose proof (positive_value w Fw Pw) as Vw.
  destruct (positive_finite_shape w Fw Pw) as (mw & ew & Ew).
  rewrite is_finite_spec in Fa.
  destruct (not_negative_shape a Na) as [E | [(s & E) | [E | (ma & ea & E)]]];
    try (rewrite E in Fa; discriminate).
  - assert (R : a mod w = a).
    { unfold Number_remainder. rewrite E, Ew. cbn [SFrem]. rewrite <- E. apply SF2Prim_Prim2SF. }
    rewrite R. assert (Va : value a = 0%R) by (unfold value; rewrite E; reflexivity).
    split; [rewrite is_finite_spec, E; reflexivity|].
    split; [rewrite Va; lra|]. exists 0%Z. split; [lia | rewrite Va; lra].
  - destruct (rem_finite_exact a w ma ea false mw ew E Ew) as (q & r & Q & _ & F & V & B).
    rewrite Rabs_pos_eq in V, B by lra.
    split; [exact F | split; [exact B | exists q; split; assumption]].
Qed.

(** X10: the phase stays within one wavelength.  For a tick that is not
    negative and a finite positive wavelength in pixels, [phaseOffset] is the
    exact remainder of [2 t] by the wavelength: not negative, below the
    wavelength, and a whole number of wavelengths away from [2 t]. *)
Theorem phaseOffset_in_range (t : float) (m : AcousticMetrics) (height : float) :
  is_finite (t * 2) = true -> (t <? 0) = false ->
  is_finite (wavelengthPx m height) = true -> (0 <? wavelengthPx m height) = true ->
  (0 <=? phaseOffset t m height) = true
  /\ (phaseOffset t m height <? wavelengthPx m height) = true
  /\ exists q : Z,
       (0 <= q)%Z
       /\ value (t * 2)
          = (IZR q * value (wavelengthPx m height) + value (phaseOffset t m height))%R.
Proof.
  intros Fa Nt Fw Pw.
  assert (Na : (t * 2 <? 0) = false) by (apply mul_not_negative; [exact Nt | reflexivity]).
  destruct (rem_in_range (t * 2) (wavelengthPx m height) Fa Na Fw Pw) as (F & (B1 & B2) & Q).
  fold (phaseOffset t m height) in F, B1, B2, Q.
  split; [|split; [|exact Q]].
  - apply leb_value; [reflexivity | exact F|].
    replace (value 0) with 0%R by (unfold value; rewrite Prim2SF_0; reflexivity). exact B1.
  - apply ltb_value; [exact F | exact Fw | exact B2].
Qed.

Lemma phaseOffset_in_range_witness :
  is_finite (250 * 2) = true /\ (250 <? 0) = false
  /\ is_finite (wavelengthPx metrics0 480) = true /\ (0 <? wavelengthPx metrics0 480) = true
  /\ (phaseOffset 250 metrics0 480 <? wavelengthPx metrics0 480) = true.
Proof.
  assert (H1 : is_finite (250 * 2) = true) by reflexivity.
  assert (H2 : (250 <? 0) = false) by reflexivity.
  assert (H3 : is_finite (wavelengthPx metrics0 480) = true) by (vm_compute; reflexivity).
  assert (H4 : (0 <? wavelengthPx metrics0 480) = true) by (vm_compute; reflexivity).
  exact (conj H1 (conj H2 (conj H3 (conj H4
           (proj1 (proj2 (phaseOffset_in_range 250 metrics0 480 H1 H2 H3 H4))))))).
Defined.

Lemma value_0 : value 0 = 0%R.
Proof. unfold value. rewrite Prim2SF_0. reflexivity. Qed.

Lemma value_1 : value 1 = 1%R.
Proof. unfold value. rewrite Prim2SF_1. exact B2R_one. Qed.

Lemma mul_comm a b : a * b = b * a.
Proof.
  apply Prim2SF_inj. rewrite !mul_spec. unfold SF64mul.
  destruct (Prim2SF a) as [sa|sa| |sa ma ea]; destruct (Prim2SF b) as [sb|sb| |sb mb eb];
    cbn [SFmul]; try reflexivity;
    try (rewrite (xorb_comm sa sb); reflexivity).
  rewrite (xorb_comm sa sb), (Pos.mul_comm ma mb), (Z.add_comm ea eb). reflexivity.
Qed.

(** [Math.max(0, x)] is between 0 and any bound of [x] that is not
    negative. *)
Lemma Math_max_zero x c :
  is_nan x = false -> (x <=? c) = true -> (0 <=? c) = true ->
  (0 <=? Math_max 0 x) = true /\ (Math_max 0 x <=? c) = true.
Proof.
  intros N L C. unfold Math_max. rewrite N.
  replace (is_nan 0) with false by reflexivity. cbn [orb].
  destruct (0 <? x) eqn:A; [split; [apply ltb_leb; exact A | exact L]|].
  destruct (x <? 0); [split; [reflexivity | exact C]|].
  replace (get_sign 0) with false by reflexivity. split; [reflexivity | exact C].
Qed.

Lemma sub_from_one q :
  (0 <=? q) = true -> is_nan (1 - q) = false /\ (1 - q <=? 1) = true.
Proof.
  intros Q. destruct (leb_not_nan _ _ Q) as (_ & Nq).
  destruct (number_cases q) as [X | [F | [-> | ->]]]; [congruence | | |].
  - pose proof (sub_rounds 1 q eq_refl F) as R.
    split; [exact (rounds_not_nan _ _ R)|].
    assert (R1 : rounds 1%R 1) by (rewrite <- value_1; apply rounds_self; reflexivity).
    apply (rounds_leb (value 1 - value q)%R 1%R (1 - q) 1 R R1).
    apply leb_value in Q; [|reflexivity | exact F]. rewrite value_0 in Q. rewrite value_1. lra.
  - split; vm_compute; reflexivity.
  - discriminate.
Qed.

(** The opacity of the shadow. *)
Lemma shadow_alpha r :
  is_nan r = false ->
  (0 <=? 1 - diffractionFactor r) = true /\ (1 - diffractionFactor r <=? 1) = true.
Proof.
  intros N. rewrite is_nan_spec in N.
  destruct (SFdf_value (Prim2SF r) (Prim2SF_valid r) N) as (F & V).
  rewrite <- diffractionFactor_spec in F, V. rewrite <- is_finite_spec in F.
  fold (value (diffractionFactor r)) in V.
  pose proof (sub_rounds 1 (diffractionFactor r) eq_refl F) as R.
  rewrite value_1, V in R.
  assert (B : (0 <= factorR (Prim2SF r) <= 1)%R).
  { unfold factorR. destruct (Prim2SF r) as [s|[|]| |s m e]; try apply clampR_bounds; lra. }
  assert (R0 : rounds 0%R 0) by (rewrite <- value_0; apply rounds_self; reflexivity).
  assert (R1 : rounds 1%R 1) by (rewrite <- value_1; apply rounds_self; reflexivity).
  split.
  - apply (rounds_leb 0%R (1 - factorR (Prim2SF r))%R 0 (1 - diffractionFactor r) R0 R).
    lra.
  - apply (rounds_leb (1 - factorR (Prim2SF r))%R 1%R (1 - diffractionFactor r) 1 R R1).
    lra.
Qed.

(** A quotient of a number that is not negative by one that is positive,
    the infinite divisor included. *)
Lemma quotient_nonneg r d :
  is_finite r = true -> (0 <=? r) = true -> (0 <? d) = true -> (0 <=? r / d) = true.
Proof.
  intros Fr Pr Pd.
  destruct (ltb_not_nan _ _ Pd) as (_ & Nd).
  destruct (number_cases d) as [X | [Fd | [-> | ->]]]; [congruence | | | discriminate].
  - destruct (div_positive r d Fd Pd (is_finite_not_nan r Fr)) as (N & _).
    apply ltb_false_leb; [exact N | reflexivity|].
    apply div_not_negative; [exact Fd | exact Pd | apply leb_not_ltb; exact Pr].
  - rewrite is_finite_spec in Fr. rewrite leb_spec, div_spec, Prim2SF_0, Prim2SF_infinity.
    destruct (Prim2SF r) as [s|s| |s m e]; try discriminate; destruct s; reflexivity.
Qed.

Lemma nonneg_below_is_finite r maxR :
  (0 <=? r) = true -> (r <? maxR) = true -> is_finite r = true.
Proof.
  intros P L.
  apply (between_finite 0 r P).
  - intros H. discriminate.
  - intros ->. rewrite infinity_ltb in L. discriminate.
Qed.

Lemma scaled_positive x c :
  is_finite c = true -> (0 <? c) = true -> (1 <=? x) = true ->
  (0 <? x * c) = true.
Proof.
  intros Fc Pc L. rewrite mul_comm.
  pose proof (mul_monotone c 1 x Fc Pc L) as M.
  apply (ltb_leb_trans 0 (c * 1) (c * x)); [|exact M].
  destruct (positive_finite_shape c Fc Pc) as (m & e & E).
  pose proof (mul_rounds c 1 Fc eq_refl) as R. rewrite value_1, Rmult_1_r in R.
  destruct (number_eq_dec (c * 1) c) as [-> | N]; [exact Pc|].
  exfalso. apply N. apply (rounds_unique (value c)); [|exact R | apply rounds_self; exact Fc].
  pose proof (positive_value c Fc Pc). lra.
Qed.

(** The opacity of an incident wavefront. *)
Lemma incident_alpha r maxR :
  (0 <=? r) = true -> (r <? maxR) = true -> (1 <=? maxR) = true ->
  (0 <=? Math_max 0 (1 - r / (maxR * 0.8))) = true
  /\ (Math_max 0 (1 - r / (maxR * 0.8)) <=? 1) = true.
Proof.
  intros P L M.
  assert (Fr : is_finite r = true) by exact (nonneg_below_is_finite r maxR P L).
  assert (D : (0 <? maxR * 0.8) = true) by (apply scaled_positive; auto).
  pose proof (quotient_nonneg r (maxR * 0.8) Fr P D) as Q.
  destruct (sub_from_one _ Q) as (N & U).
  apply Math_max_zero; [exact N | exact U | reflexivity].
Qed.

Lemma mul_one c : is_finite c = true -> c * 1 = c.
Proof.
  intros Fc. rewrite is_finite_spec in Fc. apply Prim2SF_inj.
  destruct (Prim2SF c) as [s|s| |s m e] eqn:E; try discriminate.
  - rewrite mul_spec, E, Prim2SF_1. destruct s; reflexivity.
  - assert (F : is_finite c = true) by (rewrite is_finite_spec, E; reflexivity).
    pose proof (mul_rounds c 1 F eq_refl) as R. rewrite value_1, Rmult_1_r in R.
    rewrite <- E. f_equal.
    apply (rounds_unique (value c)); [|exact R | apply rounds_self; exact F].
    unfold value. rewrite E. cbn [B2R].
    assert (0 < IZR (Zpos m) * pow2 e)%R
      by (apply Rmult_lt_0_compat; [apply IZR_lt; lia | apply pow2_pos]).
    destruct s; lra.
Qed.

Lemma sub_monotone x y c :
  is_finite c = true -> (x <=? y) = true -> (x - c <=? y - c) = true.
Proof.
  intros Fc L. destruct (leb_not_nan _ _ L) as (Nx & Ny).
  pose proof Fc as Fc'. rewrite is_finite_spec in Fc'.
  assert (I1 : infinity - c = infinity).
  { apply Prim2SF_inj. rewrite sub_spec, Prim2SF_infinity.
    destruct (Prim2SF c); try discriminate; reflexivity. }
  assert (I2 : neg_infinity - c = neg_infinity).
  { apply Prim2SF_inj. rewrite sub_spec, Prim2SF_neg_infinity.
    destruct (Prim2SF c); try discriminate; reflexivity. }
  assert (N : forall z, is_nan z = false -> is_nan (z - c) = false).
  { intros z Nz. destruct (number_cases z) as [X | [F | [-> | ->]]]; [congruence | | |].
    - exact (rounds_not_nan _ _ (sub_rounds z c F Fc)).
    - rewrite I1. reflexivity.
    - rewrite I2. reflexivity. }
  destruct (number_eq_dec y infinity) as [-> | Ey];
    [rewrite I1; apply leb_infinity; apply N; exact Nx|].
  destruct (number_eq_dec x neg_infinity) as [-> | Ex];
    [rewrite I2; apply neg_infinity_leb; apply N; exact Ny|].
  destruct (between_finite x y L Ex Ey) as (Fx & Fy).
  apply rounds_leb with (1 := sub_rounds x c Fx Fc) (2 := sub_rounds y c Fy Fc).
  apply leb_value in L; auto. lra.
Qed.

(** Under the guard [ratio > 0.8] the reflection opacity is positive and at
    most 1. *)
Lemma reflectionOpacity_range r :
  (0.8 <? r) = true ->
  (0 <? reflectionOpacity r) = true /\ (reflectionOpacity r <=? 1) = true
  /\ is_finite (reflectionOpacity r) = true.
Proof.
  intros G.
  assert (Y : (0.8 - 0.6 <=? r - 0.6) = true)
    by (apply sub_monotone; [reflexivity | apply ltb_leb; exact G]).
  assert (P : (0 <? r - 0.6) = true).
  { apply (ltb_leb_trans 0 (0.8 - 0.6) (r - 0.6)); [vm_compute; reflexivity | exact Y]. }
  destruct (ltb_not_nan _ _ P) as (_ & Ny).
  assert (R : (0 <? reflectionOpacity r) = true /\ (reflectionOpacity r <=? 1) = true).
  { unfold reflectionOpacity, Math_min. rewrite Ny.
    replace (is_nan 1) with false by reflexivity. cbn [orb].
    destruct (1 <? r - 0.6) eqn:A; [split; reflexivity|].
    destruct (r - 0.6 <? 1) eqn:B.
    - split; [exact P | apply ltb_leb; exact B].
    - replace (get_sign 1) with false by reflexivity.
      split; [exact P | apply ltb_false_leb; auto]. }
  destruct R as (R1 & R2). split; [exact R1 | split; [exact R2 |]].
  apply (bounded_is_finite 0 _ 1); auto. apply ltb_leb. exact R1.
Qed.

(** The opacity of a reflected wavefront. *)
Lemma reflected_alpha rr w op :
  (0 <? rr) = true -> is_finite w = true -> (1 <=? w) = true ->
  (0 <? op) = true -> (op <=? 1) = true -> is_finite op = true ->
  (0 <=? Math_max 0 ((1 - rr / (w * 0.5)) * op * 0.6)) = true
  /\ (Math_max 0 ((1 - rr / (w * 0.5)) * op * 0.6) <=? 1) = true.
Proof.
  intros Prr Fw Lw Pop Uop Fop.
  assert (D : (0 <? w * 0.5) = true) by (apply scaled_positive; auto).
  assert (Fd : is_finite (w * 0.5) = true).
  { apply (bounded_is_finite 0 (w * 0.5) w); auto; [apply ltb_leb; exact D|].
    apply rounds_leb with (1 := mul_rounds w 0.5 Fw eq_refl) (2 := rounds_self w Fw).
    assert (0 <= value w)%R.
    { apply value_not_negative; [exact Fw|]. apply leb_not_ltb.
      apply (leb_trans 0 1 w); [reflexivity | exact Lw]. }
    replace (value 0.5) with (/ 2)%R; [lra|].
    unfold value. replace (Prim2SF 0.5) with (S754_finite false 4503599627370496 (-53))
      by (vm_compute; reflexivity).
    cbn [B2R]. rewrite pow2_m53. lra. }
  destruct (ltb_not_nan _ _ Prr) as (_ & Nrr).
  destruct (div_positive rr (w * 0.5) Fd D Nrr) as (Nq & _).
  assert (Q : (0 <=? rr / (w * 0.5)) = true).
  { apply ltb_false_leb; [exact Nq | reflexivity|].
    apply div_not_negative; [exact Fd | exact D | apply leb_not_ltb, ltb_leb; exact Prr]. }
  destruct (sub_from_one _ Q) as (Nx & Ux).
  set (X := 1 - rr / (w * 0.5)) in *.
  assert (P1 : is_nan (X * op) = false /\ (X * op <=? 1) = true).
  { rewrite (mul_comm X op). split.
    - exact (proj1 (mul_positive op X Fop Pop Nx)).
    - apply (leb_trans (op * X) (op * 1) 1).
      + apply mul_monotone; auto.
      + rewrite mul_one by exact Fop. exact Uop. }
  destruct P1 as (Np & Up).
  assert (P2 : is_nan (X * op * 0.6) = false /\ (X * op * 0.6 <=? 1) = true).
  { rewrite (mul_comm (X * op) 0.6). split.
    - exact (proj1 (mul_positive 0.6 (X * op) eq_refl eq_refl Np)).
    - apply (leb_trans (0.6 * (X * op)) (0.6 * 1) 1); [|vm_compute; reflexivity].
      apply mul_monotone; [reflexivity | reflexivity | exact Up]. }
  destruct P2 as (Ny & Uy).
  apply Math_max_zero; [exact Ny | exact Uy | reflexivity].
Qed.

Lemma gridColumns_alpha fuel : forall x w h ppm ops,
  gridColumns fuel x w h ppm = Returned ops -> forallb alphaOK ops = true.
Proof.
  induction fuel as [|fuel IH]; intros x w h ppm ops; cbn [gridColumns]; [discriminate|].
  destruct (x <? w); [|intros H; inversion H; reflexivity].
  destruct (gridColumns fuel (x + ppm) w h ppm) as [o| |] eqn:E; cbn [seq call]; try discriminate.
  intros H. inversion H; subst ops. cbn [app forallb alphaOK andb]. exact (IH _ _ _ _ _ E).
Qed.

Lemma gridRows_alpha fuel : forall y w h ppm ops,
  gridRows fuel y w h ppm = Returned ops -> forallb alphaOK ops = true.
Proof.
  induction fuel as [|fuel IH]; intros y w h ppm ops; cbn [gridRows]; [discriminate|].
  destruct (y <? h); [|intros H; inversion H; reflexivity].
  destruct (gridRows fuel (y + ppm) w h ppm) as [o| |] eqn:E; cbn [seq call]; try discriminate.
  intros H. inversion H; subst ops. cbn [app forallb alphaOK andb]. exact (IH _ _ _ _ _ E).
Qed.

Lemma incidentWaves_alpha fuel : forall r maxR wl sx cy ops,
  (r <? 0) = false -> (wl <? 0) = false -> (1 <=? maxR) = true ->
  incidentWaves fuel r maxR wl sx cy = Returned ops -> forallb alphaOK ops = true.
Proof.
  induction fuel as [|fuel IH]; intros r maxR wl sx cy ops R W M; cbn [incidentWaves];
    [discriminate|].
  destruct (r <? maxR) eqn:T; [|intros H; inversion H; reflexivity].
  cbv zeta. intros H.
  peel H o1 H1. peel H o2 H2. peel H o3 H3. peel H o4 H4.
  inversion H1; inversion H2; inversion H4; subst.
  apply ctx_arc_Returned in H3. subst o3.
  assert (P : (0 <=? r) = true).
  { destruct (ltb_not_nan _ _ T) as (Nr & _). apply ltb_false_leb; auto. }
  destruct (incident_alpha r maxR P T M) as (A & B).
  cbn [app forallb alphaOK]. rewrite A, B. cbn [andb].
  apply (IH (r + wl) maxR wl sx cy); auto. apply add_not_negative; assumption.
Qed.

Lemma reflectedWaves_alpha fuel : forall r maxR wl w sx ox cy op ops,
  is_finite w = true -> (1 <=? w) = true ->
  (0 <? op) = true -> (op <=? 1) = true -> is_finite op = true ->
  reflectedWaves fuel r maxR wl w sx ox cy op = Returned ops -> forallb alphaOK ops = true.
Proof.
  induction fuel as [|fuel IH]; intros r maxR wl w sx ox cy op ops Fw Lw P U F;
    cbn [reflectedWaves]; [discriminate|].
  destruct (r <? maxR); [|intros H; inversion H; reflexivity].
  cbv zeta. intros H. peel H body Hb.
  rewrite forallb_app. apply andb_true_iff. split;
    [|exact (IH _ _ _ _ _ _ _ _ _ Fw Lw P U F H)].
  destruct (ox - sx <? r); [|inversion Hb; reflexivity].
  destruct (0 <? r - (ox - sx)) eqn:G; [|inversion Hb; reflexivity].
  peel Hb o1 H1. peel Hb o2 H2. peel Hb o3 H3.
  inversion H1; inversion H2; inversion Hb; subst.
  apply ctx_arc_Returned in H3. subst o3.
  destruct (reflected_alpha (r - (ox - sx)) w op G Fw Lw P U F) as (A & B).
  cbn [app forallb alphaOK]. rewrite A, B. reflexivity.
Qed.

(** X11: every opacity is a number from 0 to 1.  In a frame that returns, for
    a ratio that is not [NaN], nothing negative, and a surface at least one
    pixel wide, each [rgba(...)] colour the frame sets (the incident and the
    reflected wavefronts, the shadow) has an opacity between 0 and 1. *)
Theorem opacities_in_range (fuel : nat) (width height size : float) (m : AcousticMetrics)
    (t : float) (ops : list CanvasOp) :
  drawFrame fuel width height size m t = Returned ops ->
  is_nan (ratio m) = false ->
  (t <? 0) = false -> (wavelength m <? 0) = false -> (height <? 0) = false ->
  is_finite width = true -> (1 <=? width) = true ->
  (1 <=? Math_hypot width height) = true ->
  forallb alphaOK ops = true.
Proof.
  intros H Nr T W Hh Fw Lw Lm.
  destruct (drawFrame_shape _ _ _ _ _ _ _ H)
    as (gc & gr & inc & rf & Hgc & Hgr & Hinc & Hrf & ->).
  rewrite !forallb_app.
  rewrite (gridColumns_alpha _ _ _ _ _ _ Hgc), (gridRows_alpha _ _ _ _ _ _ Hgr).
  assert (I : forallb alphaOK inc = true).
  { apply (incidentWaves_alpha _ _ _ _ _ _ _ (phase_not_negative t _ T)) with (3 := Hinc);
      [|exact Lm].
    unfold wavelengthPx, PIXELS_PER_METER.
    apply mul_not_negative; [exact W | apply scale_not_negative; exact Hh]. }
  assert (R : forallb alphaOK rf = true).
  { unfold reflectedPass in Hrf. destruct (0.8 <? ratio m) eqn:G; [|inversion Hrf; reflexivity].
    destruct (reflectionOpacity_range _ G) as (P & U & F).
    exact (reflectedWaves_alpha _ _ _ _ _ _ _ _ _ _ Fw Lw P U F Hrf). }
  destruct (shadow_alpha (ratio m) Nr) as (A & B).
  rewrite I, R. unfold shadowOps, framePrologue, frameEpilogue. cbv zeta.
  cbn [forallb alphaOK andb]. rewrite A, B.
  destruct (behavior m); reflexivity.
Qed.

Lemma opacities_in_range_witness :
  drawFrame 100 800 480 1.0 metrics0 0 = Returned frame0
  /\ is_nan (ratio metrics0) = false
  /\ (0 <? 0) = false /\ (wavelength metrics0 <? 0) = false /\ (480 <? 0) = false
  /\ is_finite 800 = true /\ (1 <=? 800) = true
  /\ (1 <=? Math_hypot 800 480) = true
  /\ forallb alphaOK frame0 = true.
Proof.
  assert (H1 : drawFrame 100 800 480 1.0 metrics0 0 = Returned frame0)
    by (vm_compute; reflexivity).
  assert (H2 : is_nan (ratio metrics0) = false) by (vm_compute; reflexivity).
  assert (H3 : (0 <? 0) = false) by reflexivity.
  assert (H4 : (wavelength metrics0 <? 0) = false) by (vm_compute; reflexivity).
  assert (H5 : (480 <? 0) = false) by reflexivity.
  assert (H6 : is_finite 800 = true) by reflexivity.
  assert (H7 : (1 <=? 800) = true) by reflexivity.
  assert (H8 : (1 <=? Math_hypot 800 480) = true) by (vm_compute; reflexivity).
  exact (conj H1 (conj H2 (conj H3 (conj H4 (conj H5 (conj H6 (conj H7 (conj H8
           (opacities_in_range 100 800 480 1.0 metrics0 0 frame0
              H1 H2 H3 H4 H5 H6 H7 H8))))))))).
Defined.

Opaque drawFrame number_of_Z.

Lemma render_at_most_one fuel id w :
  callbacks w = [] -> (List.length (callbacks (fst (render fuel id w))) <= 1)%nat.
Proof.
  intros Hq. destruct (render fuel id w) as [w1 k] eqn:E. cbn [fst].
  destruct (render_cases _ _ _ _ _ E)
    as [(-> & _) | [(_ & _ & Hq' & _) | (_ & ops & c & _ & _ & Hq' & _)]].
  - rewrite Hq. cbn. lia.
  - rewrite Hq', Hq. cbn. lia.
  - rewrite Hq', Hq. cbn. lia.
Qed.

Lemma effect_at_most_one fuel p w :
  callbacks w = [] -> (List.length (callbacks (effect fuel p w)) <= 1)%nat.
Proof.
  intros Hq. unfold effect.
  destruct (negb (canvasRef w) || negb (containerRef w)); [rewrite Hq; cbn; lia|].
  destruct (negb (context2d w)); [rewrite Hq; cbn; lia|].
  match goal with |- context [render fuel ?i ?w'] =>
    pose proof (render_at_most_one fuel i w' Hq) as H;
    destruct (render fuel i w') as [w1 k] end.
  cbn [fst] in H. destruct k; exact H.
Qed.

Lemma runCallback_at_most_one fuel w h :
  Inv w -> (List.length (callbacks w) <= 1)%nat ->
  (List.length (callbacks (runCallback fuel w h)) <= 1)%nat.
Proof.
  intros HI L. unfold runCallback.
  destruct (hung w); [exact L|].
  destruct (find _ (callbacks w)) as [[h' id]|] eqn:Hfind; [|exact L].
  apply find_some in Hfind. destruct Hfind as (Hin & Hh). cbn in Hh.
  apply Nat.eqb_eq in Hh. subst h'.
  pose proof HI as (I1 & I2 & I3).
  destruct (I1 _ _ Hin) as (Hl & c & Hc & Hhc).
  apply render_at_most_one. rewrite <- Hhc. eapply Inv_cancel; eauto.
Qed.

Lemma animationFrame_at_most_one fuel w :
  Inv w -> (List.length (callbacks w) <= 1)%nat ->
  (List.length (callbacks (animationFrame fuel w)) <= 1)%nat.
Proof.
  unfold animationFrame. generalize (map fst (callbacks w)) as hs.
  intros hs. revert w. induction hs as [|h hs IH]; intros w HI L; cbn; [exact L|].
  apply IH.
  - exact (proj1 (runCallback_spec fuel w h HI)).
  - apply runCallback_at_most_one; assumption.
Qed.

Lemma step_at_most_one fuel w e :
  Inv w -> (List.length (callbacks w) <= 1)%nat ->
  (List.length (callbacks (step fuel w e)) <= 1)%nat.
Proof.
  intros HI L. unfold step. destruct (hung w); [exact L|].
  pose proof HI as (I1 & I2 & I3).
  destruct e as [p | p | | | cv ct c2 cw ch].
  - destruct (mounted w) eqn:Hm; [exact L|].
    apply effect_at_most_one. cbn.
    apply Inv_no_cleanup_no_callbacks; auto.
  - destruct (mounted w) as [prev|] eqn:Hm; [|exact L].
    destruct (depsChanged prev p); [|exact L].
    apply effect_at_most_one.
    set (w' := set_mounted (Some p) w).
    assert (HI' : Inv w') by (split; [exact I1 | split; [discriminate | exact I3]]).
    exact (proj1 (stop_effect w' HI')).
  - destruct (mounted w) as [prev|] eqn:Hm; [|exact L].
    cbn. rewrite (proj1 (stop_effect w HI)). cbn. lia.
  - apply animationFrame_at_most_one; assumption.
  - exact L.
Qed.

Lemma run_at_most_one fuel es : forall w,
  Inv w -> (List.length (callbacks w) <= 1)%nat ->
  (List.length (callbacks (run fuel w es)) <= 1)%nat.
Proof.
  induction es as [|e es IH]; intros w HI L; [exact L|].
  change (run fuel w (e :: es)) with (run fuel (step fuel w e) es).
  apply IH.
  - exact (proj1 (step_spec fuel w e HI)).
  - apply step_at_most_one; assumption.
Qed.

(** X12: the component never runs two animation loops.  Whatever React and the
    browser do, in whatever order, at most one frame callback is pending; it
    belongs to the run of the effect whose cleanup React holds; and while the
    component is not mounted none is pending. *)
Theorem one_loop_at_a_time (fuel : nat) (cv ct c2 : bool) (cw ch : Z) (es : list Event) :
  let w := run fuel (initial cv ct c2 cw ch) es in
  (List.length (callbacks w) <= 1)%nat
  /\ (forall h id, In (h, id) (callbacks w) -> cleanup w = Some id)
  /\ (mounted w = None -> callbacks w = []).
Proof.
  cbv zeta.
  pose proof (Inv_initial cv ct c2 cw ch) as I0.
  pose proof (proj1 (run_spec fuel es _ I0)) as HI.
  split; [|split].
  - apply run_at_most_one; [exact I0 | cbn; lia].
  - intros h id Hin. destruct HI as (I1 & _). exact (proj1 (I1 h id Hin)).
  - intros Hm. apply Inv_no_cleanup_no_callbacks; [exact HI|].
    destruct HI as (_ & I2 & _). exact (I2 Hm).
Qed.

Lemma mount_running fuel cw ch p ops :
  drawFrame fuel (number_of_Z cw) (number_of_Z ch) (WaveCanvasProps.obstacleSize p)
    (val (WaveCanvasProps.metrics p)) 0 = Returned ops ->
  step fuel (initial true true true cw ch) (Mount p)
  = runningWorld true true true cw ch p 1 (0 + 1) [(0%nat, ops)].
Proof.
  intros H. unfold step, initial, effect, render.
  cbn -[drawFrame number_of_Z Z.eqb]. rewrite H.
  destruct (Z.eqb_spec 300 cw), (Z.eqb_spec 150 ch); subst; reflexivity.
Qed.

Lemma tick_running fuel cv ct c2 cw ch p k tm fs ops :
  drawFrame fuel (number_of_Z cw) (number_of_Z ch) (WaveCanvasProps.obstacleSize p)
    (val (WaveCanvasProps.metrics p)) tm = Returned ops ->
  step fuel (runningWorld cv ct c2 cw ch p k tm fs) AnimationFrame
  = runningWorld cv ct c2 cw ch p (S k) (tm + 1) (fs ++ [(0%nat, ops)]).
Proof.
  intros H. unfold step, runningWorld, animationFrame, runCallback, render.
  cbn -[drawFrame number_of_Z Nat.eqb Z.eqb].
  rewrite Nat.eqb_refl.
  cbn -[drawFrame number_of_Z Nat.eqb Z.eqb].
  rewrite !Z.eqb_refl.
  cbn -[drawFrame number_of_Z Nat.eqb Z.eqb].
  rewrite H. reflexivity.
Qed.

Lemma run_snoc fuel w es e : run fuel w (es ++ [e]) = step fuel (run fuel w es) e.
Proof. unfold run. rewrite fold_left_app. reflexivity. Qed.

Lemma running_after fuel cw ch p (ops : nat -> list CanvasOp) n :
  (Z.of_nat n < 2 ^ 53 - 1)%Z ->
  (forall k, (k <= n)%nat ->
     drawFrame fuel (number_of_Z cw) (number_of_Z ch) (WaveCanvasProps.obstacleSize p)
       (val (WaveCanvasProps.metrics p)) (number_of_Z (Z.of_nat k)) = Returned (ops k)) ->
  run fuel (initial true true true cw ch) (Mount p :: repeat AnimationFrame n)
  = runningWorld true true true cw ch p (S n) (number_of_Z (Z.of_nat (S n)))
      (map (fun k => (0%nat, ops k)) (List.seq 0%nat (S n))).
Proof.
  induction n as [|n IH]; intros B H.
  - cbn [repeat]. unfold run. cbn [fold_left].
    rewrite (mount_running fuel cw ch p (ops 0%nat)).
    + replace (0 + 1) with (number_of_Z (Z.of_nat 1)) by (vm_compute; reflexivity).
      reflexivity.
    + rewrite <- number_of_Z_0. apply (H 0%nat). lia.
  - replace (Mount p :: repeat AnimationFrame (S n))
      with ((Mount p :: repeat AnimationFrame n) ++ [AnimationFrame])
      by (cbn [app]; rewrite <- repeat_cons; reflexivity).
    rewrite run_snoc, IH; [|lia | intros k Hk; apply H; lia].
    rewrite (tick_running fuel true true true cw ch p (S n) _ _ (ops (S n)));
      [|apply H; lia].
    rewrite <- number_of_Z_1, number_of_Z_add by lia.
    replace (Z.of_nat (S n) + 1)%Z with (Z.of_nat (S (S n))) by lia.
    rewrite (seq_S (S n) 0%nat), map_app. reflexivity.
Qed.

(** X13: one frame per animation frame, and the tick counts them.  On a
    surface whose frames all return, after mounting and [n] animation frames
    the loop has drawn [n + 1] frames, the frame of tick [k] as its [k]-th;
    the tick stands at [n + 1], and the next callback is pending. *)
Theorem ticks_count_frames (fuel : nat) (cw ch : Z) (p : WaveCanvasProps.t)
    (ops : nat -> list CanvasOp) (n : nat) :
  (Z.of_nat n < 2 ^ 53 - 1)%Z ->
  (forall k, (k <= n)%nat ->
     drawFrame fuel (number_of_Z cw) (number_of_Z ch) (WaveCanvasProps.obstacleSize p)
       (val (WaveCanvasProps.metrics p)) (number_of_Z (Z.of_nat k)) = Returned (ops k)) ->
  let w := run fuel (initial true true true cw ch) (Mount p :: repeat AnimationFrame n) in
  frames w = map (fun k => (0%nat, ops k)) (List.seq 0%nat (S n))
  /\ clock w = Some (number_of_Z (Z.of_nat (S n)))
  /\ callbacks w = [(S n, 0%nat)]
  /\ hung w = false
  /\ canvas_width w = cw /\ canvas_height w = ch.
Proof.
  intros B H. cbv zeta. rewrite (running_after fuel cw ch p ops n B H).
  repeat split; reflexivity.
Qed.

Transparent drawFrame number_of_Z.

Lemma ticks_count_frames_witness :
  (Z.of_nat 1 < 2 ^ 53 - 1)%Z
  /\ (forall k, (k <= 1)%nat ->
        drawFrame 100 (number_of_Z 800) (number_of_Z 480)
          (WaveCanvasProps.obstacleSize props0) (val (WaveCanvasProps.metrics props0))
          (number_of_Z (Z.of_nat k)) = Returned (frameAt k))
  /\ clock (run 100 (initial true true true 800 480)
              (Mount props0 :: repeat AnimationFrame 1))
     = Some (number_of_Z (Z.of_nat 2)).
Proof.
  assert (H1 : (Z.of_nat 1 < 2 ^ 53 - 1)%Z) by (vm_compute; reflexivity).
  assert (H2 : forall k, (k <= 1)%nat ->
            drawFrame 100 (number_of_Z 800) (number_of_Z 480)
              (WaveCanvasProps.obstacleSize props0) (val (WaveCanvasProps.metrics props0))
              (number_of_Z (Z.of_nat k)) = Returned (frameAt k)).
  { intros [|[|k]] Hk; [vm_compute; reflexivity | vm_compute; reflexivity | lia]. }
  exact (conj H1 (conj H2
           (proj1 (proj2 (ticks_count_frames 100 800 480 props0 frameAt 1 H1 H2))))).
Defined.

Lemma App_run_snoc a es e : App_run a (es ++ [e]) = App_step (App_run a es) e.
Proof. unfold App_run. rewrite fold_left_app. reflexivity. Qed.

Lemma freqValues_snoc es e :
  freqValues (es ++ [e])
  = freqValues es ++ match e with FreqChange v => [v] | SizeChange _ => [] end.
Proof. unfold freqValues. rewrite flat_map_app. cbn. rewrite app_nil_r. reflexivity. Qed.

Lemma sizeValues_snoc es e :
  sizeValues (es ++ [e])
  = sizeValues es ++ match e with SizeChange v => [v] | FreqChange _ => [] end.
Proof. unfold sizeValues. rewrite flat_map_app. cbn. rewrite app_nil_r. reflexivity. Qed.

Lemma App_run_params (es : list AppEvent) :
  val (params (App_run App_initial es))
  = {| frequency := last (freqValues es) 343;
       obstacleSize := last (sizeValues es) 1.0;
       temperature := 20 |}
  /\ val (metricsMemo (App_run App_initial es))
     = calculateMetrics (val (params (App_run App_initial es))).
Proof.
  induction es as [|e es IH] using rev_ind; [split; reflexivity|].
  destruct IH as (IH1 & IH2).
  rewrite App_run_snoc, freqValues_snoc, sizeValues_snoc.
  destruct e as [v|v]; cbn [App_step handleFreqChange handleSizeChange setParams
                             params metricsMemo val];
    rewrite IH1; cbn [frequency obstacleSize temperature];
    rewrite ?app_nil_r, ?last_last; split; reflexivity.
Qed.

(** X14: after any sequence of slider events the parameters hold the last value
    each slider reported (the initial one if it never moved), the temperature
    is still 20, the memoised metrics are the metrics of those parameters,
    and they are what the canvas is given. *)
Theorem App_state_after_events (es : list AppEvent) :
  let a := App_run App_initial es in
  val (params a)
  = {| frequency := last (freqValues es) 343;
       obstacleSize := last (sizeValues es) 1.0;
       temperature := 20 |}
  /\ val (metricsMemo a) = calculateMetrics (val (params a))
  /\ WaveCanvasProps.frequency (App_props a) = last (freqValues es) 343
  /\ WaveCanvasProps.obstacleSize (App_props a) = last (sizeValues es) 1.0
  /\ val (WaveCanvasProps.metrics (App_props a))
     = calculateMetrics {| frequency := last (freqValues es) 343;
                           obstacleSize := last (sizeValues es) 1.0;
                           temperature := 20 |}.
Proof.
  cbv zeta. destruct (App_run_params es) as (G1 & G2).
  split; [exact G1 | split; [exact G2 |]].
  unfold App_props. cbn [WaveCanvasProps.frequency WaveCanvasProps.obstacleSize
                          WaveCanvasProps.metrics].
  rewrite G2, G1. cbn [frequency obstacleSize]. repeat split; reflexivity.
Qed.

(** X15: the page shows the behaviour three times: the colour of the ratio's
    figure, the colour of the banner and the colour of the obstacle on the
    canvas.  For metrics that [calculateMetrics] made, red goes with red: the
    figure is red exactly when the banner is, exactly when the obstacle is;
    in the transitional band the figure is green while banner and obstacle
    are yellow. *)
Theorem behaviour_displays_agree (p : SimulationParams) :
  let m := calculateMetrics p in
  (ratioClass m = "text-red-400" <-> behavior m = REFLECTING)
  /\ (behavior m = REFLECTING
      <-> bannerClass m = "bg-red-900/10 border-red-800/30 text-red-200")
  /\ (behavior m = REFLECTING <-> obstacleColor (behavior m) = Hex "#f87171")
  /\ (behavior m = TRANSITIONAL ->
      ratioClass m = "text-green-400"
      /\ bannerClass m = "bg-yellow-900/10 border-yellow-800/30 text-yellow-200"
      /\ obstacleColor (behavior m) = Hex "#fbbf24").
Proof.
  cbv zeta. unfold ratioClass, bannerClass.
  cbn [calculateMetrics ratio behavior].
  set (r := obstacleSize p / (calculateSpeedOfSound (temperature p) / frequency p)).
  destruct (1 <? r); [|destruct (r <? 0.5)]; cbn [obstacleColor];
    repeat split; intros; try reflexivity; try discriminate.
Qed.

Lemma last_in_range {A} (P : A -> Prop) (l : list A) (d : A) :
  Forall P l -> P d -> P (last l d).
Proof.
  intros H D. induction H as [|x l Hx Hl IH]; [exact D|].
  destruct l as [|y l']; [exact Hx | exact IH].
Qed.

Lemma freqValues_inRange es :
  forallb inRange es = true ->
  Forall (fun v => (50 <=? v) = true /\ (v <=? 2000) = true) (freqValues es).
Proof.
  induction es as [|e es IH]; cbn [forallb]; intros H; [constructor|].
  apply andb_true_iff in H. destruct H as (He & H).
  destruct e as [v|v]; cbn [freqValues flat_map app]; [|exact (IH H)].
  constructor; [apply andb_true_iff; exact He | exact (IH H)].
Qed.

Lemma sizeValues_inRange es :
  forallb inRange es = true ->
  Forall (fun v => (0.1 <=? v) = true /\ (v <=? 5) = true) (sizeValues es).
Proof.
  induction es as [|e es IH]; cbn [forallb]; intros H; [constructor|].
  apply andb_true_iff in H. destruct H as (He & H).
  destruct e as [v|v]; cbn [sizeValues flat_map app]; [exact (IH H)|].
  constructor; [apply andb_true_iff; exact He | exact (IH H)].
Qed.

Lemma number_of_Z_36 : number_of_Z 36 = 36.
Proof. vm_compute; reflexivity. Qed.

Opaque drawFrame number_of_Z.

(** X16: the animation never stalls.  With the sliders moved in any order to
    any positions, on a surface at least 36 pixels high whose sides and
    diagonal are at most [B] pixels, mounting the canvas and running [n]
    animation frames draws [n + 1] frames: no frame hangs or throws, the
    component stays mounted, the tick stands at [n + 1] and the next frame is
    requested. *)
Theorem animation_never_stalls (B : Z) (fuel : nat) (es : list AppEvent) (cw ch : Z)
    (n : nat) :
  (0 <= B < 2 ^ 52)%Z -> (Z.to_nat B < fuel)%nat ->
  forallb inRange es = true ->
  (0 <= cw <= B)%Z -> (36 <= ch <= B)%Z ->
  (Math_hypot (number_of_Z cw) (number_of_Z ch) <=? number_of_Z B) = true ->
  (Z.of_nat n < 2 ^ 53 - 1)%Z ->
  let w := run fuel (initial true true true cw ch)
             (Mount (App_props (App_run App_initial es)) :: repeat AnimationFrame n) in
  hung w = false
  /\ List.length (frames w) = S n
  /\ clock w = Some (number_of_Z (Z.of_nat (S n)))
  /\ callbacks w = [(S n, 0%nat)]
  /\ mounted w = Some (App_props (App_run App_initial es)).
Proof.
  intros HB F R Hw Hh Hd Hn. cbv zeta.
  set (p := App_props (App_run App_initial es)).
  destruct (App_run_params es) as (G1 & G2).
  assert (Ef : (50 <=? last (freqValues es) 343) = true
               /\ (last (freqValues es) 343 <=? 2000) = true).
  { apply (last_in_range (fun v => (50 <=? v) = true /\ (v <=? 2000) = true));
      [apply freqValues_inRange; exact R | split; reflexivity]. }
  assert (Es : (0.1 <=? last (sizeValues es) 1.0) = true
               /\ (last (sizeValues es) 1.0 <=? 5) = true).
  { apply (last_in_range (fun v => (0.1 <=? v) = true /\ (v <=? 5) = true));
      [apply sizeValues_inRange; exact R | split; reflexivity]. }
  destruct Ef as (Ef1 & Ef2). destruct Es as (Es1 & Es2).
  assert (Ps : WaveCanvasProps.obstacleSize p = last (sizeValues es) 1.0).
  { subst p. unfold App_props. cbn [WaveCanvasProps.obstacleSize]. rewrite G1. reflexivity. }
  assert (Pm : val (WaveCanvasProps.metrics p)
               = calculateMetrics {| frequency := last (freqValues es) 343;
                                     obstacleSize := last (sizeValues es) 1.0;
                                     temperature := 20 |}).
  { subst p. unfold App_props. cbn [WaveCanvasProps.metrics]. rewrite G2, G1. reflexivity. }
  assert (Fin : forall k, (k <= n)%nat ->
            finishes (drawFrame fuel (number_of_Z cw) (number_of_Z ch)
                        (WaveCanvasProps.obstacleSize p) (val (WaveCanvasProps.metrics p))
                        (number_of_Z (Z.of_nat k)))).
  { intros k Hk. rewrite Ps, Pm.
    apply (slider_frame_finishes B); auto.
    - apply leb_not_ltb, number_of_Z_nonneg. lia.
    - rewrite <- number_of_Z_36. apply number_of_Z_leb; lia.
    - apply number_of_Z_leb; lia.
    - apply number_of_Z_leb; lia. }
  set (ops := fun k : nat =>
                match drawFrame fuel (number_of_Z cw) (number_of_Z ch)
                        (WaveCanvasProps.obstacleSize p) (val (WaveCanvasProps.metrics p))
                        (number_of_Z (Z.of_nat k)) with
                | Returned o => o
                | _ => []
                end).
  assert (Hops : forall k, (k <= n)%nat ->
            drawFrame fuel (number_of_Z cw) (number_of_Z ch)
              (WaveCanvasProps.obstacleSize p) (val (WaveCanvasProps.metrics p))
              (number_of_Z (Z.of_nat k)) = Returned (ops k)).
  { intros k Hk. destruct (Fin k Hk) as (o & E). subst ops. cbv beta. rewrite E. reflexivity. }
  rewrite (running_after fuel cw ch p ops n Hn Hops).
  cbn [hung frames clock cleanup closures nth_error option_map time callbacks mounted
       runningWorld].
  rewrite length_map, length_seq. repeat split; reflexivity.
Qed.

Transparent drawFrame number_of_Z.

Lemma animation_never_stalls_witness :
  (0 <= 1024 < 2 ^ 52)%Z /\ (Z.to_nat 1024 < 1025)%nat
  /\ forallb inRange [FreqChange 1000; SizeChange 2.5] = true
  /\ (0 <= 800 <= 1024)%Z /\ (36 <= 480 <= 1024)%Z
  /\ (Math_hypot (number_of_Z 800) (number_of_Z 480) <=? number_of_Z 1024) = true
  /\ (Z.of_nat 2 < 2 ^ 53 - 1)%Z
  /\ hung (run 1025 (initial true true true 800 480)
             (Mount (App_props (App_run App_initial [FreqChange 1000; SizeChange 2.5]))
              :: repeat AnimationFrame 2)) = false.
Proof.
  assert (H1 : (0 <= 1024 < 2 ^ 52)%Z) by (vm_compute; split; [discriminate | reflexivity]).
  assert (H2 : (Z.to_nat 1024 < 1025)%nat) by (vm_compute; lia).
  assert (H3 : forallb inRange [FreqChange 1000; SizeChange 2.5] = true) by reflexivity.
  assert (H4 : (0 <= 800 <= 1024)%Z) by lia.
  assert (H5 : (36 <= 480 <= 1024)%Z) by lia.
  assert (H6 : (Math_hypot (number_of_Z 800) (number_of_Z 480) <=? number_of_Z 1024) = true)
    by (vm_compute; reflexivity).
  assert (H7 : (Z.of_nat 2 < 2 ^ 53 - 1)%Z) by (vm_compute; reflexivity).
  exact (conj H1 (conj H2 (conj H3 (conj H4 (conj H5 (conj H6 (conj H7
           (proj1 (animation_never_stalls 1024 1025 [FreqChange 1000; SizeChange 2.5]
                     800 480 2 H1 H2 H3 H4 H5 H6 H7))))))))).
Defined.


(** ** [calculateMetrics] on all numbers *)

Section Largest.
Local Open Scope Z_scope.

Lemma Prim2SF_MAX_VALUE : Prim2SF MAX_VALUE = S754_finite false 9007199254740991 971.
Proof. vm_compute; reflexivity. Qed.

Lemma magnitude_bound m e :
  bounded prec emax m e = true ->
  (IZR (Zpos m) * pow2 e <= 9007199254740991 * pow2 971)%R.
Proof.
  intros V. destruct (bounded_canonical m e V) as (_ & (E1 & E2) & M & _).
  pose proof (pow2_pos e). pose proof (pow2_le e 971 E2).
  assert (IZR (Zpos m) <= 9007199254740991)%R by (apply IZR_le; lia).
  assert (0 < IZR (Zpos m))%R by (apply IZR_lt; lia).
  nra.
Qed.

End Largest.

Lemma finite_within_MAX_VALUE x :
  is_finite x = true -> (- MAX_VALUE <=? x) = true /\ (x <=? MAX_VALUE) = true.
Proof.
  intros F.
  assert (FM : is_finite MAX_VALUE = true) by reflexivity.
  assert (FN : is_finite (- MAX_VALUE) = true) by reflexivity.
  rewrite (leb_value _ _ FN F), (leb_value _ _ F FM).
  assert (VM : value MAX_VALUE = (9007199254740991 * pow2 971)%R)
    by (unfold value; rewrite Prim2SF_MAX_VALUE; reflexivity).
  assert (VN : value (- MAX_VALUE) = (- (9007199254740991 * pow2 971))%R).
  { unfold value.
    replace (Prim2SF (- MAX_VALUE)) with (S754_finite true 9007199254740991 971)
      by (vm_compute; reflexivity).
    reflexivity. }
  rewrite VM, VN. unfold value.
  pose proof (Prim2SF_valid x) as V. pose proof (pow2_pos 971).
  rewrite is_finite_spec in F.
  destruct (Prim2SF x) as [s|s| |s m e]; cbn [B2R]; try discriminate; [lra|].
  cbn [valid_binary] in V. pose proof (magnitude_bound m e V).
  assert (0 < IZR (Zpos m) * pow2 e)%R
    by (apply Rmult_lt_0_compat; [apply IZR_lt; lia | apply pow2_pos]).
  destruct s; lra.
Qed.

Lemma calculateSpeedOfSound_le a b :
  (a <=? b) = true -> (calculateSpeedOfSound a <=? calculateSpeedOfSound b) = true.
Proof.
  intros H. unfold calculateSpeedOfSound.
  assert (U : (0.6 * a <=? 0.6 * b) = true)
    by (apply mul_monotone; [reflexivity | reflexivity | exact H]).
  destruct (leb_not_nan _ _ U) as (Na & Nb).
  apply add_monotone; [reflexivity | exact U | |]; apply add_finite_not_nan; auto.
Qed.

(** No finite temperature makes the speed overflow. *)
Lemma calculateSpeedOfSound_finite T :
  is_finite T = true -> is_finite (calculateSpeedOfSound T) = true.
Proof.
  intros F. destruct (finite_within_MAX_VALUE T F) as (L & U).
  apply (bounded_is_finite (calculateSpeedOfSound (- MAX_VALUE)) _
           (calculateSpeedOfSound MAX_VALUE));
    [apply calculateSpeedOfSound_le; exact L | apply calculateSpeedOfSound_le; exact U
    | vm_compute; reflexivity | vm_compute; reflexivity].
Qed.

(** The numbers that compare equal to 0 are the two zeros. *)
Lemma eqb_zero_shape x : (x =? 0) = true -> exists s, Prim2SF x = S754_zero s.
Proof.
  rewrite FloatAxioms.eqb_spec, Prim2SF_0.
  destruct (Prim2SF x) as [s|[|]| |[|] m e]; cbv beta iota delta [SFeqb SFcompare];
    try discriminate.
  intros _. exists s. reflexivity.
Qed.

Lemma negative_finite_shape x :
  is_finite x = true -> (x <? 0) = true -> exists m e, Prim2SF x = S754_finite true m e.
Proof.
  rewrite is_finite_spec, ltb_spec, Prim2SF_0.
  destruct (Prim2SF x) as [s|[|]| |[|] m e]; cbv beta iota delta [SFltb SFcompare SFfinite];
    try discriminate.
  intros _ _. exists m, e. reflexivity.
Qed.

(** What a number with the sign bit set compares to. *)
Lemma signed_number_order r :
  (exists s, Prim2SF r = S754_zero s) \/ Prim2SF r = S754_infinity true
  \/ (exists m e, Prim2SF r = S754_finite true m e) ->
  (r <=? 0) = true /\ (r <? 0.5) = true /\ (1 <? r) = false.
Proof.
  rewrite leb_spec, !ltb_spec, Prim2SF_half, Prim2SF_0, Prim2SF_1.
  intros [(s & ->) | [-> | (m & e & ->)]];
    cbv beta iota delta [SFleb SFltb SFcompare]; auto.
Qed.

(** The quotient of a positive and a negative finite number carries the sign
    bit: it is a negative number, [-0] on underflow or [-Infinity] on
    overflow. *)
Lemma SFdiv_opposite_signs sx sy mx ex my ey :
  xorb sx sy = true ->
  let q := SF64div (S754_finite sx mx ex) (S754_finite sy my ey) in
  q = S754_zero true \/ q = S754_infinity true \/ exists p e, q = S754_finite true p e.
Proof.
  intros X. cbv zeta. pose proof (SFdiv_Rnd sx mx ex sy my ey) as R.
  rewrite X in R.
  apply (Rnd_shape true _ _) in R; [exact R|].
  apply Rdiv_lt_0_compat; apply Rmult_lt_0_compat;
    try apply pow2_pos; apply IZR_lt; reflexivity.
Qed.

Lemma zero_frequency_ratio sz sp f :
  (exists s, f = S754_zero s) ->
  SFfinite (SF64div sp f) = false
  /\ ((exists s, SF64div sz (SF64div sp f) = S754_zero s)
      \/ SF64div sz (SF64div sp f) = S754_nan).
Proof.
  intros (s & ->).
  destruct sp as [?|?| |? ? ?], sz as [?|?| |? ? ?]; cbn; eauto.
Qed.

Lemma negative_frequency_ratio msz esz msp esp mf ef :
  let r := SF64div (S754_finite false msz esz)
             (SF64div (S754_finite false msp esp) (S754_finite true mf ef)) in
  (exists s, r = S754_zero s) \/ r = S754_infinity true
  \/ exists m e, r = S754_finite true m e.
Proof.
  cbv zeta.
  destruct (SFdiv_opposite_signs false true msp esp mf ef eq_refl) as [-> | [-> | (p & e & ->)]].
  - right; left. reflexivity.
  - left. exists true. reflexivity.
  - destruct (SFdiv_opposite_signs false true msz esz p e eq_refl) as [-> | [-> | (p' & e' & ->)]]; eauto.
Qed.

Lemma classify_signed r :
  (exists s, Prim2SF r = S754_zero s) \/ Prim2SF r = S754_infinity true
  \/ (exists m e, Prim2SF r = S754_finite true m e) ->
  classify r = DIFFRACTING.
Proof.
  intros S. destruct (signed_number_order r S) as (_ & B & A).
  unfold classify. rewrite A, B. reflexivity.
Qed.

Lemma classify_nan r : is_nan r = true -> classify r = TRANSITIONAL.
Proof.
  intros N. unfold classify.
  destruct (nan_compares 1.0 r) as (A & _); [rewrite N; apply orb_true_r|].
  destruct (nan_compares r 0.5) as (B & _); [rewrite N; reflexivity|].
  rewrite A, B. reflexivity.
Qed.

(** C10: [calculateMetrics] is defined on every triple of numbers, and what
    it returns outside the documented domain is this.  The behaviour is one
    of the three classes and the two tests on the ratio say which; a ratio
    that is [NaN] fails both and is TRANSITIONAL.  No finite temperature
    makes the speed overflow.  A frequency of zero is no division error: the
    wavelength is an infinity or [NaN], the ratio is a zero or [NaN] and the
    behaviour DIFFRACTING or TRANSITIONAL, never REFLECTING.  A negative
    frequency, with a temperature from -273.15 degrees on and a positive
    obstacle, gives a wavelength and a ratio that are not positive, and
    DIFFRACTING. *)
Theorem calculateMetrics_total (p : SimulationParams) :
  let m := calculateMetrics p in
  (behavior m = REFLECTING <-> (1 <? ratio m) = true)
  /\ (behavior m = DIFFRACTING <-> (1 <? ratio m) = false /\ (ratio m <? 0.5) = true)
  /\ (behavior m = TRANSITIONAL <-> (1 <? ratio m) = false /\ (ratio m <? 0.5) = false)
  /\ (is_finite (temperature p) = true -> is_finite (speedOfSound m) = true)
  /\ ((frequency p =? 0) = true ->
      is_finite (wavelength m) = false
      /\ ((ratio m =? 0) = true /\ behavior m = DIFFRACTING
          \/ is_nan (ratio m) = true /\ behavior m = TRANSITIONAL))
  /\ ((frequency p <? 0) = true -> is_finite (frequency p) = true ->
      (-273.15 <=? temperature p) = true -> is_finite (temperature p) = true ->
      (0 <? obstacleSize p) = true -> is_finite (obstacleSize p) = true ->
      (wavelength m <=? 0) = true /\ (ratio m <=? 0) = true
      /\ behavior m = DIFFRACTING).
Proof.
  cbv zeta. rewrite (behavior_classify p).
  set (m := calculateMetrics p).
  assert (Ew : Prim2SF (wavelength m)
               = SF64div (Prim2SF (speedOfSound m)) (Prim2SF (frequency p)))
    by (unfold m, calculateMetrics; cbn [wavelength speedOfSound]; apply div_spec).
  assert (Er : Prim2SF (ratio m)
               = SF64div (Prim2SF (obstacleSize p)) (Prim2SF (wavelength m)))
    by (unfold m, calculateMetrics; cbn [wavelength ratio]; apply div_spec).
  split; [|split; [|split; [|split; [|split]]]].
  - unfold classify. destruct (1.0 <? ratio m), (ratio m <? 0.5);
      split; intros H; try reflexivity; discriminate.
  - unfold classify. destruct (1.0 <? ratio m), (ratio m <? 0.5);
      (split; [intros H | intros (H1 & H2)]); try (split; reflexivity);
        try reflexivity; discriminate.
  - unfold classify. destruct (1.0 <? ratio m), (ratio m <? 0.5);
      (split; [intros H | intros (H1 & H2)]); try (split; reflexivity);
        try reflexivity; discriminate.
  - intros F. exact (calculateSpeedOfSound_finite _ F).
  - intros Z. apply eqb_zero_shape in Z.
    destruct (zero_frequency_ratio (Prim2SF (obstacleSize p)) (Prim2SF (speedOfSound m))
                (Prim2SF (frequency p)) Z) as (W & R).
    rewrite <- Ew in W, R. rewrite <- Er in R.
    split; [rewrite is_finite_spec; exact W|].
    destruct R as [(s & R) | R].
    + left. split.
      * rewrite FloatAxioms.eqb_spec, R, Prim2SF_0. destruct s; reflexivity.
      * apply classify_signed. left. exists s. exact R.
    + right. assert (N : is_nan (ratio m) = true) by (rewrite is_nan_spec, R; reflexivity).
      split; [exact N | apply classify_nan; exact N].
  - intros Nf Ff LT FT Ps Fs.
    assert (P0 : (0 <? calculateSpeedOfSound (-273.15)) = true) by (vm_compute; reflexivity).
    pose proof (ltb_leb_trans 0 (calculateSpeedOfSound (-273.15))
                  (calculateSpeedOfSound (temperature p)) P0
                  (calculateSpeedOfSound_le _ _ LT)) as Pv.
    destruct (positive_finite_shape _ (calculateSpeedOfSound_finite _ FT) Pv)
      as (msp & esp & Es).
    destruct (negative_finite_shape _ Ff Nf) as (mf & ef & Ef).
    destruct (positive_finite_shape _ Fs Ps) as (msz & esz & Esz).
    change (calculateSpeedOfSound (temperature p)) with (speedOfSound m) in Es.
    rewrite Es, Ef in Ew. rewrite Esz, Ew in Er.
    pose proof (negative_frequency_ratio msz esz msp esp mf ef) as R.
    cbv zeta in R. rewrite <- Er in R.
    assert (Wl : (exists s, Prim2SF (wavelength m) = S754_zero s)
                 \/ Prim2SF (wavelength m) = S754_infinity true
                 \/ exists q e, Prim2SF (wavelength m) = S754_finite true q e).
    { rewrite Ew.
      destruct (SFdiv_opposite_signs false true msp esp mf ef eq_refl)
        as [-> | [-> | (q & e & ->)]]; eauto. }
    split; [exact (proj1 (signed_number_order _ Wl))|].
    split; [exact (proj1 (signed_number_order _ R)) | exact (classify_signed _ R)].
Qed.

(** The page's parameters with the frequency set to 0 and to -343. *)
Lemma calculateMetrics_total_witness :
  let z := {| frequency := 0; obstacleSize := 1.0; temperature := 20 |} in
  let n := {| frequency := -343; obstacleSize := 1.0; temperature := 20 |} in
  (frequency z =? 0) = true
  /\ wavelength (calculateMetrics z) = infinity
  /\ is_finite (wavelength (calculateMetrics z)) = false
  /\ behavior (calculateMetrics z) = DIFFRACTING
  /\ (frequency n <? 0) = true
  /\ (ratio (calculateMetrics n) <=? 0) = true
  /\ behavior (calculateMetrics n) = DIFFRACTING.
Proof.
  cbv zeta.
  assert (Z : (0 =? 0) = true) by reflexivity.
  assert (H1 : (-343 <? 0) = true) by reflexivity.
  assert (H2 : is_finite (-343) = true) by reflexivity.
  assert (H3 : (-273.15 <=? 20) = true) by reflexivity.
  assert (H4 : is_finite 20 = true) by reflexivity.
  assert (H5 : (0 <? 1.0) = true) by reflexivity.
  assert (H6 : is_finite 1.0 = true) by reflexivity.
  pose proof (calculateMetrics_total
                {| frequency := 0; obstacleSize := 1.0; temperature := 20 |})
    as (_ & _ & _ & _ & PZ & _).
  pose proof (calculateMetrics_total
                {| frequency := -343; obstacleSize := 1.0; temperature := 20 |})
    as (_ & _ & _ & _ & _ & PN).
  cbn [frequency obstacleSize temperature] in PZ, PN.
  destruct (PZ Z) as (W & _).
  destruct (PN H1 H2 H3 H4 H5 H6) as (_ & R & B).
  refine (conj Z (conj _ (conj W (conj _ (conj H1 (conj R B)))))).
  - vm_compute. reflexivity.
  - vm_compute. reflexivity.
Defined.

(** ** Reflected wavefronts *)









(** ** A surface with a width and no height *)

(** A page on which [render] did not return does nothing any more. *)
Lemma hung_forever fuel w es : hung w = true -> run fuel w es = w.
Proof.
  intros H. induction es as [|e es IH]; [reflexivity|].
  change (run fuel w (e :: es)) with (run fuel (step fuel w e) es).
  replace (step fuel w e) with w by (unfold step; rewrite H; reflexivity).
  exact IH.
Qed.

Lemma run_app fuel w a b : run fuel w (a ++ b) = run fuel (run fuel w a) b.
Proof. unfold run. apply fold_left_app. Qed.

Lemma positive_width (W : Z) : (0 < W < 2 ^ 53)%Z -> (0 <? number_of_Z W) = true.
Proof.
  intros H. rewrite <- number_of_Z_0.
  apply (number_of_Z_ltb 0 W); [vm_compute; reflexivity | lia | lia].
Qed.

Opaque drawFrame number_of_Z.

Lemma mount_zero_height fuel W p :
  (0 < W < 2 ^ 53)%Z ->
  step fuel (initial true true true W 0) (Mount p)
  = set_mounted None
      (set_hung
         (set_canvas_size W 0
            (set_closures
               [{| canvas := true; container := true; ctx := true; props := p;
                   time := 0; animationFrameId := None |}]
               (set_mounted (Some p) (initial true true true W 0))))).
Proof.
  intros H. unfold step, initial, effect, render.
  cbn -[drawFrame number_of_Z Z.eqb].
  rewrite number_of_Z_0, (drawFrame_zero_height fuel _ _ _ _ (positive_width W H)).
  change (150 =? 0)%Z with false. rewrite orb_true_r. reflexivity.
Qed.

Lemma tick_zero_height fuel cv ct c2 cw ch p k tm fs W :
  (0 < W < 2 ^ 53)%Z ->
  let w := run fuel (runningWorld cv ct c2 cw ch p k tm fs)
             [Surface true true true W 0; AnimationFrame] in
  hung w = true /\ frames w = fs /\ callbacks w = [].
Proof.
  intros H. cbv zeta.
  unfold run, step, runningWorld, animationFrame, runCallback, render, set_surface.
  cbn -[drawFrame number_of_Z Nat.eqb Z.eqb].
  rewrite Nat.eqb_refl.
  cbn -[drawFrame number_of_Z Nat.eqb Z.eqb].
  rewrite number_of_Z_0, (drawFrame_zero_height fuel _ _ _ _ (positive_width W H)).
  destruct (negb (cw =? W)%Z || negb (ch =? 0)%Z); repeat split; reflexivity.
Qed.

(** C6: a surface that has a width and no height is fatal.  The scale
    [Math.min(60, height / 6)] is then 0, the column loop of the grid adds 0
    to [x] and never leaves [x < width]: [render] does not return, however
    long it runs.  When the component mounts on such a surface no frame is
    finished and none is requested, and nothing that happens later draws;
    when a running loop finds the surface so, the frame of that tick never
    ends and it was the last. *)
Theorem zero_height_surface_hangs (fuel : nat) (W : Z) (p : WaveCanvasProps.t) :
  (0 < W < 2 ^ 53)%Z ->
  (forall size m t,
     drawFrame fuel (number_of_Z W) (number_of_Z 0) size m t = OutOfFuel)
  /\ (forall es,
        let w := run fuel (initial true true true W 0) (Mount p :: es) in
        hung w = true /\ frames w = [] /\ callbacks w = [])
  /\ (forall cw ch ops n es,
        (Z.of_nat n < 2 ^ 53 - 1)%Z ->
        (forall k, (k <= n)%nat ->
           drawFrame fuel (number_of_Z cw) (number_of_Z ch)
             (WaveCanvasProps.obstacleSize p) (val (WaveCanvasProps.metrics p))
             (number_of_Z (Z.of_nat k)) = Returned (ops k)) ->
        let w := run fuel (initial true true true cw ch)
                   ((Mount p :: repeat AnimationFrame n)
                    ++ Surface true true true W 0 :: AnimationFrame :: es) in
        hung w = true
        /\ frames w = map (fun k => (0%nat, ops k)) (List.seq 0%nat (S n))
        /\ callbacks w = []).
Proof.
  intros H. split; [|split].
  - intros size m t. rewrite number_of_Z_0.
    apply drawFrame_zero_height, positive_width, H.
  - intros es. cbv zeta.
    change (run fuel (initial true true true W 0) (Mount p :: es))
      with (run fuel (step fuel (initial true true true W 0) (Mount p)) es).
    rewrite (mount_zero_height fuel W p H), hung_forever by reflexivity.
    repeat split; reflexivity.
  - intros cw ch ops n es B F. cbv zeta.
    rewrite run_app, (running_after fuel cw ch p ops n B F).
    change (Surface true true true W 0 :: AnimationFrame :: es)
      with ([Surface true true true W 0; AnimationFrame] ++ es).
    rewrite run_app.
    destruct (tick_zero_height fuel true true true cw ch p (S n)
                (number_of_Z (Z.of_nat (S n)))
                (map (fun k => (0%nat, ops k)) (List.seq 0%nat (S n))) W H)
      as (T1 & T2 & T3).
    rewrite (hung_forever fuel _ es T1). auto.
Qed.

Transparent drawFrame number_of_Z.

(** The component mounts on 800 x 0; and it mounts on 800 x 480, draws two
    frames, and the container is then laid out 800 x 0. *)
Lemma zero_height_surface_hangs_witness :
  (0 < 800 < 2 ^ 53)%Z
  /\ hung (run 100 (initial true true true 800 0)
             [Mount props0; Surface true true true 800 480; AnimationFrame]) = true
  /\ frames (run 100 (initial true true true 800 0)
               [Mount props0; Surface true true true 800 480; AnimationFrame]) = []
  /\ (forall k, (k <= 1)%nat ->
        drawFrame 100 (number_of_Z 800) (number_of_Z 480)
          (WaveCanvasProps.obstacleSize props0) (val (WaveCanvasProps.metrics props0))
          (number_of_Z (Z.of_nat k)) = Returned (frameAt k))
  /\ hung (run 100 (initial true true true 800 480)
             ((Mount props0 :: repeat AnimationFrame 1)
              ++ [Surface true true true 800 0; AnimationFrame;
                  Surface true true true 800 480; AnimationFrame])) = true.
Proof.
  assert (H0 : (0 < 800 < 2 ^ 53)%Z) by (vm_compute; split; reflexivity).
  assert (H1 : (Z.of_nat 1 < 2 ^ 53 - 1)%Z) by (vm_compute; reflexivity).
  assert (H2 : forall k, (k <= 1)%nat ->
            drawFrame 100 (number_of_Z 800) (number_of_Z 480)
              (WaveCanvasProps.obstacleSize props0) (val (WaveCanvasProps.metrics props0))
              (number_of_Z (Z.of_nat k)) = Returned (frameAt k)).
  { intros [|[|k]] Hk; [vm_compute; reflexivity | vm_compute; reflexivity | lia]. }
  pose proof (zero_height_surface_hangs 100 800 props0 H0) as (_ & P2 & P3).
  specialize (P2 [Surface true true true 800 480; AnimationFrame]).
  specialize (P3 800%Z 480%Z frameAt 1%nat
                [Surface true true true 800 480; AnimationFrame] H1 H2).
  cbv zeta in P2, P3.
  exact (conj H0 (conj (proj1 P2) (conj (proj1 (proj2 P2)) (conj H2 (proj1 P3))))).
Defined.


(** ** The analysis button *)

Import GeminiAssistant.

Lemma handleAnalyze_no_key k p r st :
  truthy k = false ->
  handleAnalyze k p r {| state := st; trace := [] |}
  = ({| state := {| explanation := explanation st; loading := false;
                    error := Some "Dienst nicht verfügbar." |};
        trace := [ConsoleError "Gemini Error:" "API Key fehlt."] |}, Normal tt).
Proof. intros K. unfold handleAnalyze. rewrite K. reflexivity. Qed.

Lemma handleAnalyze_rejected k p reason st :
  truthy k = true ->
  handleAnalyze k p (Rejected reason) {| state := st; trace := [] |}
  = ({| state := {| explanation := explanation st; loading := false;
                    error := Some "Dienst nicht verfügbar." |};
        trace := [Request (or_else k "") "gemini-2.5-flash" p;
                  Commit {| explanation := explanation st; loading := true; error := None |};
                  ConsoleError "Gemini Error:" reason] |}, Normal tt).
Proof. intros K. unfold handleAnalyze. rewrite K. reflexivity. Qed.

Lemma handleAnalyze_fulfilled k p text st :
  truthy k = true ->
  handleAnalyze k p (Fulfilled text) {| state := st; trace := [] |}
  = ({| state := {| explanation := Some (or_else text "Keine Antwort erhalten.");
                    loading := false; error := None |};
        trace := [Request (or_else k "") "gemini-2.5-flash" p;
                  Commit {| explanation := explanation st; loading := true; error := None |}]
     |}, Normal tt).
Proof. intros K. unfold handleAnalyze. rewrite K. reflexivity. Qed.

Lemma or_else_nonempty v d : d <> "" -> or_else v d <> "".
Proof.
  intros D. destruct v as [s|]; cbn; [|exact D].
  destruct (String.eqb_spec s ""); [exact D | assumption].
Qed.

Lemma onClick_cases st c :
  loading st = false ->
  let st' := onClick st c in
  loading st' = false
  /\ ((explanation st' = explanation st /\ error st' = Some "Dienst nicht verfügbar."
       /\ (truthy (API_KEY c) = false \/ exists reason, settled c = Rejected reason))
      \/ (exists t, t <> "" /\ explanation st' = Some t /\ error st' = None
          /\ truthy (API_KEY c) = true /\ exists text, settled c = Fulfilled text)).
Proof.
  intros L. cbv zeta. unfold onClick. rewrite L.
  destruct c as [k p r]. cbn [GeminiAssistant.API_KEY GeminiAssistant.prompt
                               GeminiAssistant.settled].
  destruct (truthy k) eqn:K.
  - destruct r as [text | reason].
    + rewrite (handleAnalyze_fulfilled k p text st K).
      cbn [fst state explanation loading error]. split; [reflexivity|].
      right. exists (or_else text "Keine Antwort erhalten.").
      split; [apply or_else_nonempty; discriminate|]. eauto.
    + rewrite (handleAnalyze_rejected k p reason st K). cbn. split; [reflexivity|].
      left. eauto.
  - rewrite (handleAnalyze_no_key k p r st K). cbn. split; [reflexivity|]. left. auto.
Qed.

Lemma session_snoc cs c : session (cs ++ [c]) = onClick (session cs) c.
Proof. unfold session. rewrite fold_left_app. reflexivity. Qed.

Lemma session_enabled cs :
  loading (session cs) = false /\ explanation (session cs) <> Some "".
Proof.
  induction cs as [|c cs IH] using rev_ind; [split; [reflexivity | cbn; discriminate]|].
  destruct IH as (L & E). rewrite session_snoc.
  destruct (onClick_cases (session cs) c L) as (L' & [(E1 & _) | (t & T & E1 & _)]).
  - split; [exact L' | rewrite E1; exact E].
  - split; [exact L' | rewrite E1; intros X; inversion X; contradiction].
Qed.

(** X17: without a usable key, or when the service rejects, the user is told only
    that the service is unavailable: the message thrown goes to the console,
    the explanation shown before stays, and the button is enabled again.
    Without a key no request leaves and no render shows the spinner. *)
Theorem handleAnalyze_failure (k : option string) (p : string) (r : Settled) (st : State) :
  truthy k = false \/ (exists reason, r = Rejected reason) ->
  let s := fst (handleAnalyze k p r {| state := st; trace := [] |}) in
  loading (state s) = false
  /\ error (state s) = Some "Dienst nicht verfügbar."
  /\ explanation (state s) = explanation st
  /\ snd (handleAnalyze k p r {| state := st; trace := [] |}) = Normal tt
  /\ (truthy k = false ->
      trace s = [ConsoleError "Gemini Error:" "API Key fehlt."])
  /\ (truthy k = true -> forall reason, r = Rejected reason ->
      trace s = [Request (or_else k "") "gemini-2.5-flash" p;
                 Commit {| explanation := explanation st; loading := true; error := None |};
                 ConsoleError "Gemini Error:" reason]).
Proof.
  intros H. cbv zeta.
  destruct (truthy k) eqn:K.
  - destruct H as [H | (reason & ->)]; [discriminate|].
    rewrite (handleAnalyze_rejected k p reason st K). cbn.
    repeat split; try reflexivity; try discriminate.
    intros _ reason' E. inversion E. reflexivity.
  - rewrite (handleAnalyze_no_key k p r st K). cbn.
    repeat split; try reflexivity; discriminate.
Qed.

Lemma handleAnalyze_failure_witness :
  (truthy None = false \/ exists reason, Fulfilled None = Rejected reason)
  /\ error (state (fst (handleAnalyze None "p" (Fulfilled None)
                          {| state := initialState; trace := [] |})))
     = Some "Dienst nicht verfügbar.".
Proof.
  assert (H : truthy None = false \/ exists reason, Fulfilled None = Rejected reason)
    by (left; reflexivity).
  exact (conj H (proj1 (proj2 (handleAnalyze_failure None "p" (Fulfilled None) initialState H)))).
Defined.

(** X18: with a key and an answer: while the request is out the page is rendered
    with the button disabled and no error; afterwards the explanation is the
    answer's text, or the stand-in when the text is missing or empty, so it is
    never empty; the error is cleared and the button is enabled. *)
Theorem handleAnalyze_success (k : option string) (p : string) (text : option string)
    (st : State) :
  truthy k = true ->
  let s := fst (handleAnalyze k p (Fulfilled text) {| state := st; trace := [] |}) in
  state s = {| explanation := Some (or_else text "Keine Antwort erhalten.");
               loading := false; error := None |}
  /\ or_else text "Keine Antwort erhalten." <> ""
  /\ (truthy text = true -> explanation (state s) = text)
  /\ (truthy text = false -> explanation (state s) = Some "Keine Antwort erhalten.")
  /\ trace s = [Request (or_else k "") "gemini-2.5-flash" p;
                Commit {| explanation := explanation st; loading := true; error := None |}].
Proof.
  intros K. cbv zeta. rewrite (handleAnalyze_fulfilled k p text st K). cbn.
  split; [reflexivity|]. split; [apply or_else_nonempty; discriminate|].
  split; [|split; [|reflexivity]].
  - destruct text as [t|]; cbn; [|discriminate].
    destruct (String.eqb t ""); [discriminate | reflexivity].
  - destruct text as [t|]; cbn; [|reflexivity].
    destruct (String.eqb t ""); [reflexivity | discriminate].
Qed.

Lemma handleAnalyze_success_witness :
  truthy (Some "key") = true
  /\ state (fst (handleAnalyze (Some "key") "p" (Fulfilled (Some ""))
                   {| state := initialState; trace := [] |}))
     = {| explanation := Some "Keine Antwort erhalten."; loading := false; error := None |}.
Proof.
  assert (K : truthy (Some "key") = true) by reflexivity.
  exact (conj K (proj1 (handleAnalyze_success (Some "key") "p" (Some "") initialState K))).
Defined.

(** X19: whatever is clicked and however each request settles: between clicks the
    button is enabled; the explanation is never the empty string, so the
    button reads "Neu laden" exactly when there is one; an explanation, once
    there, is never taken away; and no error is on show exactly when the last
    click had a key and an answer. *)
Theorem session_invariant (cs : list Click) :
  loading (session cs) = false
  /\ explanation (session cs) <> Some ""
  /\ (buttonLabel (session cs) = "Neu laden" <-> explanation (session cs) <> None)
  /\ (forall c, explanation (session cs) <> None ->
        explanation (session (cs ++ [c])) <> None)
  /\ (forall c, error (session (cs ++ [c])) = None
                <-> truthy (API_KEY c) = true
                    /\ exists text, settled c = Fulfilled text).
Proof.
  destruct (session_enabled cs) as (L & E).
  split; [exact L | split; [exact E | split; [|split]]].
  - unfold buttonLabel. destruct (explanation (session cs)) as [t|]; cbn.
    + destruct (String.eqb_spec t ""); [subst; contradiction|].
      cbn. split; [discriminate | reflexivity].
    + split; [discriminate | intros X; contradiction].
  - intros c N. rewrite session_snoc.
    destruct (onClick_cases (session cs) c L) as (_ & [(E1 & _) | (t & _ & E1 & _)]);
      rewrite E1; [exact N | discriminate].
  - intros c. rewrite session_snoc.
    destruct (onClick_cases (session cs) c L)
      as (_ & [(_ & E1 & F) | (t & _ & _ & E1 & K & T)]); rewrite E1.
    + split; [discriminate|]. intros (K & text & T).
      destruct F as [F | (reason & F)]; congruence.
    + split; auto.
Qed.
